(** * Legalization of mhlo.reduce_window to TFL pooling

    A shallow embedding of
    [tensorflow/compiler/mlir/lite/stablehlo/transforms/legalize_hlo_conversions/reduce_window.cc]:
    the support filter [GetViewIfAttrsSupported], the layout canonicalization
    pattern [RelayoutReduceWindow], the average-pool fusion pattern
    [LegalizeAvgPool] and the registration glue.

    Conventions.  [int64_t] values are integers of [Z]; the only narrowing
    conversion of the file ([int64_t] to [int32_t], in [ReplaceWithAvgPool]) is
    written out as [to_int32].  An access that C++ leaves undefined (an
    [ArrayRef] indexed out of range, [front()] of an empty range) yields
    [Undefined].  The pattern rewriter is a log of the operations created and
    replaced, passed explicitly. *)

From Stdlib Require Import String ZArith List Bool Lia.
Import ListNotations.
Open Scope string_scope.
Open Scope list_scope.
Open Scope Z_scope.

(** ** Undefined behaviour *)

Inductive Undef (A : Type) : Type :=
| Defined (a : A)
| Undefined.
Arguments Defined {A} a.
Arguments Undefined {A}.

Definition ubind {A B : Type} (m : Undef A) (k : A -> Undef B) : Undef B :=
  match m with
  | Defined a => k a
  | Undefined => Undefined
  end.

Notation "x <- m ;; k" := (ubind m (fun x => k))
  (at level 61, m at next level, right associativity).
Notation "' p <- m ;; k" := (ubind m (fun x => match x with p => k end))
  (at level 61, p pattern, m at next level, right associativity).

(** [operator[]] of [llvm::ArrayRef] and [llvm::SmallVector]. *)
Definition elem_at {A : Type} (l : list A) (i : Z) : Undef A :=
  if i <? 0 then Undefined
  else match nth_error l (Z.to_nat i) with
       | Some a => Defined a
       | None => Undefined
       end.

(** [front()] of an operand range. *)
Definition front {A : Type} (l : list A) : Undef A :=
  match l with
  | a :: _ => Defined a
  | [] => Undefined
  end.

(** [for (int i = 0; i < n; ++i) res[i] = f(i)], every [f(i)] defined. *)
Fixpoint mapU {A B : Type} (f : A -> Undef B) (l : list A) : Undef (list B) :=
  match l with
  | [] => Defined []
  | a :: l' => b <- f a ;; bs <- mapU f l' ;; Defined (b :: bs)
  end.

(** The indices [first, first + 1, ..., first + n - 1]. *)
Definition iota (first : Z) (n : nat) : list Z :=
  map (fun k => first + Z.of_nat k) (seq 0 n).

(** Conversion of an [int64_t] to [int32_t] (two's complement, modular). *)
Definition to_int32 (z : Z) : Z := (z + 2 ^ 31) mod 2 ^ 32 - 2 ^ 31.

Fixpoint list_eqb {A : Type} (eqb : A -> A -> bool) (l1 l2 : list A) : bool :=
  match l1, l2 with
  | [], [] => true
  | a :: l1', b :: l2' => eqb a b && list_eqb eqb l1' l2'
  | _, _ => false
  end.

(** ** Window descriptor and layout ([op_util_common.h], [reduce_window_util.h]) *)

(** Modelled from the spec: [DimPadding] is declared in [op_util_common.h],
    which is not among the sources.  A padding is a (lo, hi) pair, trivial iff
    both are zero. *)
Record DimPadding : Type := { Lo : Z; Hi : Z }.

(** Modelled from the spec: [DimPadding::Trivial], both amounts are zero. *)
Definition Trivial (p : DimPadding) : bool := (Hi p =? 0) && (Lo p =? 0).

(** Modelled from the spec: [ReduceWindowView] is declared in
    [reduce_window_util.h], which is not among the sources.  The descriptor
    holds the rank and one entry per dimension of every window attribute. *)
Record ReduceWindowView : Type := {
  Rank : Z;
  WindowDims : list Z;
  WindowStrides : list Z;
  BaseDilations : list Z;
  WindowDilations : list Z;
  Paddings : list DimPadding
}.

(** Modelled from the spec: [window_size] is the product of [window_dims]. *)
Definition WindowSize (v : ReduceWindowView) : Z :=
  fold_left Z.mul (WindowDims v) 1.

(** Modelled from the spec: the descriptor's invariant, all sequences have
    length exactly [rank]. *)
Definition view_invariant (v : ReduceWindowView) : Prop :=
  Z.of_nat (length (WindowDims v)) = Rank v /\
  Z.of_nat (length (WindowStrides v)) = Rank v /\
  Z.of_nat (length (BaseDilations v)) = Rank v /\
  Z.of_nat (length (WindowDilations v)) = Rank v /\
  Z.of_nat (length (Paddings v)) = Rank v.

(** Modelled from the spec: [Layout] is declared in [op_util_common.h], which
    is not among the sources.  [SpecialDim1] is the batch dimension,
    [SpecialDim2] the channel dimension, [Spatials] the spatial dimensions in
    semantic order. *)
Record Layout : Type := {
  SpecialDim1 : Z;
  SpecialDim2 : Z;
  Spatials : list Z
}.

(** Modelled from the spec: [Layout::Rank], one batch axis, one channel
    axis and the spatial axes. *)
Definition Layout_Rank (l : Layout) : Z := Z.of_nat (length (Spatials l)) + 2.

(** Modelled from the spec: two layouts are equal iff batch, channel and the
    spatial dimensions in order are identical. *)
Definition Layout_eqb (a b : Layout) : bool :=
  (SpecialDim1 a =? SpecialDim1 b) && (SpecialDim2 a =? SpecialDim2 b) &&
  list_eqb Z.eqb (Spatials a) (Spatials b).

(** The physical dimensions of a layout, batch and channel first. *)
Definition Layout_dims (l : Layout) : list Z :=
  SpecialDim1 l :: SpecialDim2 l :: Spatials l.

(** Modelled from the spec: a layout of a rank-N tensor has exactly one batch
    axis, one channel axis and N-2 spatial axes, the spatial ones being the
    remaining physical indices: its dimensions are distinct indices below N. *)
Definition Layout_valid (l : Layout) : Prop :=
  NoDup (Layout_dims l) /\
  Forall (fun d => 0 <= d < Layout_Rank l) (Layout_dims l).

(** Modelled from the spec: the semantic roles a layout assigns, the
    spatial ones numbered in semantic order. *)
Inductive Role : Type :=
| Batch
| Channel
| Spatial (k : nat).

(** The first position of [d] in [l]. *)
Fixpoint position (d : Z) (l : list Z) : option nat :=
  match l with
  | [] => None
  | x :: l' => if d =? x then Some 0%nat else option_map S (position d l')
  end.

(** Modelled from the spec: the semantic role a layout gives to physical
    dimension [d]. *)
Definition role_of (l : Layout) (d : Z) : option Role :=
  if d =? SpecialDim1 l then Some Batch
  else if d =? SpecialDim2 l then Some Channel
  else option_map Spatial (position d (Spatials l)).

(** Modelled from the spec: the physical dimension of a layout that carries
    a role. *)
Definition dim_of (l : Layout) (r : Role) : option Z :=
  match r with
  | Batch => Some (SpecialDim1 l)
  | Channel => Some (SpecialDim2 l)
  | Spatial k => nth_error (Spatials l) k
  end.

(** Modelled from the spec: [Layout::GetPermForReLayout] ([permutation_to]) is
    defined in [op_util_common.cc], which is not among the sources.  For each
    physical dimension [d] of the target, the entry is the physical dimension
    of [self] that carries the same semantic role as the target's [d]. *)
Definition GetPermForReLayout (self to_layout : Layout) : list Z :=
  map (fun d => match role_of to_layout d with
                | Some r => match dim_of self r with
                            | Some x => x
                            | None => 0
                            end
                | None => 0
                end)
      (iota 0 (Z.to_nat (Layout_Rank to_layout))).

(** [Permute] (reduce_window.cc, lines 99-106). *)
Definition Permute (data perm : list Z) : Undef (list Z) :=
  mapU (fun i => p <- elem_at perm i ;; elem_at data p) (iota 0 (length data)).

(** Modelled from the spec: [Layout::PermuteShape] applies
    [permutation_to(target)] to a shape vector. *)
Definition PermuteShape (self to_layout : Layout) (shape : list Z)
  : Undef (list Z) :=
  Permute shape (GetPermForReLayout self to_layout).

(** [TFLNativePoolingLayout] (lines 88-90): [llvm::seq<int64_t>(1, rank - 1)]
    is the half-open range from 1 to [rank - 1]. *)
Definition TFLNativePoolingLayout (rank : Z) : Layout :=
  {| SpecialDim1 := 0;
     SpecialDim2 := rank - 1;
     Spatials := iota 1 (Z.to_nat (rank - 2)) |}.

(** ** Types and attributes of the host IR *)

Inductive ElementType : Type :=
| FloatType (width : Z)
| IntegerType (width : Z)
| OtherElementType.

Definition isa_FloatType (t : ElementType) : bool :=
  match t with
  | FloatType _ => true
  | _ => false
  end.

Record ShapedType : Type := {
  getShape : list Z;
  getElementType : ElementType
}.

Definition getNumElements (t : ShapedType) : Z := fold_left Z.mul (getShape t) 1.

(** [ShapedType::clone(shape)]: same element type, new shape. *)
Definition ShapedType_clone (t : ShapedType) (shape : list Z) : ShapedType :=
  {| getShape := shape; getElementType := getElementType t |}.

Record DenseIntElementsAttr : Type := {
  int_shape : list Z;
  int_values : list Z
}.

Definition DenseIntElementsAttr_eqb (a b : DenseIntElementsAttr) : bool :=
  list_eqb Z.eqb (int_shape a) (int_shape b) &&
  list_eqb Z.eqb (int_values a) (int_values b).

(** Comparison of two optional attributes ([operator!=] on the accessors'
    results, negated). *)
Definition optional_attr_eqb (a b : option DenseIntElementsAttr) : bool :=
  match a, b with
  | None, None => true
  | Some x, Some y => DenseIntElementsAttr_eqb x y
  | _, _ => false
  end.

(** The window attributes of an [mhlo.reduce_window]: the window dimensions
    are required, the others optional. *)
Record WindowAttributes : Type := {
  window_dimensions : DenseIntElementsAttr;
  window_strides : option DenseIntElementsAttr;
  base_dilations : option DenseIntElementsAttr;
  window_dilations : option DenseIntElementsAttr;
  padding : option DenseIntElementsAttr
}.

(** [BuildDenseI64] (lines 116-125). *)
Definition BuildDenseI64_shaped (shape data : list Z) : DenseIntElementsAttr :=
  {| int_shape := shape; int_values := data |}.

Definition BuildDenseI64 (data : list Z) : DenseIntElementsAttr :=
  let dim := Z.of_nat (length data) in
  BuildDenseI64_shaped [dim] data.

(** ** External collaborators

    What the file consumes from LLVM and MLIR, and the helpers of this
    repository whose definitions are in headers that are not among the sources.
    Every theorem below holds for every choice of them. *)
Class Host : Type := {
  (** [llvm::APFloat], with [isZero] and [isExactlyValue]; the numeric argument
      of [isExactlyValue] is the integer whose conversion to [double] the
      source passes ([WindowSize()], and 1 for the literal [1.0]). *)
  APFloat : Type;
  isZero : APFloat -> bool;
  isExactlyValue : APFloat -> Z -> bool;
  (** [mlir::Region], the reduction body of a reduce-window. *)
  Region : Type;
  (** [succeeded(MatchBinaryReduceFunction<mhlo::AddOp>(body))] ([util.h]). *)
  MatchBinaryReduceFunction_AddOp : Region -> bool;
  (** The constructor [ReduceWindowView(op)] ([reduce_window_util.h]): it
      parses the window attributes of the node. *)
  ReduceWindowView_ctor : WindowAttributes -> ReduceWindowView;
  (** [ReduceWindowView::GuessLayout] ([reduce_window_util.h]). *)
  GuessLayout : ReduceWindowView -> option Layout;
  (** [IsSamePaddingOnDim(dim_pad, out_dim, in_dim, dim_stride)]
      ([op_util_common.h]), with the arguments in the order of the call. *)
  IsSamePaddingOnDim : DimPadding -> Z -> Z -> Z -> bool;
  (** The result type the builder of [mhlo.transpose] infers from the operand
      type and the permutation. *)
  inferTransposeType : ShapedType -> DenseIntElementsAttr -> ShapedType
}.

(** ** The graph: values and operations

    The node kinds relevant to the file, as a closed enumeration.  A value
    carries its type, as an [mlir::Value] does; an operation holds its operands
    and the types of its results. *)
Section Model.
Context {host : Host}.

Inductive DenseFPElementsAttr : Type :=
| SplatFP (ty : ShapedType) (v : APFloat)
| DenseFP (ty : ShapedType) (v0 : APFloat) (vs : list APFloat).

Definition isSplat (a : DenseFPElementsAttr) : bool :=
  match a with
  | SplatFP _ _ => true
  | DenseFP _ _ _ => false
  end.

(** Element 0 of the attribute; [getSplatValue] of a splat. *)
Definition getValues0 (a : DenseFPElementsAttr) : APFloat :=
  match a with
  | SplatFP _ v => v
  | DenseFP _ v0 _ => v0
  end.

Definition getSplatValue (a : DenseFPElementsAttr) : APFloat := getValues0 a.

Definition DenseFPElementsAttr_type (a : DenseFPElementsAttr) : ShapedType :=
  match a with
  | SplatFP ty _ => ty
  | DenseFP ty _ _ => ty
  end.

Inductive Attribute : Type :=
| FPElementsAttr (a : DenseFPElementsAttr)
| IntElementsAttr (a : DenseIntElementsAttr)
| OtherAttr.

Inductive Value : Type :=
| BlockArgument (ty : ShapedType) (arg_number : nat)
| OpResult (ty : ShapedType) (owner : Operation) (result_number : nat)
with Operation : Type :=
| mhlo_constant (value : Attribute)
| mhlo_transpose (op : TransposeOp)
| mhlo_broadcast_in_dim (operand : Value)
    (broadcast_dimensions : DenseIntElementsAttr) (ty : ShapedType)
| mhlo_reshape (operand : Value) (ty : ShapedType)
| mhlo_reduce_window (op : ReduceWindowOp)
| mhlo_divide (op : DivOp)
| tfl_average_pool_2d (ty : ShapedType) (input : Value)
    (filter_height filter_width : Z) (padding_mode : string)
    (stride_h stride_w : Z) (fused_activation_function : string)
| other_op (name : string) (result_types : list ShapedType)
with TransposeOp : Type :=
| MkTransposeOp (operand : Value) (permutation : DenseIntElementsAttr)
    (ty : ShapedType)
with ReduceWindowOp : Type :=
| MkReduceWindowOp (inputs init_values : list Value)
    (attrs : WindowAttributes) (body : Region) (result_types : list ShapedType)
with DivOp : Type :=
| MkDivOp (lhs rhs : Value) (ty : ShapedType).

Definition getType (v : Value) : ShapedType :=
  match v with
  | BlockArgument ty _ => ty
  | OpResult ty _ _ => ty
  end.

Definition getDefiningOp (v : Value) : option Operation :=
  match v with
  | BlockArgument _ _ => None
  | OpResult _ op _ => Some op
  end.

Definition getInputs (op : ReduceWindowOp) : list Value :=
  let 'MkReduceWindowOp inputs _ _ _ _ := op in inputs.

Definition getInitValues (op : ReduceWindowOp) : list Value :=
  let 'MkReduceWindowOp _ inits _ _ _ := op in inits.

Definition getAttrs (op : ReduceWindowOp) : WindowAttributes :=
  let 'MkReduceWindowOp _ _ a _ _ := op in a.

Definition getBody (op : ReduceWindowOp) : Region :=
  let 'MkReduceWindowOp _ _ _ b _ := op in b.

Definition getResultTypes (op : ReduceWindowOp) : list ShapedType :=
  let 'MkReduceWindowOp _ _ _ _ tys := op in tys.

Definition getNumResults (op : ReduceWindowOp) : Z :=
  Z.of_nat (length (getResultTypes op)).

(** [op.getResult(i).getType()]. *)
Definition getResultType (op : ReduceWindowOp) (i : Z) : Undef ShapedType :=
  elem_at (getResultTypes op) i.

(** [op.getResult(i)]: the value naming result [i]. *)
Definition getResult (op : ReduceWindowOp) (i : Z) : Undef Value :=
  ty <- getResultType op i ;;
  Defined (OpResult ty (mhlo_reduce_window op) (Z.to_nat i)).

Definition getWindowDimensions (op : ReduceWindowOp) : DenseIntElementsAttr :=
  window_dimensions (getAttrs op).

Definition getWindowStrides (op : ReduceWindowOp) : option DenseIntElementsAttr :=
  window_strides (getAttrs op).

Definition getPadding (op : ReduceWindowOp) : option DenseIntElementsAttr :=
  padding (getAttrs op).

Definition getLhs (op : DivOp) : Value := let 'MkDivOp l _ _ := op in l.
Definition getRhs (op : DivOp) : Value := let 'MkDivOp _ r _ := op in r.
Definition DivOp_getType (op : DivOp) : ShapedType :=
  let 'MkDivOp _ _ ty := op in ty.

Definition getOperand (op : TransposeOp) : Value :=
  let 'MkTransposeOp x _ _ := op in x.
Definition getPermutation (op : TransposeOp) : DenseIntElementsAttr :=
  let 'MkTransposeOp _ p _ := op in p.

Definition dyn_cast_TransposeOp (op : option Operation) : option TransposeOp :=
  match op with
  | Some (mhlo_transpose t) => Some t
  | _ => None
  end.

Definition dyn_cast_ReduceWindowOp (op : option Operation)
  : option ReduceWindowOp :=
  match op with
  | Some (mhlo_reduce_window rw) => Some rw
  | _ => None
  end.

(** [matchPattern(val, m_Constant(&attr))] for a [DenseFPElementsAttr]. *)
Definition m_Constant_FP (val : Value) : option DenseFPElementsAttr :=
  match getDefiningOp val with
  | Some (mhlo_constant (FPElementsAttr a)) => Some a
  | _ => None
  end.

(** ** The pattern rewriter *)

Inductive RewriterAction : Type :=
| Created (op : Operation)
| Replaced (op : Operation) (new_value : Value).

Definition PatternRewriter : Type := list RewriterAction.

Definition create (rewriter : PatternRewriter) (op : Operation)
  : PatternRewriter := rewriter ++ [Created op].

Definition replaceOp (rewriter : PatternRewriter) (op : Operation)
  (new_value : Value) : PatternRewriter := rewriter ++ [Replaced op new_value].

(** The outcome of a pattern: [success()], or [failure()] with the reason
    passed to [notifyMatchFailure] (empty for a bare [failure()]). *)
Inductive LogicalResult : Type :=
| success
| failure (reason : string).

(** [return rewriter.notifyMatchFailure(op, reason)]: no change to the graph. *)
Definition notifyMatchFailure (rewriter : PatternRewriter) (reason : string)
  : Undef (LogicalResult * PatternRewriter) :=
  Defined (failure reason, rewriter).

(** ** Helpers of reduce_window.cc *)

(** [AreDilationsSupported] (lines 43-47). *)
Definition AreDilationsSupported (op : ReduceWindowView) : bool :=
  let is_one := fun v => v =? 1 in
  forallb is_one (BaseDilations op) && forallb is_one (WindowDilations op).

(** [IsRankSupported] (line 49). *)
Definition IsRankSupported (op : ReduceWindowView) : bool := Rank op =? 4.

(** [GetViewIfAttrsSupported] (lines 51-80), the support filter. *)
Definition GetViewIfAttrsSupported (op : ReduceWindowOp)
  : Undef (option (ReduceWindowView * Layout)) :=
  let view := ReduceWindowView_ctor (getAttrs op) in
  if negb (IsRankSupported view) then Defined None
  else if negb (AreDilationsSupported view) then Defined None
  else
    match GuessLayout view with
    | None => Defined None
    | Some layout =>
        let batch := SpecialDim1 layout in
        batch_pad <- elem_at (Paddings view) batch ;;
        if negb (Trivial batch_pad) then Defined None
        else
          let chan := SpecialDim2 layout in
          chan_pad <- elem_at (Paddings view) chan ;;
          if negb (Trivial chan_pad) then Defined None
          else Defined (Some (view, layout))
    end.

(** [IsReduceWindowLegal] and [IsDivideLegal] (lines 82-86): [std::nullopt]. *)
Definition IsReduceWindowLegal (op : ReduceWindowOp) : option bool := None.

Definition IsDivideLegal (op : DivOp) : option bool := None.

(** [IsCstFloatZero] (lines 92-97). *)
Definition IsCstFloatZero (val : Value) : bool :=
  match m_Constant_FP val with
  | Some initial_value =>
      (getNumElements (DenseFPElementsAttr_type initial_value) =? 1) &&
      isZero (getValues0 initial_value)
  | None => false
  end.

(** [TransposeTensor] (lines 108-114). *)
Definition TransposeTensor (b : PatternRewriter) (tensor : Value)
  (perm : list Z) : Value * PatternRewriter :=
  let perm_size := Z.of_nat (length perm) in
  let perm_attr := BuildDenseI64_shaped [perm_size] perm in
  let ty := inferTransposeType (getType tensor) perm_attr in
  let op := mhlo_transpose (MkTransposeOp tensor perm_attr ty) in
  (OpResult ty op 0, create b op).

(** [GetInputAndInitIfValid] (lines 127-143). *)
Definition GetInputAndInitIfValid (op : ReduceWindowOp)
  : Undef (option (Value * Value)) :=
  if negb (getNumResults op =? 1) then Defined None
  else if Z.of_nat (length (getInputs op)) >? 1 then Defined None
  else if Z.of_nat (length (getInitValues op)) >? 1 then Defined None
  else
    init_val <- front (getInitValues op) ;;
    if negb (getNumElements (getType init_val) =? 1) then Defined None
    else
      input <- front (getInputs op) ;;
      init <- front (getInitValues op) ;;
      Defined (Some (input, init)).

(** ** RelayoutReduceWindow (lines 156-248) *)

(** The loop of lines 199-204: the flat [lo, hi] sequence of the paddings
    reordered by [perm_for_inputs]. *)
Definition permute_paddings (paddings : list DimPadding)
  (perm_for_inputs : list Z) : Undef (list Z) :=
  pairs <- mapU (fun i => p <- elem_at perm_for_inputs i ;;
                          dim_pad <- elem_at paddings p ;;
                          Defined [Lo dim_pad; Hi dim_pad])
                (iota 0 (length paddings)) ;;
  Defined (concat pairs).

Definition RelayoutReduceWindow_matchAndRewrite (op : ReduceWindowOp)
  (rewriter : PatternRewriter) : Undef (LogicalResult * PatternRewriter) :=
  (* check and parse attributes *)
  opt_view <- GetViewIfAttrsSupported op ;;
  match opt_view with
  | None =>
      notifyMatchFailure rewriter "Reduce window attributes not supported."
  | Some (view, layout) =>
  (* get inputs and inits if there are only one *)
  opt_input_and_init <- GetInputAndInitIfValid op ;;
  match opt_input_and_init with
  | None =>
      notifyMatchFailure rewriter
        "Reduce window has wrong number of inputs or init values."
  | Some (input, init_val) =>
  (* figure out permutations for layout change *)
  let target_layout := TFLNativePoolingLayout (Rank view) in
  if Layout_eqb layout target_layout then
    notifyMatchFailure rewriter "Reduce window does not need layout change"
  else
  let perm_for_inputs := GetPermForReLayout layout target_layout in
  (* permute layout sensitive attrs *)
  let paddings := Paddings view in
  new_paddings <- permute_paddings paddings perm_for_inputs ;;
  let new_paddings_size := Z.of_nat (length paddings) in
  let new_paddings_attr :=
    BuildDenseI64_shaped [new_paddings_size; 2] new_paddings in
  new_window_dims <- Permute (WindowDims view) perm_for_inputs ;;
  let new_window_dims_attr := BuildDenseI64 new_window_dims in
  new_window_strides <- Permute (WindowStrides view) perm_for_inputs ;;
  let new_window_strides_attr := BuildDenseI64 new_window_strides in
  (* permute params and build new op *)
  let perm_for_outputs := GetPermForReLayout target_layout layout in
  cur_out_type <- getResultType op 0 ;;
  new_rw_out_shape <- PermuteShape layout target_layout (getShape cur_out_type) ;;
  let new_out_type := ShapedType_clone cur_out_type new_rw_out_shape in
  let '(new_input, rewriter) := TransposeTensor rewriter input perm_for_inputs in
  let new_rw :=
    MkReduceWindowOp [new_input] [init_val]
      {| window_dimensions := new_window_dims_attr;
         window_strides := Some new_window_strides_attr;
         base_dilations := Some (BuildDenseI64 (BaseDilations view));
         window_dilations := Some (BuildDenseI64 (WindowDilations view));
         padding := Some new_paddings_attr |}
      (getBody op) [new_out_type] in
  let rewriter := create rewriter (mhlo_reduce_window new_rw) in
  (* transpose output and update ir *)
  new_rw_result <- getResult new_rw 0 ;;
  let '(new_output, rewriter) :=
    TransposeTensor rewriter new_rw_result perm_for_outputs in
  let rewriter := replaceOp rewriter (mhlo_reduce_window op) new_output in
  Defined (success, rewriter)
  end
  end.

(** ** LegalizeReduceWindowMax (lines 263-268): [return failure()] *)
Definition LegalizeReduceWindowMax_matchAndRewrite (op : ReduceWindowOp)
  (rewriter : PatternRewriter) : Undef (LogicalResult * PatternRewriter) :=
  Defined (failure "", rewriter).

(** ** LegalizeAvgPool (lines 274-510) *)

(** [ReplaceWithAvgPool] (lines 274-311). *)
Definition ReplaceWithAvgPool (op : DivOp) (rw_lhs_input : Value)
  (lhs_view : ReduceWindowView) (padding : string) (rewriter : PatternRewriter)
  (opt_final_tpose : option TransposeOp) : Undef PatternRewriter :=
  let tfl_padding_attr := padding in
  let tfl_faf_attr := "NONE" in
  let out_type :=
    match opt_final_tpose with
    | Some tpose => getType (getOperand tpose)
    | None => DivOp_getType op
    end in
  window_dim_1 <- elem_at (WindowDims lhs_view) 1 ;;
  let tfl_filter_h := to_int32 window_dim_1 in
  window_dim_2 <- elem_at (WindowDims lhs_view) 2 ;;
  let tfl_filter_w := to_int32 window_dim_2 in
  window_stride_1 <- elem_at (WindowStrides lhs_view) 1 ;;
  let tfl_stride_h := to_int32 window_stride_1 in
  window_stride_2 <- elem_at (WindowStrides lhs_view) 2 ;;
  let tfl_stride_w := to_int32 window_stride_2 in
  let pool :=
    tfl_average_pool_2d out_type rw_lhs_input tfl_filter_h tfl_filter_w
      tfl_padding_attr tfl_stride_h tfl_stride_w tfl_faf_attr in
  let rewriter := create rewriter pool in
  let final_op := OpResult out_type pool 0 in
  let '(final_op, rewriter) :=
    match opt_final_tpose with
    | Some tpose =>
        let ty := inferTransposeType (getType final_op) (getPermutation tpose) in
        let new_tpose :=
          mhlo_transpose (MkTransposeOp final_op (getPermutation tpose) ty) in
        (OpResult ty new_tpose 0, create rewriter new_tpose)
    | None => (final_op, rewriter)
    end in
  Defined (replaceOp rewriter (mhlo_divide op) final_op).

(** The producer kinds a walk may skip (the template arguments of
    [RecursivelyWalkUp]). *)
Inductive OpKind : Type :=
| K_TransposeOp
| K_BroadcastInDimOp
| K_ReshapeOp.

Definition OpKind_eqb (a b : OpKind) : bool :=
  match a, b with
  | K_TransposeOp, K_TransposeOp => true
  | K_BroadcastInDimOp, K_BroadcastInDimOp => true
  | K_ReshapeOp, K_ReshapeOp => true
  | _, _ => false
  end.

Definition isa (Tys : list OpKind) (k : OpKind) : bool :=
  existsb (OpKind_eqb k) Tys.

(** [RecursivelyWalkUp<Tys...>] (lines 315-323): while the producer is of a
    kind in [Tys], continue with its operand 0. *)
Fixpoint RecursivelyWalkUp (Tys : list OpKind) (op : Value) : Value :=
  match op with
  | OpResult _ (mhlo_transpose (MkTransposeOp operand _ _)) _ =>
      if isa Tys K_TransposeOp then RecursivelyWalkUp Tys operand else op
  | OpResult _ (mhlo_broadcast_in_dim operand _ _) _ =>
      if isa Tys K_BroadcastInDimOp then RecursivelyWalkUp Tys operand else op
  | OpResult _ (mhlo_reshape operand _) _ =>
      if isa Tys K_ReshapeOp then RecursivelyWalkUp Tys operand else op
  | _ => op
  end.

(** The loop of lines 396-410: the padding mode after the spatial dimensions
    [dims], starting from [tfl_padding]; [None] when the match fails with
    "Padding is not same or valid.". *)
Fixpoint classify_padding (view : ReduceWindowView)
  (in_shape out_shape : list Z) (dims : list Z) (tfl_padding : string)
  : Undef (option string) :=
  match dims with
  | [] => Defined (Some tfl_padding)
  | i :: dims' =>
      dim_pad <- elem_at (Paddings view) i ;;
      dim_stride <- elem_at (WindowStrides view) i ;;
      in_dim <- elem_at in_shape i ;;
      out_dim <- elem_at out_shape i ;;
      if Trivial dim_pad then
        classify_padding view in_shape out_shape dims' tfl_padding
      else if negb (IsSamePaddingOnDim dim_pad out_dim in_dim dim_stride) then
        Defined None
      else classify_padding view in_shape out_shape dims' "SAME"
  end.

(** The values of [i] in [for (int i = 1; i < Rank() - 1; ++i)]. *)
Definition spatial_indices (rank : Z) : list Z := iota 1 (Z.to_nat (rank - 2)).

(** What the validation of the left operand (lines 340-410) leaves for the two
    cases on the right operand. *)
Record LhsMatch : Type := {
  opt_final_tpose : option TransposeOp;
  rw_lhs : ReduceWindowOp;
  rw_lhs_view : ReduceWindowView;
  rw_lhs_input : Value;
  tfl_padding : string
}.

(** Lines 340-410: parse and validate the reduce window on the left; [inl] is
    the reason of a match failure. *)
Definition LegalizeAvgPool_lhs (div_op : DivOp) : Undef (string + LhsMatch) :=
  let div_lhs := getLhs div_op in
  (* If div's input is transposed, save it to chain on the new pool op. *)
  let opt_final_tpose := dyn_cast_TransposeOp (getDefiningOp div_lhs) in
  let rw_lhs_val := RecursivelyWalkUp [K_TransposeOp] div_lhs in
  match dyn_cast_ReduceWindowOp (getDefiningOp rw_lhs_val) with
  | None => Defined (inl "Could not match lhs of div on reduce window.")
  | Some rw_lhs =>
  opt_rw_lhs_view <- GetViewIfAttrsSupported rw_lhs ;;
  match opt_rw_lhs_view with
  | None => Defined (inl "Lhs rw is not valid.")
  | Some (rw_lhs_view, rw_lhs_layout) =>
  if negb (Rank rw_lhs_view =? 4) then
    Defined (inl "Not a 2d pooling operator.")
  else if negb (Layout_eqb rw_lhs_layout
                  (TFLNativePoolingLayout (Layout_Rank rw_lhs_layout))) then
    Defined (inl "Lhs reduce window not tfl standard layout.")
  else
  opt_rw_lhs_input_and_init <- GetInputAndInitIfValid rw_lhs ;;
  match opt_rw_lhs_input_and_init with
  | None =>
      Defined
        (inl "Lhs reduce window has wrong number of inputs or init values.")
  | Some (rw_lhs_input, rw_lhs_init_val) =>
  let rw_lhs_input_type := getType rw_lhs_input in
  (* Check that the reduce-window is a sum-reduce-window. *)
  if negb (MatchBinaryReduceFunction_AddOp (getBody rw_lhs)) then
    Defined (inl "Failed to match rw lhs binary func.")
  else
  rw_lhs_type <- getResultType rw_lhs 0 ;;
  if negb (isa_FloatType (getElementType rw_lhs_type)) then
    Defined (inl "Reduce window lhs most be float type.")
  else
  (* If the init value isn't zero then it can't be an average pool. *)
  if negb (IsCstFloatZero rw_lhs_init_val) then
    Defined (inl "Reduce window lhs init value is not zero.")
  else
  opt_padding <- classify_padding rw_lhs_view (getShape rw_lhs_input_type)
                   (getShape rw_lhs_type) (spatial_indices (Rank rw_lhs_view))
                   "VALID" ;;
  match opt_padding with
  | None => Defined (inl "Padding is not same or valid.")
  | Some tfl_padding =>
      Defined (inr {| opt_final_tpose := opt_final_tpose;
                      rw_lhs := rw_lhs;
                      rw_lhs_view := rw_lhs_view;
                      rw_lhs_input := rw_lhs_input;
                      tfl_padding := tfl_padding |})
  end
  end
  end
  end.

(** Case 1 (lines 416-441): rhs is a splat constant equal to the window size.
    [None] when the right operand is not a floating-point constant, and
    control falls through to case 2. *)
Definition LegalizeAvgPool_case1 (div_op : DivOp) (m : LhsMatch)
  (rewriter : PatternRewriter)
  : option (Undef (LogicalResult * PatternRewriter)) :=
  let div_rhs :=
    RecursivelyWalkUp [K_BroadcastInDimOp; K_TransposeOp] (getRhs div_op) in
  match m_Constant_FP div_rhs with
  | Some divisor =>
      Some
        (if negb (isSplat divisor) then Defined (failure "", rewriter)
         else if negb (isExactlyValue (getSplatValue divisor)
                         (WindowSize (rw_lhs_view m))) then
           notifyMatchFailure rewriter
             "Rhs splat const is not equal to window size."
         else if negb (String.eqb (tfl_padding m) "VALID") then
           notifyMatchFailure rewriter
             "Matching on rhs splat const where rw lhs has non-trivial padding."
         else
           rewriter <- ReplaceWithAvgPool div_op (rw_lhs_input m)
                         (rw_lhs_view m) (tfl_padding m) rewriter
                         (opt_final_tpose m) ;;
           Defined (success, rewriter))
  | None => None
  end.

(** Case 2 (lines 447-507): rhs is another reduce window over 1's with the
    same config as lhs. *)
Definition LegalizeAvgPool_case2 (div_op : DivOp) (m : LhsMatch)
  (rewriter : PatternRewriter) : Undef (LogicalResult * PatternRewriter) :=
  let divisor :=
    RecursivelyWalkUp [K_BroadcastInDimOp; K_ReshapeOp; K_TransposeOp]
      (getRhs div_op) in
  match dyn_cast_ReduceWindowOp (getDefiningOp divisor) with
  | None => notifyMatchFailure rewriter "Rhs of div op is not a reduce window."
  | Some rw_rhs =>
  opt_rw_rhs_view <- GetViewIfAttrsSupported rw_rhs ;;
  match opt_rw_rhs_view with
  | None => notifyMatchFailure rewriter "Rhs rw is not valid."
  | Some (rw_rhs_view, rw_rhs_layout) =>
  if negb (Layout_eqb rw_rhs_layout
             (TFLNativePoolingLayout (Layout_Rank rw_rhs_layout))) then
    notifyMatchFailure rewriter "Rhs reduce window not tfl standard layout."
  else
  (* Check that RHS is a sum-reduce-window. *)
  if negb (MatchBinaryReduceFunction_AddOp (getBody rw_rhs)) then
    notifyMatchFailure rewriter "Rhs rw body function is not an add op."
  else
  opt_rw_rhs_input_and_init <- GetInputAndInitIfValid rw_rhs ;;
  match opt_rw_rhs_input_and_init with
  | None =>
      notifyMatchFailure rewriter
        "Rhs reduce window has wrong number of inputs or init values."
  | Some (rw_rhs_input, rw_rhs_init_val) =>
  if negb (IsCstFloatZero rw_rhs_init_val) then
    notifyMatchFailure rewriter "Rhs rw init vals is not zero."
  else
  let rw_rhs_input :=
    RecursivelyWalkUp [K_BroadcastInDimOp; K_TransposeOp] rw_rhs_input in
  if match m_Constant_FP rw_rhs_input with
     | Some rhs_input_data =>
         negb (isSplat rhs_input_data) ||
         negb (isExactlyValue (getSplatValue rhs_input_data) 1)
     | None => true
     end then
    notifyMatchFailure rewriter "Rw rhs input is not splat of 1.0."
  else
  (* Check that the two reduce window have the same window configuration. *)
  if negb (DenseIntElementsAttr_eqb (getWindowDimensions (rw_lhs m))
             (getWindowDimensions rw_rhs)) ||
     negb (optional_attr_eqb (getWindowStrides (rw_lhs m))
             (getWindowStrides rw_rhs)) ||
     negb (optional_attr_eqb (getPadding (rw_lhs m)) (getPadding rw_rhs)) then
    notifyMatchFailure rewriter "Lhs rw and Rhs rw do not have the same config."
  else
  rewriter <- ReplaceWithAvgPool div_op (rw_lhs_input m) (rw_lhs_view m)
                (tfl_padding m) rewriter (opt_final_tpose m) ;;
  Defined (success, rewriter)
  end
  end
  end.

(** [LegalizeAvgPool::matchAndRewrite] (lines 333-510). *)
Definition LegalizeAvgPool_matchAndRewrite (div_op : DivOp)
  (rewriter : PatternRewriter) : Undef (LogicalResult * PatternRewriter) :=
  lhs <- LegalizeAvgPool_lhs div_op ;;
  match lhs with
  | inl reason => notifyMatchFailure rewriter reason
  | inr m =>
      match LegalizeAvgPool_case1 div_op m rewriter with
      | Some result => result
      | None => LegalizeAvgPool_case2 div_op m rewriter
      end
  end.

(** ** Registration (lines 514-525) *)

Inductive Pattern : Type :=
| RelayoutReduceWindow
| LegalizeReduceWindowMax
| LegalizeAvgPool.

Definition RewritePatternSet : Type := list Pattern.

(** The dynamic legality callbacks of a conversion target, for the two node
    kinds the file registers. *)
Record ConversionTarget : Type := {
  reduce_window_legality : option (ReduceWindowOp -> option bool);
  divide_legality : option (DivOp -> option bool)
}.

Definition PopulateLegalizeReduceWindowPatterns (patterns : RewritePatternSet)
  (target : ConversionTarget) : RewritePatternSet * ConversionTarget :=
  let patterns := patterns ++ [LegalizeAvgPool] in
  let target :=
    {| reduce_window_legality := Some IsReduceWindowLegal;
       divide_legality := divide_legality target |} in
  let target :=
    {| reduce_window_legality := reduce_window_legality target;
       divide_legality := Some IsDivideLegal |} in
  (patterns, target).

Definition PopulatePrepareReduceWindowPatterns (patterns : RewritePatternSet)
  : RewritePatternSet := patterns ++ [RelayoutReduceWindow].

End Model.

(** ** Properties of nodes used in the statements *)
Section Properties.
Context {host : Host}.

(** The descriptor of a node. *)
Definition view_of (op : ReduceWindowOp) : ReduceWindowView :=
  ReduceWindowView_ctor (getAttrs op).

(** A layout of a tensor of the descriptor's rank. *)
Definition layout_fits (l : Layout) (v : ReduceWindowView) : Prop :=
  Layout_valid l /\ Layout_Rank l = Rank v.

(** The layout guessed for a descriptor, if any, is a layout of its rank. *)
Definition guess_fits (v : ReduceWindowView) : Prop :=
  match GuessLayout v with
  | Some l => layout_fits l v
  | None => True
  end.

(** The padding of dimension [d] is trivial. *)
Definition trivial_padding_at (v : ReduceWindowView) (d : Z) : Prop :=
  exists p, elem_at (Paddings v) d = Defined p /\ Trivial p = true.

(** What the support filter asks of a descriptor for layout [l]. *)
Definition Supported (v : ReduceWindowView) (l : Layout) : Prop :=
  Rank v = 4 /\
  Forall (fun d => d = 1) (BaseDilations v) /\
  Forall (fun d => d = 1) (WindowDilations v) /\
  GuessLayout v = Some l /\
  trivial_padding_at v (SpecialDim1 l) /\
  trivial_padding_at v (SpecialDim2 l).

(** The node carries at least one input and one init value. *)
Definition has_operands (op : ReduceWindowOp) : Prop :=
  getInputs op <> [] /\ getInitValues op <> [].

End Properties.

(** ** The padding of a spatial dimension, as the fusion pattern reads it *)
Section PaddingProperties.
Context {host : Host}.
Variables (v : ReduceWindowView) (in_shape out_shape : list Z).

Definition padding_at (i : Z) : DimPadding :=
  nth (Z.to_nat i) (Paddings v) {| Lo := 0; Hi := 0 |}.

(** Dimension [i] has non-trivial padding. *)
Definition padded_dim (i : Z) : bool := negb (Trivial (padding_at i)).

(** The same-padding check of the code on dimension [i]:
    [IsSamePaddingOnDim] on the dimension's padding, output size, input size
    and stride. *)
Definition same_padding_dim (i : Z) : bool :=
  IsSamePaddingOnDim (padding_at i) (nth (Z.to_nat i) out_shape 0)
    (nth (Z.to_nat i) in_shape 0) (nth (Z.to_nat i) (WindowStrides v) 0).

(** Dimension [i] indexes the paddings, the strides and both shapes. *)
Definition dim_in_range (i : Z) : Prop :=
  0 <= i < Z.of_nat (length (Paddings v)) /\
  0 <= i < Z.of_nat (length (WindowStrides v)) /\
  0 <= i < Z.of_nat (length in_shape) /\
  0 <= i < Z.of_nat (length out_shape).

(** Dimension [i] has non-trivial padding that the check rejects. *)
Definition bad_padding_dim (i : Z) : Prop :=
  padded_dim i = true /\ same_padding_dim i = false.

End PaddingProperties.

(** Modelled from the spec: the same-padding relation for an input size, an
    output size, a stride and a window size.  The output size is
    [ceil(input / stride)], and (lo, hi) are the amounts of the standard
    formula: as much total padding as the last window needs, split as evenly
    as possible with the extra unit on the high side. *)
Definition same_padding_relation (in_dim out_dim stride window : Z)
  (pad : DimPadding) : bool :=
  let total := Z.max ((out_dim - 1) * stride + window - in_dim) 0 in
  (out_dim =? (in_dim + stride - 1) / stride) &&
  (Lo pad =? total / 2) && (Hi pad =? total - total / 2).

(** The same-padding relation of the specification on dimension [i] of a
    descriptor: for the dimension's input size, output size, stride and
    window size. *)
Definition spec_same_padding_dim (v : ReduceWindowView)
  (in_shape out_shape : list Z) (i : Z) : bool :=
  same_padding_relation (nth (Z.to_nat i) in_shape 0)
    (nth (Z.to_nat i) out_shape 0) (nth (Z.to_nat i) (WindowStrides v) 0)
    (nth (Z.to_nat i) (WindowDims v) 0) (padding_at v i).


(** ** Layouts and shapes *)

(** The size a shape gives to the dimension that carries role [r] in layout
    [l]: a shape is laid out as [l] when these are its batch, channel and
    spatial sizes. *)
Definition size_of_role (l : Layout) (shape : list Z) (r : Role) : option Z :=
  match dim_of l r with
  | Some d => if d <? 0 then None else nth_error shape (Z.to_nat d)
  | None => None
  end.

(** The entries of [xs] reordered by a permutation: entry [i] of the result
    is entry [perm[i]] of [xs]. *)
Definition reorder {A : Type} (perm : list Z) (xs : list A) (d : A) : list A :=
  map (fun p => nth (Z.to_nat p) xs d) perm.

(** The flat [lo, hi] sequence of a list of paddings. *)
Definition flat_paddings (ps : list DimPadding) : list Z :=
  concat (map (fun p => [Lo p; Hi p]) ps).

Section RelayoutProperties.
Context {host : Host}.

(** The transpose of a value by a permutation, as the builder creates it,
    and its result. *)
Definition transpose_by (x : Value) (perm : list Z) : TransposeOp :=
  MkTransposeOp x (BuildDenseI64 perm)
    (inferTransposeType (getType x) (BuildDenseI64 perm)).

Definition transpose_result (x : Value) (perm : list Z) : Value :=
  OpResult (inferTransposeType (getType x) (BuildDenseI64 perm))
    (mhlo_transpose (transpose_by x perm)) 0.

(** The reduce-window the canonicalization builds from a node with
    descriptor [v], operands [input] and [init] and result type [out_type]:
    every layout-sensitive attribute reordered by [perm], the dilations and
    the body kept. *)
Definition relayouted (op : ReduceWindowOp) (v : ReduceWindowView)
  (input init : Value) (out_type : ShapedType) (perm : list Z)
  : ReduceWindowOp :=
  MkReduceWindowOp [transpose_result input perm] [init]
    {| window_dimensions := BuildDenseI64 (reorder perm (WindowDims v) 0);
       window_strides := Some (BuildDenseI64 (reorder perm (WindowStrides v) 0));
       base_dilations := Some (BuildDenseI64 (BaseDilations v));
       window_dilations := Some (BuildDenseI64 (WindowDilations v));
       padding :=
         Some (BuildDenseI64_shaped [Z.of_nat (length (Paddings v)); 2]
                 (flat_paddings
                    (reorder perm (Paddings v) {| Lo := 0; Hi := 0 |}))) |}
    (getBody op)
    [ShapedType_clone out_type (reorder perm (getShape out_type) 0)].

(** [n] successive attempts of the canonicalization pattern on a node, the
    rewriter passed from one to the next, as a driver that iterates to a
    fixpoint makes them. *)
Fixpoint RelayoutReduceWindow_attempts (n : nat) (op : ReduceWindowOp)
  (rewriter : PatternRewriter) : Undef PatternRewriter :=
  match n with
  | O => Defined rewriter
  | S n' =>
      r <- RelayoutReduceWindow_matchAndRewrite op rewriter ;;
      RelayoutReduceWindow_attempts n' op (snd r)
  end.

End RelayoutProperties.

(** ** The shapes the fusion pattern recognises, and what it emits *)
Section FusionProperties.
Context {host : Host}.

(** The average-pool node of a fusion: filter and stride are the window
    dimensions and strides 1 and 2 of the numerator, converted to 32 bits. *)
Definition fused_pool (out_type : ShapedType) (input : Value)
  (v : ReduceWindowView) (mode : string) : Operation :=
  tfl_average_pool_2d out_type input
    (to_int32 (nth 1 (WindowDims v) 0)) (to_int32 (nth 2 (WindowDims v) 0))
    mode
    (to_int32 (nth 1 (WindowStrides v) 0))
    (to_int32 (nth 2 (WindowStrides v) 0)) "NONE".

(** What a fusion adds to the rewriter.  Without a transpose directly on the
    division's left operand: the pool, of the division's type, and the
    replacement of the division by it.  With one: the pool, of the type of
    the transpose's operand, a transpose of the pool by the same
    permutation, and the replacement of the division by that transpose. *)
Definition fusion_actions_with (tpose : option TransposeOp) (div_op : DivOp)
  (input : Value) (v : ReduceWindowView) (mode : string)
  : list RewriterAction :=
  match tpose with
  | None =>
      let pool := fused_pool (DivOp_getType div_op) input v mode in
      [Created pool;
       Replaced (mhlo_divide div_op) (OpResult (DivOp_getType div_op) pool 0)]
  | Some t =>
      let out_type := getType (getOperand t) in
      let pool := fused_pool out_type input v mode in
      let ty := inferTransposeType out_type (getPermutation t) in
      let new_tpose :=
        mhlo_transpose
          (MkTransposeOp (OpResult out_type pool 0) (getPermutation t) ty) in
      [Created pool; Created new_tpose;
       Replaced (mhlo_divide div_op) (OpResult ty new_tpose 0)]
  end.

Definition fusion_actions (div_op : DivOp) : Value -> ReduceWindowView ->
  string -> list RewriterAction :=
  fusion_actions_with (dyn_cast_TransposeOp (getDefiningOp (getLhs div_op)))
    div_op.

(** The numerator of the division, as the specification has it: after walking
    up through transposes, the left operand is a result of the reduce-window
    [rw], which passes the support filter with descriptor [v] in the
    canonical layout of rank 4, has exactly one result, of type [out_type],
    at most one input and the single init value [init] of one element, an
    addition body, a floating-point result element type and an exactly-zero
    constant init value. *)
Definition sum_window_numerator (div_op : DivOp) (rw : ReduceWindowOp)
  (v : ReduceWindowView) (init : Value) (out_type : ShapedType) : Prop :=
  (exists ty n, RecursivelyWalkUp [K_TransposeOp] (getLhs div_op) =
                  OpResult ty (mhlo_reduce_window rw) n) /\
  GetViewIfAttrsSupported rw = Defined (Some (v, TFLNativePoolingLayout 4)) /\
  getResultTypes rw = [out_type] /\
  (length (getInputs rw) <= 1)%nat /\
  getInitValues rw = [init] /\
  getNumElements (getType init) = 1 /\
  MatchBinaryReduceFunction_AddOp (getBody rw) = true /\
  isa_FloatType (getElementType out_type) = true /\
  IsCstFloatZero init = true.

(** What the verifier of the host IR and the descriptor's invariant give for
    such a node: it has an input, [input]; the descriptor's sequences have
    the length of its rank; the input and the result have that rank. *)
Definition well_formed_window (rw : ReduceWindowOp) (v : ReduceWindowView)
  (input : Value) (out_type : ShapedType) : Prop :=
  getInputs rw = [input] /\
  view_invariant v /\
  Z.of_nat (length (getShape (getType input))) = Rank v /\
  Z.of_nat (length (getShape out_type)) = Rank v.

(** The padding mode of a rank-4 window whose spatial paddings are trivial
    or pass the check. *)
Definition padding_mode (v : ReduceWindowView) : string :=
  if padded_dim v 1 || padded_dim v 2 then "SAME" else "VALID".

(** The constant-divisor shape: after walking up through broadcasts and
    transposes, the right operand is a splat floating-point constant whose
    value is exactly the window size of the numerator. *)
Definition constant_divisor (div_op : DivOp) (v : ReduceWindowView)
  (divisor : DenseFPElementsAttr) : Prop :=
  m_Constant_FP
    (RecursivelyWalkUp [K_BroadcastInDimOp; K_TransposeOp] (getRhs div_op)) =
    Some divisor /\
  isSplat divisor = true /\
  isExactlyValue (getSplatValue divisor) (WindowSize v) = true.

(** The match failure of the first constant-divisor check that fails (lines
    421-435): a bare failure for a constant that is not a splat, then the
    reason for a splat that is not the window size, then the reason for a
    padding mode other than "VALID". *)
Definition constant_divisor_failure (divisor : DenseFPElementsAttr)
  (v : ReduceWindowView) : string :=
  if negb (isSplat divisor) then ""
  else if negb (isExactlyValue (getSplatValue divisor) (WindowSize v)) then
    "Rhs splat const is not equal to window size."
  else "Matching on rhs splat const where rw lhs has non-trivial padding.".


End FusionProperties.

(** [r] is the 32-bit value of the 64-bit [z]: in the range of [int32_t],
    equal to [z] modulo 2^32, and [z] itself when [z] is in that range. *)
Definition narrowed (z r : Z) : Prop :=
  - 2 ^ 31 <= r < 2 ^ 31 /\
  (r - z) mod 2 ^ 32 = 0 /\
  (- 2 ^ 31 <= z < 2 ^ 31 -> r = z).

(** ** Further properties of values and rewrites *)
Section WalkProperties.
Context {host : Host}.

(** The kind of the producer of a value, when it is one a walk may skip. *)
Definition producer_kind (v : Value) : option OpKind :=
  match getDefiningOp v with
  | Some (mhlo_transpose _) => Some K_TransposeOp
  | Some (mhlo_broadcast_in_dim _ _ _) => Some K_BroadcastInDimOp
  | Some (mhlo_reshape _ _) => Some K_ReshapeOp
  | _ => None
  end.

(** The value one transpose, broadcast or reshape away from [x]. *)
Definition wrap (k : OpKind) (x : Value) (attr : DenseIntElementsAttr)
  (ty : ShapedType) (n : nat) : Value :=
  match k with
  | K_TransposeOp => OpResult ty (mhlo_transpose (MkTransposeOp x attr ty)) n
  | K_BroadcastInDimOp => OpResult ty (mhlo_broadcast_in_dim x attr ty) n
  | K_ReshapeOp => OpResult ty (mhlo_reshape x ty) n
  end.

(** The result type of [mhlo.transpose] as the operation defines it: the
    operand's element type, and at every position the operand's size at the
    permutation's entry. *)
Definition transpose_typed : Prop :=
  forall (ty : ShapedType) (perm : list Z),
    length perm = length (getShape ty) ->
    Forall (fun p => 0 <= p < Z.of_nat (length perm)) perm ->
    inferTransposeType ty (BuildDenseI64 perm) =
      ShapedType_clone ty (reorder perm (getShape ty) 0).

(** The value under the transpose that produces [x], when one does; [x]
    itself otherwise. *)
Definition under_final_transpose (x : Value) : Value :=
  match dyn_cast_TransposeOp (getDefiningOp x) with
  | Some t => getOperand t
  | None => x
  end.

(** A well-formed reduce-window node: it has an input and an init value, its
    descriptor keeps its invariant, a guessed layout is a layout of the
    descriptor's rank, and every input and every result has that rank. *)
Definition well_formed_node (op : ReduceWindowOp) : Prop :=
  has_operands op /\
  view_invariant (view_of op) /\
  guess_fits (view_of op) /\
  Forall (fun x => Z.of_nat (length (getShape (getType x))) =
                   Rank (view_of op)) (getInputs op) /\
  Forall (fun ty => Z.of_nat (length (getShape ty)) = Rank (view_of op))
    (getResultTypes op).

(** What the second case of the fusion pattern has checked of the right
    operand when it succeeds: [ones_window_divisor] with the layout compared
    as the code compares it, with the canonical layout of the layout's own
    rank. *)
Definition ones_window_accepted (div_op : DivOp) (rw_lhs rw_rhs : ReduceWindowOp)
  : Prop :=
  (exists ty n,
     RecursivelyWalkUp [K_BroadcastInDimOp; K_ReshapeOp; K_TransposeOp]
       (getRhs div_op) = OpResult ty (mhlo_reduce_window rw_rhs) n) /\
  (exists v_rhs l_rhs,
     GetViewIfAttrsSupported rw_rhs = Defined (Some (v_rhs, l_rhs)) /\
     l_rhs = TFLNativePoolingLayout (Layout_Rank l_rhs)) /\
  MatchBinaryReduceFunction_AddOp (getBody rw_rhs) = true /\
  (exists rhs_input rhs_init ones,
     GetInputAndInitIfValid rw_rhs = Defined (Some (rhs_input, rhs_init)) /\
     IsCstFloatZero rhs_init = true /\
     m_Constant_FP
       (RecursivelyWalkUp [K_BroadcastInDimOp; K_TransposeOp] rhs_input) =
       Some ones /\
     isSplat ones = true /\
     isExactlyValue (getSplatValue ones) 1 = true) /\
  getWindowDimensions rw_lhs = getWindowDimensions rw_rhs /\
  getWindowStrides rw_lhs = getWindowStrides rw_rhs /\
  getPadding rw_lhs = getPadding rw_rhs.

End WalkProperties.

(** ** A concrete host, to run the patterns on concrete graphs

    The theorems quantify over every [Host]; this one instantiates them. *)

Inductive ExampleRegion : Type :=
| AddBody
| MaxBody.

Definition resolve_i64 (attr : option DenseIntElementsAttr) (rank : nat)
  : list Z :=
  match attr with
  | Some a => int_values a
  | None => repeat 1 rank
  end.

Fixpoint paddings_of (flat : list Z) : list DimPadding :=
  match flat with
  | lo :: hi :: flat' => {| Lo := lo; Hi := hi |} :: paddings_of flat'
  | _ => []
  end.

(** Modelled from the spec: the constructor of the window descriptor is in
    [reduce_window_util.h], which is not among the sources.  The spec says it
    parses the raw window attributes, one entry per dimension, and sets the
    rank to the number of dimensions the window spans; this instance reads an
    absent stride or dilation as 1 and an absent padding as (0, 0). *)
Definition example_ReduceWindowView (a : WindowAttributes) : ReduceWindowView :=
  let dims := int_values (window_dimensions a) in
  let rank := length dims in
  {| Rank := Z.of_nat rank;
     WindowDims := dims;
     WindowStrides := resolve_i64 (window_strides a) rank;
     BaseDilations := resolve_i64 (base_dilations a) rank;
     WindowDilations := resolve_i64 (window_dilations a) rank;
     Paddings :=
       match padding a with
       | Some p => paddings_of (int_values p)
       | None => repeat {| Lo := 0; Hi := 0 |} rank
       end |}.

(** Modelled from the spec: [GuessLayout] is in [reduce_window_util.h], which
    is not among the sources.  The spec says it reads the positions of the
    non-windowed dimensions and returns one layout or none; this instance
    takes the dimensions with window size 1 and stride 1 as non-windowed and
    recognises them at the first and last position (channel-last) or at the
    first two (channel-first). *)
Definition example_GuessLayout (v : ReduceWindowView) : option Layout :=
  let simple :=
    map (fun ds => (fst ds =? 1) && (snd ds =? 1))
        (combine (WindowDims v) (WindowStrides v)) in
  let at_ := fun i : Z => nth (Z.to_nat i) simple false in
  if (length (filter (fun b : bool => b) simple) <? 2)%nat then None
  else if at_ 0 && at_ (Rank v - 1) then
    Some {| SpecialDim1 := 0; SpecialDim2 := Rank v - 1;
            Spatials := iota 1 (Z.to_nat (Rank v - 2)) |}
  else if at_ 0 && at_ 1 then
    Some {| SpecialDim1 := 0; SpecialDim2 := 1;
            Spatials := iota 2 (Z.to_nat (Rank v - 2)) |}
  else None.

(** An instance of [IsSamePaddingOnDim] for the examples.  The function is in
    [op_util_common.h], which is not among the sources; the theorems hold for
    every choice of it and this instance only runs examples.  It is not the same-padding relation of the
    specification, which needs the window size that the call does not pass:
    it accepts a padding when the output size is [ceil(input / stride)] and
    the high side exceeds the low side by 0 or 1, which every padding that
    satisfies that relation does. *)
Definition example_IsSamePaddingOnDim (pad : DimPadding)
  (out_dim in_dim stride : Z) : bool :=
  (out_dim =? (in_dim + stride - 1) / stride) &&
  (0 <=? Hi pad - Lo pad) && (Hi pad - Lo pad <=? 1).

(** Floating-point values are the integers here, and [isExactlyValue] is
    equality of integers: that is [isExactlyValue] of the integer's [double]
    for magnitudes up to 2^53, which every example keeps to.  Reduction
    bodies are named. *)
Definition example_host : Host :=
  {| APFloat := Z;
     isZero := fun v => v =? 0;
     isExactlyValue := fun v n => v =? n;
     Region := ExampleRegion;
     MatchBinaryReduceFunction_AddOp :=
       fun body => match body with AddBody => true | MaxBody => false end;
     ReduceWindowView_ctor := example_ReduceWindowView;
     GuessLayout := example_GuessLayout;
     IsSamePaddingOnDim := example_IsSamePaddingOnDim;
     inferTransposeType :=
       fun ty perm =>
         {| getShape :=
              map (fun p => nth (Z.to_nat p) (getShape ty) 0) (int_values perm);
            getElementType := getElementType ty |} |}.

Section Examples.
#[local] Existing Instance example_host.

Definition f32 (shape : list Z) : ShapedType :=
  {| getShape := shape; getElementType := FloatType 32 |}.

Definition splat_attr (shape : list Z) (v : Z) : DenseFPElementsAttr :=
  SplatFP (f32 shape) v.

Definition splat_f32 (shape : list Z) (v : Z) : Value :=
  OpResult (f32 shape) (mhlo_constant (FPElementsAttr (splat_attr shape v))) 0.

Definition window (dims strides : list Z) (pads : option (list Z))
  : WindowAttributes :=
  {| window_dimensions := BuildDenseI64 dims;
     window_strides := Some (BuildDenseI64 strides);
     base_dilations := None;
     window_dilations := None;
     padding :=
       option_map
         (fun p => BuildDenseI64_shaped [Z.of_nat (length dims); 2] p) pads |}.

(** A sum-reduce-window in channel-last layout: window 3x3, stride 2x2, no
    padding, over a 1x9x9x1 input. *)
Definition ex_input : Value := BlockArgument (f32 [1; 9; 9; 1]) 0.

Definition ex_rw : ReduceWindowOp :=
  MkReduceWindowOp [ex_input] [splat_f32 [] 0]
    (window [1; 3; 3; 1] [1; 2; 2; 1] None) AddBody [f32 [1; 4; 4; 1]].

Definition ex_rw_result : Value :=
  OpResult (f32 [1; 4; 4; 1]) (mhlo_reduce_window ex_rw) 0.

(** [ex_rw / 9.0]: the constant-divisor encoding of an average pool. *)
Definition ex_div_const : DivOp :=
  MkDivOp ex_rw_result (splat_f32 [1; 4; 4; 1] 9) (f32 [1; 4; 4; 1]).

(** A sum-reduce-window with SAME padding: window 3x3, stride 1, padding
    (1, 1) on both spatial dimensions, over a 1x8x8x1 input. *)
Definition ex_same_attrs : WindowAttributes :=
  window [1; 3; 3; 1] [1; 1; 1; 1] (Some [0; 0; 1; 1; 1; 1; 0; 0]).

Definition ex_same_input : Value := BlockArgument (f32 [1; 8; 8; 1]) 0.

Definition ex_rw_same : ReduceWindowOp :=
  MkReduceWindowOp [ex_same_input] [splat_f32 [] 0] ex_same_attrs AddBody
    [f32 [1; 8; 8; 1]].

(** The same window over a broadcast of the constant 1.0. *)
Definition ex_ones : Value :=
  OpResult (f32 [1; 8; 8; 1])
    (mhlo_broadcast_in_dim (splat_f32 [] 1) (BuildDenseI64 [])
       (f32 [1; 8; 8; 1])) 0.

Definition ex_rw_ones : ReduceWindowOp :=
  MkReduceWindowOp [ex_ones] [splat_f32 [] 0] ex_same_attrs AddBody
    [f32 [1; 8; 8; 1]].

(** [ex_rw_same / ex_rw_ones]: the ones-window encoding of an average pool. *)
Definition ex_div_ones : DivOp :=
  MkDivOp (OpResult (f32 [1; 8; 8; 1]) (mhlo_reduce_window ex_rw_same) 0)
    (OpResult (f32 [1; 8; 8; 1]) (mhlo_reduce_window ex_rw_ones) 0)
    (f32 [1; 8; 8; 1]).

(** A sum-reduce-window in channel-first layout: window 3x3, stride 2x2 on
    dimensions 2 and 3, over a 1x16x9x9 input. *)
Definition ex_nchw_input : Value := BlockArgument (f32 [1; 16; 9; 9]) 0.

Definition ex_rw_nchw : ReduceWindowOp :=
  MkReduceWindowOp [ex_nchw_input] [splat_f32 [] 0]
    (window [1; 1; 3; 3] [1; 1; 2; 2] (Some [0; 0; 0; 0; 1; 2; 3; 4])) AddBody
    [f32 [1; 16; 5; 7]].

(** A reduce-window of rank 3. *)
Definition ex_rw_rank3 : ReduceWindowOp :=
  MkReduceWindowOp [BlockArgument (f32 [1; 9; 1]) 0] [splat_f32 [] 0]
    (window [1; 3; 1] [1; 2; 1] None) AddBody [f32 [1; 4; 1]].

(** The channel-first layout of rank 4. *)
Definition ex_nchw_layout : Layout :=
  {| SpecialDim1 := 0; SpecialDim2 := 1; Spatials := [2; 3] |}.

(** A reduce-window with one result but no init value. *)
Definition ex_rw_no_init : ReduceWindowOp :=
  MkReduceWindowOp [ex_input] [] (window [1; 3; 3; 1] [1; 2; 2; 1] None)
    AddBody [f32 [1; 4; 4; 1]].

(** A window of 2^32 + 3 rows whose sum is divided through a transpose: the
    division's left operand is the transpose of the reduce-window result. *)
Definition f64 (shape : list Z) : ShapedType :=
  {| getShape := shape; getElementType := FloatType 64 |}.

Definition splat_attr_f64 (shape : list Z) (v : Z) : DenseFPElementsAttr :=
  SplatFP (f64 shape) v.

Definition splat_f64 (shape : list Z) (v : Z) : Value :=
  OpResult (f64 shape)
    (mhlo_constant (FPElementsAttr (splat_attr_f64 shape v))) 0.

Definition ex_big_rows : Z := 2 ^ 32 + 3.

Definition ex_big_input : Value :=
  BlockArgument (f64 [1; ex_big_rows; 9; 1]) 0.

Definition ex_rw_big : ReduceWindowOp :=
  MkReduceWindowOp [ex_big_input] [splat_f64 [] 0]
    (window [1; ex_big_rows; 3; 1] [1; 2; 2; 1] None) AddBody
    [f64 [1; 1; 4; 1]].

Definition ex_tpose : TransposeOp :=
  MkTransposeOp (OpResult (f64 [1; 1; 4; 1]) (mhlo_reduce_window ex_rw_big) 0)
    (BuildDenseI64 [0; 3; 1; 2]) (f64 [1; 1; 1; 4]).

Definition ex_div_tposed : DivOp :=
  MkDivOp (OpResult (f64 [1; 1; 1; 4]) (mhlo_transpose ex_tpose) 0)
    (splat_f64 [1; 1; 1; 4] (ex_big_rows * 3)) (f64 [1; 1; 1; 4]).

(** Two descriptors that differ in the window only, 3x3 and 2x2: stride 2
    and padding (0, 1) on both spatial dimensions, for a 1x8x8x1 input and a
    1x4x4x1 result.  (0, 1) is the same-padding of the 3x3 window at these
    sizes; that of the 2x2 window is (0, 0). *)
Definition ex_view_w3 : ReduceWindowView :=
  {| Rank := 4;
     WindowDims := [1; 3; 3; 1];
     WindowStrides := [1; 2; 2; 1];
     BaseDilations := [1; 1; 1; 1];
     WindowDilations := [1; 1; 1; 1];
     Paddings := [{| Lo := 0; Hi := 0 |}; {| Lo := 0; Hi := 1 |};
                  {| Lo := 0; Hi := 1 |}; {| Lo := 0; Hi := 0 |}] |}.

Definition ex_view_w2 : ReduceWindowView :=
  {| Rank := 4;
     WindowDims := [1; 2; 2; 1];
     WindowStrides := [1; 2; 2; 1];
     BaseDilations := [1; 1; 1; 1];
     WindowDilations := [1; 1; 1; 1];
     Paddings := [{| Lo := 0; Hi := 0 |}; {| Lo := 0; Hi := 1 |};
                  {| Lo := 0; Hi := 1 |}; {| Lo := 0; Hi := 0 |}] |}.




(** [ex_rw / 8.0]: the divisor is a splat constant, but not the window size
    9. *)
Definition ex_div_wrong_const : DivOp :=
  MkDivOp ex_rw_result (splat_f32 [1; 4; 4; 1] 8) (f32 [1; 4; 4; 1]).

End Examples.

Section MoreExamples.
#[local] Existing Instance example_host.

(** The constant 9.0 behind a broadcast and a transpose. *)
Definition ex_wrapped_const : Value :=
  wrap K_TransposeOp
    (wrap K_BroadcastInDimOp (splat_f32 [] 9) (BuildDenseI64 [])
       (f32 [1; 4; 4; 1]) 0)
    (BuildDenseI64 [0; 1; 2; 3]) (f32 [1; 4; 4; 1]) 0.

(** A reduce-window whose padding attribute holds one row only. *)
Definition ex_rw_short_padding : ReduceWindowOp :=
  MkReduceWindowOp [ex_input] [splat_f32 [] 0]
    (window [1; 3; 3; 1] [1; 2; 2; 1] (Some [0; 0])) AddBody
    [f32 [1; 4; 4; 1]].

End MoreExamples.

(** * Proofs *)

(** ** Sequences and defined accesses *)

Lemma iota_length (first : Z) (n : nat) : length (iota first n) = n.
Proof. unfold iota. now rewrite length_map, length_seq. Qed.

Lemma in_iota (first : Z) (n : nat) (i : Z) :
  In i (iota first n) <-> first <= i < first + Z.of_nat n.
Proof.
  unfold iota. rewrite in_map_iff. split.
  - intros (k & <- & Hk). apply in_seq in Hk. lia.
  - intros Hi. exists (Z.to_nat (i - first)). split; [lia|].
    apply in_seq. lia.
Qed.

Lemma nth_iota (first : Z) (n k : nat) (d : Z) :
  (k < n)%nat -> nth k (iota first n) d = first + Z.of_nat k.
Proof.
  intros Hk. unfold iota.
  rewrite nth_indep with (d' := first + Z.of_nat 0)
    by now rewrite length_map, length_seq.
  rewrite map_nth with (f := fun k => first + Z.of_nat k).
  now rewrite seq_nth.
Qed.

Lemma elem_at_Defined {A : Type} (l : list A) (i : Z) (d : A) :
  0 <= i < Z.of_nat (length l) ->
  elem_at l i = Defined (nth (Z.to_nat i) l d).
Proof.
  intros Hi. unfold elem_at.
  destruct (Z.ltb_spec i 0) as [?|_]; [lia|].
  destruct (nth_error l (Z.to_nat i)) as [a|] eqn:E.
  - now rewrite (nth_error_nth _ _ d E).
  - apply nth_error_None in E. lia.
Qed.

Lemma mapU_Defined {A B : Type} (f : A -> Undef B) (g : A -> B) (l : list A) :
  (forall a, In a l -> f a = Defined (g a)) -> mapU f l = Defined (map g l).
Proof.
  induction l as [|a l IH]; intros H; [reflexivity|].
  cbn [mapU map]. rewrite H by now left. cbn [ubind].
  rewrite IH by (intros; apply H; now right). reflexivity.
Qed.

Lemma forallb_is_one (l : list Z) :
  forallb (fun v => v =? 1) l = true <-> Forall (fun d => d = 1) l.
Proof.
  rewrite forallb_forall, Forall_forall.
  split; intros H x Hx; specialize (H x Hx); lia.
Qed.

Lemma list_eqb_Z_eq (l1 l2 : list Z) : list_eqb Z.eqb l1 l2 = true <-> l1 = l2.
Proof.
  revert l2. induction l1 as [|a l1 IH]; intros [|b l2]; cbn [list_eqb];
    try (split; [discriminate|congruence]); [tauto|].
  rewrite andb_true_iff, Z.eqb_eq, IH. split; [intros [-> ->]|intros [= -> ->]]; auto.
Qed.

Lemma Layout_eqb_eq (a b : Layout) : Layout_eqb a b = true <-> a = b.
Proof.
  unfold Layout_eqb. rewrite !andb_true_iff, !Z.eqb_eq, list_eqb_Z_eq.
  destruct a, b; cbn. split; [intros [[-> ->] ->]|intros [= -> -> ->]]; auto.
Qed.

Lemma DenseIntElementsAttr_eqb_eq (a b : DenseIntElementsAttr) :
  DenseIntElementsAttr_eqb a b = true <-> a = b.
Proof.
  unfold DenseIntElementsAttr_eqb. rewrite andb_true_iff, !list_eqb_Z_eq.
  destruct a, b; cbn. split; [intros [-> ->]|intros [= -> ->]]; auto.
Qed.

Lemma optional_attr_eqb_eq (a b : option DenseIntElementsAttr) :
  optional_attr_eqb a b = true <-> a = b.
Proof.
  destruct a as [x|], b as [y|]; cbn; try (split; [discriminate|congruence]);
    [|tauto].
  rewrite DenseIntElementsAttr_eqb_eq. split; congruence.
Qed.

(** ** The support filter *)

Lemma GetViewIfAttrsSupported_Some {host : Host} (op : ReduceWindowOp)
  (v : ReduceWindowView) (l : Layout) :
  GetViewIfAttrsSupported op = Defined (Some (v, l)) <->
  v = view_of op /\ Supported (view_of op) l.
Proof.
  unfold GetViewIfAttrsSupported, Supported, IsRankSupported,
    AreDilationsSupported, trivial_padding_at, view_of.
  set (view := ReduceWindowView_ctor (getAttrs op)).
  split.
  - destruct (Z.eqb_spec (Rank view) 4) as [Hr|]; [|discriminate]. cbn [negb].
    destruct (forallb _ (BaseDilations view)) eqn:Hb; [|discriminate].
    destruct (forallb _ (WindowDilations view)) eqn:Hw; [|discriminate].
    cbn [andb negb].
    destruct (GuessLayout view) as [layout|]; [|discriminate].
    destruct (elem_at (Paddings view) (SpecialDim1 layout)) as [bp|] eqn:Eb;
      [|discriminate]. cbn [ubind].
    destruct (Trivial bp) eqn:Tb; [|discriminate]. cbn [negb].
    destruct (elem_at (Paddings view) (SpecialDim2 layout)) as [cp|] eqn:Ec;
      [|discriminate]. cbn [ubind].
    destruct (Trivial cp) eqn:Tc; [|discriminate]. cbn [negb].
    intros [= <- <-].
    repeat split; try (apply forallb_is_one; assumption); eauto.
  - intros (-> & Hr & Hb & Hw & Hg & (bp & Eb & Tb) & (cp & Ec & Tc)).
    apply forallb_is_one in Hb, Hw.
    rewrite Hr, Hb, Hw, Hg. cbn.
    rewrite Eb. cbn. rewrite Tb. cbn. rewrite Ec. cbn. now rewrite Tc.
Qed.

Lemma GetViewIfAttrsSupported_rank {host : Host} (op : ReduceWindowOp) :
  (Rank (view_of op) =? 4) = false -> GetViewIfAttrsSupported op = Defined None.
Proof.
  intros Hr. unfold GetViewIfAttrsSupported, IsRankSupported.
  unfold view_of in Hr. now rewrite Hr.
Qed.

Lemma GetViewIfAttrsSupported_Defined {host : Host} (op : ReduceWindowOp) :
  view_invariant (view_of op) -> guess_fits (view_of op) ->
  exists r, GetViewIfAttrsSupported op = Defined r.
Proof.
  intros (_ & _ & _ & _ & Hp) Hg.
  unfold GetViewIfAttrsSupported, IsRankSupported, guess_fits, view_of in *.
  set (view := ReduceWindowView_ctor (getAttrs op)) in *.
  destruct (negb (Rank view =? 4)); [eauto|].
  destruct (negb (AreDilationsSupported view)); [eauto|].
  destruct (GuessLayout view) as [layout|]; [|eauto].
  destruct Hg as [[_ Hin] Hrank]. unfold Layout_dims in Hin.
  apply Forall_cons_iff in Hin as [H1 Hin].
  apply Forall_cons_iff in Hin as [H2 _].
  rewrite (elem_at_Defined _ _ {| Lo := 0; Hi := 0 |}) by lia. cbn [ubind].
  destruct (negb (Trivial _)); [eauto|].
  rewrite (elem_at_Defined _ _ {| Lo := 0; Hi := 0 |}) by lia. cbn [ubind].
  destruct (negb (Trivial _)); eauto.
Qed.

(** C4.  The support filter [GetViewIfAttrsSupported] returns the pair
    (descriptor, layout) exactly when the rank is 4, every base and window
    dilation is 1, the layout guess succeeds with that layout and the
    paddings of the batch and of the channel dimension are trivial.  In every
    other case it returns no result, for a node whose descriptor keeps its
    invariant and whose guessed layout, if any, is a layout of the
    descriptor's rank; whenever the rank is not 4 it returns no result,
    whatever the other attributes. *)
Theorem support_filter_characterised {host : Host} (op : ReduceWindowOp) :
  (forall v l, GetViewIfAttrsSupported op = Defined (Some (v, l)) <->
               v = view_of op /\ Supported (view_of op) l) /\
  (view_invariant (view_of op) -> guess_fits (view_of op) ->
   (forall l, ~ Supported (view_of op) l) ->
   GetViewIfAttrsSupported op = Defined None) /\
  (Rank (view_of op) <> 4 -> GetViewIfAttrsSupported op = Defined None).
Proof.
  split; [|split].
  - intros v l. apply GetViewIfAttrsSupported_Some.
  - intros Hinv Hfit Hno.
    destruct (GetViewIfAttrsSupported_Defined op Hinv Hfit) as [[[v l]|] E];
      [|exact E].
    apply GetViewIfAttrsSupported_Some in E as [_ E]. now apply Hno in E.
  - intros Hr. apply GetViewIfAttrsSupported_rank. now apply Z.eqb_neq.
Qed.

(** The filter on the 3x3 channel-last window, and on a window of rank 3. *)
Lemma support_filter_characterised_witness :
  GetViewIfAttrsSupported (host := example_host) ex_rw =
    Defined (Some (view_of (host := example_host) ex_rw,
                   TFLNativePoolingLayout 4)) /\
  GetViewIfAttrsSupported (host := example_host) ex_rw_rank3 = Defined None.
Proof.
  split.
  - apply (support_filter_characterised (host := example_host) ex_rw).
    split; [reflexivity|].
    repeat split; try (repeat constructor);
      eexists; split; reflexivity.
  - apply (support_filter_characterised (host := example_host) ex_rw_rank3).
    discriminate.
Defined.

(** ** Registration and the stubbed max-pool pattern *)

(** C9.  The max-pool legalization pattern reports no match for every
    reduce-window node and leaves the rewriter as it was; the legality
    predicates answer "unknown" ([None]) for every reduce-window and every
    division node, and they are the callbacks
    [PopulateLegalizeReduceWindowPatterns] registers, next to the single
    pattern [LegalizeAvgPool]. *)
Theorem max_pool_stub_and_unknown_legality {host : Host} :
  (forall (op : ReduceWindowOp) (rewriter : PatternRewriter),
     LegalizeReduceWindowMax_matchAndRewrite op rewriter =
       Defined (failure "", rewriter)) /\
  (forall op : ReduceWindowOp, IsReduceWindowLegal op = None) /\
  (forall op : DivOp, IsDivideLegal op = None) /\
  (forall (patterns : RewritePatternSet) (target : ConversionTarget),
     PopulateLegalizeReduceWindowPatterns patterns target =
       (patterns ++ [LegalizeAvgPool],
        {| reduce_window_legality := Some IsReduceWindowLegal;
           divide_legality := Some IsDivideLegal |})).
Proof. repeat split. Qed.

(** ** The operand accesses of [GetInputAndInitIfValid] *)

Lemma GetInputAndInitIfValid_Undefined {host : Host} (op : ReduceWindowOp) :
  GetInputAndInitIfValid op = Undefined <->
  getNumResults op = 1 /\
  (length (getInputs op) <= 1)%nat /\
  (length (getInitValues op) <= 1)%nat /\
  (getInitValues op = [] \/
   exists init, getInitValues op = [init] /\
                getNumElements (getType init) = 1 /\ getInputs op = []).
Proof.
  unfold GetInputAndInitIfValid.
  destruct (Z.eqb_spec (getNumResults op) 1) as [Hr|Hr]; cbn [negb];
    [|split; [discriminate|tauto]].
  destruct (Z.gtb_spec (Z.of_nat (length (getInputs op))) 1) as [Hi|Hi];
    [split; [discriminate|lia]|].
  destruct (Z.gtb_spec (Z.of_nat (length (getInitValues op))) 1) as [Hv|Hv];
    [split; [discriminate|lia]|].
  destruct (getInitValues op) as [|init [|]] eqn:Ev; cbn in Hv; [| |lia].
  - cbn. split; [intros _|reflexivity]. repeat split; try lia. now left.
  - cbn [front ubind].
    destruct (Z.eqb_spec (getNumElements (getType init)) 1) as [Hn|Hn];
      cbn [negb].
    + destruct (getInputs op) as [|input ?] eqn:Ei; cbn.
      * split; [intros _|reflexivity]. repeat split; try lia.
        right. exists init. auto.
      * split; [discriminate|].
        intros (_ & _ & _ & [?|(? & _ & _ & ?)]); discriminate.
    + split; [discriminate|].
      intros (_ & _ & _ & [?|(i & [= <-] & ? & _)]); [discriminate|tauto].
Qed.

Lemma GetInputAndInitIfValid_Defined {host : Host} (op : ReduceWindowOp) :
  has_operands op -> exists r, GetInputAndInitIfValid op = Defined r.
Proof.
  intros [Hi Hv].
  destruct (GetInputAndInitIfValid op) as [r|] eqn:E; [eauto|].
  apply GetInputAndInitIfValid_Undefined in E
    as (_ & _ & _ & [?|(? & _ & _ & ?)]); contradiction.
Qed.

Lemma GetInputAndInitIfValid_Some {host : Host} (op : ReduceWindowOp)
  (input init : Value) :
  GetInputAndInitIfValid op = Defined (Some (input, init)) <->
  getNumResults op = 1 /\ getInputs op = [input] /\
  getInitValues op = [init] /\ getNumElements (getType init) = 1.
Proof.
  unfold GetInputAndInitIfValid.
  destruct (Z.eqb_spec (getNumResults op) 1) as [Hr|Hr]; cbn [negb];
    [|split; [discriminate|tauto]].
  destruct (Z.gtb_spec (Z.of_nat (length (getInputs op))) 1) as [Hi|Hi].
  { split; [discriminate|]. intros (_ & E & _). rewrite E in Hi. cbn in Hi. lia. }
  destruct (Z.gtb_spec (Z.of_nat (length (getInitValues op))) 1) as [Hv|Hv].
  { split; [discriminate|]. intros (_ & _ & E & _). rewrite E in Hv. cbn in Hv. lia. }
  destruct (getInitValues op) as [|w lw]; cbn [front ubind].
  { split; [discriminate|]. intros (_ & _ & ? & _). discriminate. }
  destruct (Z.eqb_spec (getNumElements (getType w)) 1) as [Hn|Hn]; cbn [negb].
  - destruct (getInputs op) as [|i li]; cbn [front ubind].
    { split; [discriminate|]. intros (_ & ? & _). discriminate. }
    destruct li; [|cbn in Hi; lia]. destruct lw; [|cbn in Hv; lia].
    split; [intros [= -> ->]; auto|intros (_ & [= ->] & [= ->] & _); auto].
  - split; [discriminate|intros (_ & _ & [= -> ->] & ?); tauto].
Qed.

(** C10.  [GetInputAndInitIfValid] checks that the node has exactly one
    result, at most one input and at most one init value, and then reads the
    first init value (and, at the end, the first input).  The access is
    undefined exactly when those checks pass and the init values are empty,
    or the single init value has one element and the inputs are empty; it is
    defined for every node with at least one input and one init value.  On a
    node that passes the support filter and the size checks with no init
    value, both patterns are undefined. *)
Theorem GetInputAndInitIfValid_access {host : Host} :
  (forall op : ReduceWindowOp,
     GetInputAndInitIfValid op = Undefined <->
     getNumResults op = 1 /\
     (length (getInputs op) <= 1)%nat /\
     (length (getInitValues op) <= 1)%nat /\
     (getInitValues op = [] \/
      exists init, getInitValues op = [init] /\
                   getNumElements (getType init) = 1 /\ getInputs op = [])) /\
  (forall op : ReduceWindowOp,
     has_operands op -> exists r, GetInputAndInitIfValid op = Defined r) /\
  (forall (op : ReduceWindowOp) (rewriter : PatternRewriter) v l,
     GetViewIfAttrsSupported op = Defined (Some (v, l)) ->
     getNumResults op = 1 ->
     (length (getInputs op) <= 1)%nat ->
     getInitValues op = [] ->
     RelayoutReduceWindow_matchAndRewrite op rewriter = Undefined) /\
  (forall (div_op : DivOp) (rewriter : PatternRewriter) ty op n v,
     RecursivelyWalkUp [K_TransposeOp] (getLhs div_op) =
       OpResult ty (mhlo_reduce_window op) n ->
     GetViewIfAttrsSupported op = Defined (Some (v, TFLNativePoolingLayout 4)) ->
     getNumResults op = 1 ->
     (length (getInputs op) <= 1)%nat ->
     getInitValues op = [] ->
     LegalizeAvgPool_matchAndRewrite div_op rewriter = Undefined).
Proof.
  split; [exact GetInputAndInitIfValid_Undefined|].
  split; [exact GetInputAndInitIfValid_Defined|].
  assert (Hundef : forall op : ReduceWindowOp,
             getNumResults op = 1 -> (length (getInputs op) <= 1)%nat ->
             getInitValues op = [] -> GetInputAndInitIfValid op = Undefined).
  { intros op Hr Hi Hv. apply GetInputAndInitIfValid_Undefined.
    rewrite Hv. cbn. repeat split; auto. }
  split.
  - intros op rewriter v l Hview Hr Hi Hv.
    unfold RelayoutReduceWindow_matchAndRewrite.
    rewrite Hview. cbn [ubind]. now rewrite Hundef.
  - intros div_op rewriter ty op n v Hwalk Hview Hr Hi Hv.
    unfold LegalizeAvgPool_matchAndRewrite, LegalizeAvgPool_lhs.
    rewrite Hwalk. cbn [getDefiningOp dyn_cast_ReduceWindowOp].
    rewrite Hview. cbn [ubind].
    apply GetViewIfAttrsSupported_Some in Hview as (-> & Hrank & _).
    rewrite Hrank. cbn [Z.eqb Pos.eqb negb].
    replace (Layout_eqb _ _) with true by (symmetry; now apply Layout_eqb_eq).
    cbn [negb]. now rewrite Hundef.
Qed.

(** A node with one result, one input and no init value. *)
Lemma GetInputAndInitIfValid_access_witness :
  GetInputAndInitIfValid (host := example_host) ex_rw_no_init = Undefined /\
  RelayoutReduceWindow_matchAndRewrite (host := example_host) ex_rw_no_init [] =
    Undefined.
Proof.
  destruct (GetInputAndInitIfValid_access (host := example_host))
    as (Hundef & _ & Hrelayout & _).
  split.
  - apply Hundef. cbn. repeat split; try lia. now left.
  - apply (Hrelayout ex_rw_no_init []
             (view_of (host := example_host) ex_rw_no_init)
             (TFLNativePoolingLayout 4));
      [reflexivity|reflexivity|cbn; lia|reflexivity].
Defined.

(** ** Padding classification *)

Section Classification.
Context {host : Host}.
Variables (v : ReduceWindowView) (in_shape out_shape : list Z).

Lemma classify_padding_step (i : Z) (dims : list Z) (acc : string) :
  dim_in_range v in_shape out_shape i ->
  classify_padding v in_shape out_shape (i :: dims) acc =
    if negb (padded_dim v i) then
      classify_padding v in_shape out_shape dims acc
    else if negb (same_padding_dim v in_shape out_shape i) then Defined None
    else classify_padding v in_shape out_shape dims "SAME".
Proof.
  intros (Hp & Hs & Hi & Ho). cbn [classify_padding].
  rewrite (elem_at_Defined _ _ {| Lo := 0; Hi := 0 |} Hp).
  rewrite (elem_at_Defined _ _ 0 Hs), (elem_at_Defined _ _ 0 Hi),
    (elem_at_Defined _ _ 0 Ho).
  cbn [ubind]. unfold padded_dim, same_padding_dim, padding_at.
  now rewrite negb_involutive.
Qed.

Lemma classify_padding_fails (dims : list Z) (acc : string) :
  Forall (dim_in_range v in_shape out_shape) dims ->
  (classify_padding v in_shape out_shape dims acc = Defined None <->
   exists i, In i dims /\ bad_padding_dim v in_shape out_shape i).
Proof.
  intros Hr. revert acc. induction Hr as [|i dims Hi Hr IH]; intros acc.
  - cbn. split; [discriminate|intros (? & [] & _)].
  - rewrite classify_padding_step by exact Hi. unfold bad_padding_dim in *.
    destruct (padded_dim v i) eqn:Hp; cbn [negb].
    + destruct (same_padding_dim v in_shape out_shape i) eqn:Hs; cbn [negb].
      * rewrite IH. split.
        -- intros (j & Hj & Hbad). exists j. split; [now right|exact Hbad].
        -- intros (j & [<-|Hj] & Hbad); [|now exists j].
           destruct Hbad as [_ Hbad]. congruence.
      * split; [intros _|reflexivity]. exists i. split; [now left|auto].
    + rewrite IH. split.
      * intros (j & Hj & Hbad). exists j. split; [now right|exact Hbad].
      * intros (j & [<-|Hj] & Hbad); [|now exists j].
        destruct Hbad as [Hbad _]. congruence.
Qed.

Lemma classify_padding_succeeds (dims : list Z) (acc : string) :
  Forall (dim_in_range v in_shape out_shape) dims ->
  (forall i, In i dims -> ~ bad_padding_dim v in_shape out_shape i) ->
  classify_padding v in_shape out_shape dims acc =
    Defined (Some (if existsb (padded_dim v) dims then "SAME" else acc)).
Proof.
  intros Hr. revert acc. induction Hr as [|i dims Hi Hr IH]; intros acc Hgood.
  - reflexivity.
  - rewrite classify_padding_step by exact Hi. cbn [existsb].
    assert (Hgood' : forall j,
               In j dims -> ~ bad_padding_dim v in_shape out_shape j)
      by (intros j Hj; apply Hgood; now right).
    destruct (padded_dim v i) eqn:Hp; cbn [negb orb].
    + destruct (same_padding_dim v in_shape out_shape i) eqn:Hs; cbn [negb].
      * rewrite IH by exact Hgood'. now destruct (existsb _ dims).
      * exfalso. apply (Hgood i); [now left|]. split; assumption.
    + now apply IH.
Qed.

Lemma spatial_indices_in_range :
  view_invariant v ->
  Z.of_nat (length in_shape) = Rank v ->
  Z.of_nat (length out_shape) = Rank v ->
  Forall (dim_in_range v in_shape out_shape) (spatial_indices (Rank v)).
Proof.
  intros (_ & Hs & _ & _ & Hp) Hi Ho. apply Forall_forall. intros i Hin.
  apply in_iota in Hin. unfold dim_in_range. lia.
Qed.

(** C5, as the code has it.  In the fusion pattern the padding is
    classified dimension by dimension over the spatial dimensions
    1 .. rank-2.  A dimension with trivial padding has no effect.  The match
    fails exactly when some spatial dimension has non-trivial padding that
    does not satisfy the same-padding relation
    [IsSamePaddingOnDim(dim_pad, out_dim, in_dim, dim_stride)] of that
    dimension's padding, output size, input size and stride.  Otherwise the
    mode is "SAME" exactly when at least one spatial dimension has
    non-trivial (same-)padding, and "VALID" exactly when all are trivial.
    The window dimensions are not read: two descriptors with the same rank,
    paddings and strides are classified alike. *)
Theorem padding_classification :
  view_invariant v ->
  Z.of_nat (length in_shape) = Rank v ->
  Z.of_nat (length out_shape) = Rank v ->
  let dims := spatial_indices (Rank v) in
  let mode := classify_padding v in_shape out_shape dims "VALID" in
  (mode = Defined None <->
   exists i, In i dims /\ padded_dim v i = true /\
             same_padding_dim v in_shape out_shape i = false) /\
  (mode = Defined (Some "SAME") <->
   (forall i, In i dims -> padded_dim v i = true ->
              same_padding_dim v in_shape out_shape i = true) /\
   exists i, In i dims /\ padded_dim v i = true) /\
  (mode = Defined (Some "VALID") <->
   forall i, In i dims -> padded_dim v i = false) /\
  (forall v' : ReduceWindowView,
     Rank v' = Rank v -> Paddings v' = Paddings v ->
     WindowStrides v' = WindowStrides v ->
     classify_padding v' in_shape out_shape dims "VALID" = mode).
Proof.
  intros Hinv Hi Ho dims mode.
  pose proof (spatial_indices_in_range Hinv Hi Ho) as Hr. fold dims in Hr.
  pose proof (classify_padding_fails dims "VALID" Hr) as Hfail.
  pose proof (classify_padding_succeeds dims "VALID" Hr) as Hok.
  fold mode in Hfail, Hok. unfold bad_padding_dim in *.
  assert (Hdec : (exists i, In i dims /\ padded_dim v i = true /\
                            same_padding_dim v in_shape out_shape i = false) \/
                 (forall i, In i dims -> padded_dim v i = true ->
                            same_padding_dim v in_shape out_shape i = true)).
  { clear. induction dims as [|i ds IH]; [right; intros ? []|].
    destruct IH as [(j & Hj & Hb)|IH]; [left; exists j; split; [now right|auto]|].
    destruct (padded_dim v i) eqn:Hp;
      [destruct (same_padding_dim v in_shape out_shape i) eqn:Hs|].
    - right. intros j [<-|Hj]; auto.
    - left. exists i. split; [now left|auto].
    - right. intros j [<-|Hj]; [congruence|auto]. }
  assert (Hgood : (forall i, In i dims -> padded_dim v i = true ->
                     same_padding_dim v in_shape out_shape i = true) ->
                  mode = Defined (Some (if existsb (padded_dim v) dims
                                        then "SAME" else "VALID"))).
  { intros Hall. apply Hok. intros i Hin [Hp Hs].
    rewrite (Hall i Hin Hp) in Hs. discriminate. }
  split; [exact Hfail|]. split; [|split].
  - split.
    + intros Hm. destruct Hdec as [Hbad|Hall].
      * apply Hfail in Hbad. congruence.
      * split; [exact Hall|]. rewrite (Hgood Hall) in Hm.
        destruct (existsb (padded_dim v) dims) eqn:He; [|discriminate].
        apply existsb_exists in He. exact He.
    + intros [Hall Hex]. rewrite (Hgood Hall).
      apply existsb_exists in Hex. now rewrite Hex.
  - split.
    + intros Hm i Hin. destruct Hdec as [Hbad|Hall].
      * apply Hfail in Hbad. congruence.
      * rewrite (Hgood Hall) in Hm.
        destruct (existsb (padded_dim v) dims) eqn:He; [discriminate|].
        destruct (padded_dim v i) eqn:Hp; [|reflexivity].
        assert (existsb (padded_dim v) dims = true)
          by (apply existsb_exists; eauto).
        congruence.
    + intros Hall.
      rewrite Hgood
        by (intros i Hin Hp; rewrite Hall in Hp; [discriminate|exact Hin]).
      destruct (existsb (padded_dim v) dims) eqn:He; [|reflexivity].
      apply existsb_exists in He as (i & Hin & Hp).
      rewrite Hall in Hp by exact Hin. discriminate.
  - intros v' Hrank Hp Hs. unfold mode, dims. clear -Hp Hs.
    generalize "VALID". induction (spatial_indices (Rank v)) as [|i ds IH];
      intros acc; [reflexivity|].
    cbn [classify_padding]. rewrite Hp, Hs.
    destruct (elem_at (Paddings v) i) as [p|]; [|reflexivity]. cbn [ubind].
    destruct (elem_at (WindowStrides v) i) as [s|]; [|reflexivity]. cbn [ubind].
    destruct (elem_at in_shape i) as [a|]; [|reflexivity]. cbn [ubind].
    destruct (elem_at out_shape i) as [b|]; [|reflexivity]. cbn [ubind].
    now rewrite !IH.
Qed.

End Classification.

(** The 3x3 window with padding (1, 1) over 8x8 at stride 1 is "SAME". *)
Lemma padding_classification_witness :
  classify_padding (host := example_host)
    (view_of (host := example_host) ex_rw_same) [1; 8; 8; 1] [1; 8; 8; 1]
    (spatial_indices 4) "VALID" = Defined (Some "SAME").
Proof.
  assert (Hinv : view_invariant (view_of (host := example_host) ex_rw_same))
    by (repeat split).
  pose proof (padding_classification (host := example_host)
                (view_of (host := example_host) ex_rw_same) [1; 8; 8; 1]
                [1; 8; 8; 1] Hinv eq_refl eq_refl) as (_ & Hsame & _).
  apply Hsame. split.
  - intros i Hin _. cbv in Hin. destruct Hin as [<-|[<-|[]]]; reflexivity.
  - exists 1. split; [cbv; auto|reflexivity].
Defined.

(** C5 as stated fails whatever [IsSamePaddingOnDim] is.  The descriptors
    [ex_view_w3] and [ex_view_w2] have the same paddings (0, 1) and strides
    2 on the spatial dimensions and are classified for the same input sizes 8
    and output sizes 4, so the check receives the same arguments for both
    and the loop gives both the same answer.  But (0, 1) satisfies the
    same-padding relation for the window size 3 and not for the window size
    2.  So either both are classified "SAME", the 2x2 window without any
    same-padding; or both fail the match, the 3x3 window with same-padding on
    every padded dimension. *)
Lemma padding_classification_counterexample :
  WindowDims ex_view_w3 = [1; 3; 3; 1] /\
  WindowDims ex_view_w2 = [1; 2; 2; 1] /\
  Paddings ex_view_w2 = Paddings ex_view_w3 /\
  WindowStrides ex_view_w2 = WindowStrides ex_view_w3 /\
  padding_at ex_view_w3 1 = {| Lo := 0; Hi := 1 |} /\
  padding_at ex_view_w3 2 = {| Lo := 0; Hi := 1 |} /\
  spec_same_padding_dim ex_view_w3 [1; 8; 8; 1] [1; 4; 4; 1] 1 = true /\
  spec_same_padding_dim ex_view_w3 [1; 8; 8; 1] [1; 4; 4; 1] 2 = true /\
  spec_same_padding_dim ex_view_w2 [1; 8; 8; 1] [1; 4; 4; 1] 1 = false /\
  spec_same_padding_dim ex_view_w2 [1; 8; 8; 1] [1; 4; 4; 1] 2 = false /\
  (forall host : Host,
     let classified := fun v : ReduceWindowView =>
       classify_padding (host := host) v [1; 8; 8; 1] [1; 4; 4; 1]
         (spatial_indices (Rank v)) "VALID" in
     classified ex_view_w3 = Defined (Some "SAME") /\
     classified ex_view_w2 = Defined (Some "SAME") \/
     classified ex_view_w3 = Defined None /\
     classified ex_view_w2 = Defined None).
Proof.
  do 10 (split; [reflexivity|]).
  intros host. cbv -[IsSamePaddingOnDim].
  destruct (IsSamePaddingOnDim {| Lo := 0; Hi := 1 |} 4 8 2);
    [left|right]; split; reflexivity.
Qed.

(** ** Layout permutations *)

Lemma position_nth_error (d : Z) (l : list Z) (k : nat) :
  position d l = Some k -> nth_error l k = Some d.
Proof.
  revert k. induction l as [|x l IH]; intros k; cbn; [discriminate|].
  destruct (Z.eqb_spec d x) as [->|Hne]; [now intros [= <-]|].
  destruct (position d l) as [j|]; cbn; [|discriminate].
  intros [= <-]. now apply IH.
Qed.

Lemma nth_error_position (d : Z) (l : list Z) (k : nat) :
  NoDup l -> nth_error l k = Some d -> position d l = Some k.
Proof.
  intros Hnd. revert k. induction Hnd as [|x l Hx Hnd IH]; intros k.
  - now destruct k.
  - destruct k as [|k]; cbn.
    + intros [= ->]. now rewrite Z.eqb_refl.
    + intros Hk. destruct (Z.eqb_spec d x) as [->|_].
      * exfalso. apply Hx. eapply nth_error_In, Hk.
      * now rewrite (IH _ Hk).
Qed.

Lemma position_In (d : Z) (l : list Z) :
  In d l -> exists k, position d l = Some k.
Proof.
  induction l as [|x l IH]; [intros []|]. cbn.
  destruct (Z.eqb_spec d x) as [->|Hne]; [eauto|].
  intros [->|Hin]; [congruence|].
  destruct (IH Hin) as [k ->]. cbn. eauto.
Qed.

Lemma role_of_dim_of (l : Layout) (d : Z) (r : Role) :
  role_of l d = Some r -> dim_of l r = Some d.
Proof.
  unfold role_of, dim_of.
  destruct (Z.eqb_spec d (SpecialDim1 l)) as [->|_]; [now intros [= <-]|].
  destruct (Z.eqb_spec d (SpecialDim2 l)) as [->|_]; [now intros [= <-]|].
  destruct (position d (Spatials l)) as [k|] eqn:E; cbn; [|discriminate].
  intros [= <-]. now apply position_nth_error.
Qed.

Lemma dim_of_role_of (l : Layout) (d : Z) (r : Role) :
  Layout_valid l -> dim_of l r = Some d -> role_of l d = Some r.
Proof.
  intros [Hnd _]. unfold Layout_dims in Hnd.
  apply NoDup_cons_iff in Hnd as [H1 Hnd].
  apply NoDup_cons_iff in Hnd as [H2 Hnd].
  unfold role_of. destruct r as [| |k]; cbn.
  - intros [= <-]. now rewrite Z.eqb_refl.
  - intros [= <-]. rewrite Z.eqb_refl.
    destruct (Z.eqb_spec (SpecialDim2 l) (SpecialDim1 l)) as [E|_];
      [|reflexivity].
    exfalso. apply H1. left. congruence.
  - intros Hk. pose proof (nth_error_In _ _ Hk) as Hin.
    destruct (Z.eqb_spec d (SpecialDim1 l)) as [->|_];
      [exfalso; apply H1; now right|].
    destruct (Z.eqb_spec d (SpecialDim2 l)) as [->|_];
      [exfalso; now apply H2|].
    now rewrite (nth_error_position _ _ _ Hnd Hk).
Qed.

Lemma Layout_dims_length (l : Layout) :
  Z.of_nat (length (Layout_dims l)) = Layout_Rank l.
Proof. unfold Layout_dims, Layout_Rank. cbn [length]. lia. Qed.

(** Every physical dimension below the rank carries a role. *)
Lemma role_of_total (l : Layout) (d : Z) :
  Layout_valid l -> 0 <= d < Layout_Rank l -> exists r, role_of l d = Some r.
Proof.
  intros [Hnd Hrange] Hd.
  assert (Hin : In d (Layout_dims l)).
  { apply (NoDup_length_incl Hnd (l' := iota 0 (Z.to_nat (Layout_Rank l)))).
    - rewrite iota_length. pose proof (Layout_dims_length l). lia.
    - intros x Hx. rewrite Forall_forall in Hrange.
      apply in_iota. specialize (Hrange x Hx). lia.
    - apply in_iota. lia. }
  unfold role_of.
  destruct (Z.eqb_spec d (SpecialDim1 l)); [eauto|].
  destruct (Z.eqb_spec d (SpecialDim2 l)); [eauto|].
  destruct Hin as [?|[?|Hin]]; try congruence.
  destruct (position_In _ _ Hin) as [k ->]. cbn. eauto.
Qed.

Lemma dim_of_range (l : Layout) (r : Role) (d : Z) :
  Layout_valid l -> dim_of l r = Some d -> 0 <= d < Layout_Rank l.
Proof.
  intros [_ Hrange] Hd. rewrite Forall_forall in Hrange. apply Hrange.
  unfold Layout_dims. destruct r as [| |k]; cbn in Hd.
  - left. congruence.
  - right. left. congruence.
  - right. right. eapply nth_error_In, Hd.
Qed.

(** A role carried in one layout is carried in every layout of that rank. *)
Lemma dim_of_total (a b : Layout) (r : Role) (d : Z) :
  Layout_Rank a = Layout_Rank b -> dim_of b r = Some d ->
  exists x, dim_of a r = Some x.
Proof.
  unfold Layout_Rank. intros Hrank. destruct r as [| |k]; cbn; eauto.
  intros Hk. destruct (nth_error (Spatials a) k) as [x|] eqn:E; [eauto|].
  apply nth_error_None in E.
  assert (k < length (Spatials b))%nat by (apply nth_error_Some; congruence).
  lia.
Qed.

Lemma GetPermForReLayout_length (a b : Layout) :
  Z.of_nat (length (GetPermForReLayout a b)) = Layout_Rank b.
Proof.
  unfold GetPermForReLayout. rewrite length_map, iota_length.
  unfold Layout_Rank. lia.
Qed.

(** The entry of [a.GetPermForReLayout(b)] at a dimension [d] of [b] is the
    dimension of [a] with the role [d] has in [b]. *)
Lemma GetPermForReLayout_entry (a b : Layout) (d : Z) :
  Layout_valid a -> Layout_valid b -> Layout_Rank a = Layout_Rank b ->
  0 <= d < Layout_Rank b ->
  exists r x,
    role_of b d = Some r /\ dim_of a r = Some x /\
    nth (Z.to_nat d) (GetPermForReLayout a b) 0 = x /\
    0 <= x < Layout_Rank a.
Proof.
  intros Ha Hb Hrank Hd.
  destruct (role_of_total b d Hb Hd) as [r Hr].
  destruct (dim_of_total a b r d Hrank (role_of_dim_of _ _ _ Hr)) as [x Hx].
  exists r, x. split; [exact Hr|]. split; [exact Hx|].
  split; [|eapply dim_of_range; eauto].
  unfold GetPermForReLayout.
  set (f := fun d => match role_of b d with
                     | Some r => match dim_of a r with Some x => x | None => 0 end
                     | None => 0
                     end).
  rewrite nth_indep with (d' := f 0)
    by (rewrite length_map, iota_length; lia).
  rewrite map_nth, nth_iota by lia.
  unfold f. replace (0 + Z.of_nat (Z.to_nat d)) with d by lia.
  now rewrite Hr, Hx.
Qed.

Lemma Permute_Defined (data perm : list Z) :
  (forall i, 0 <= i < Z.of_nat (length data) ->
     0 <= i < Z.of_nat (length perm) /\
     0 <= nth (Z.to_nat i) perm 0 < Z.of_nat (length data)) ->
  Permute data perm =
    Defined (map (fun i => nth (Z.to_nat (nth (Z.to_nat i) perm 0)) data 0)
                 (iota 0 (length data))).
Proof.
  intros H. unfold Permute. apply mapU_Defined. intros i Hi.
  apply in_iota in Hi. destruct (H i) as [Hp Hd]; [lia|].
  rewrite (elem_at_Defined _ _ 0 Hp). cbn [ubind].
  now rewrite (elem_at_Defined _ _ 0 Hd).
Qed.

Lemma map_iota_id (l : list Z) (f : Z -> Z) :
  (forall i, 0 <= i < Z.of_nat (length l) -> f i = nth (Z.to_nat i) l 0) ->
  map f (iota 0 (length l)) = l.
Proof.
  intros H. apply nth_ext with (d := f 0) (d' := 0).
  - now rewrite length_map, iota_length.
  - rewrite length_map, iota_length. intros k Hk.
    rewrite map_nth, nth_iota by exact Hk. rewrite H by lia.
    f_equal. lia.
Qed.

(** The permutation towards [b] followed by the one back is the identity. *)
Lemma GetPermForReLayout_inverse (a b : Layout) :
  Layout_valid a -> Layout_valid b -> Layout_Rank a = Layout_Rank b ->
  Permute (GetPermForReLayout a b) (GetPermForReLayout b a) =
    Defined (iota 0 (Z.to_nat (Layout_Rank a))).
Proof.
  intros Ha Hb Hrank.
  pose proof (GetPermForReLayout_length a b) as Lab.
  pose proof (GetPermForReLayout_length b a) as Lba.
  rewrite Permute_Defined.
  - f_equal. replace (length (GetPermForReLayout a b))
      with (Z.to_nat (Layout_Rank a)) by lia.
    unfold iota at 1. rewrite map_map. unfold iota. apply map_ext_in.
    intros k Hk. apply in_seq in Hk.
    destruct (GetPermForReLayout_entry b a (0 + Z.of_nat k) Hb Ha)
      as (r & x & Hr & Hx & Hnth & Hrange); [lia|lia|].
    rewrite Hnth.
    destruct (GetPermForReLayout_entry a b x Ha Hb Hrank)
      as (r' & y & Hr' & Hy & Hnth' & _); [lia|].
    rewrite Hnth'.
    rewrite (dim_of_role_of b x r Hb Hx) in Hr'. injection Hr' as <-.
    rewrite (role_of_dim_of a _ r Hr) in Hy. now injection Hy as <-.
  - intros i Hi.
    destruct (GetPermForReLayout_entry b a i Hb Ha)
      as (r & x & _ & _ & Hnth & Hrange); [lia|lia|].
    rewrite Hnth. lia.
Qed.

Lemma PermuteShape_Defined (a b : Layout) (shape : list Z) :
  Layout_valid a -> Layout_valid b -> Layout_Rank a = Layout_Rank b ->
  Z.of_nat (length shape) = Layout_Rank a ->
  PermuteShape a b shape =
    Defined (map (fun p => nth (Z.to_nat p) shape 0) (GetPermForReLayout a b)).
Proof.
  intros Ha Hb Hrank Hlen. unfold PermuteShape.
  pose proof (GetPermForReLayout_length a b) as Lab.
  rewrite Permute_Defined.
  - f_equal. set (perm := GetPermForReLayout a b) in *.
    transitivity
      (map (fun p => nth (Z.to_nat p) shape 0)
           (map (fun i => nth (Z.to_nat i) perm 0) (iota 0 (length perm)))).
    + rewrite map_map. f_equal. f_equal. lia.
    + f_equal. now apply map_iota_id.
  - intros i Hi.
    destruct (GetPermForReLayout_entry a b i Ha Hb Hrank)
      as (r & x & _ & _ & Hnth & Hrange); [lia|].
    rewrite Hnth. lia.
Qed.

(** Permuting a shape towards [b] moves the size of every role from its
    dimension in [a] to its dimension in [b]. *)
Lemma permutation_shape_roles (a b : Layout) (shape : list Z) :
  Layout_valid a -> Layout_valid b -> Layout_Rank a = Layout_Rank b ->
  Z.of_nat (length shape) = Layout_Rank a ->
  exists shape',
    PermuteShape a b shape = Defined shape' /\
    forall r, size_of_role b shape' r = size_of_role a shape r.
Proof.
  intros Ha Hb Hrank Hlen.
  eexists. split; [now apply PermuteShape_Defined|].
  pose proof (GetPermForReLayout_length a b) as Lab.
  intros r. unfold size_of_role.
  destruct (dim_of b r) as [d|] eqn:Hd.
  - destruct (dim_of_total a b r d Hrank Hd) as [x Hx]. rewrite Hx.
    pose proof (dim_of_range b r d Hb Hd) as Hdr.
    pose proof (dim_of_range a r x Ha Hx) as Hxr.
    destruct (Z.ltb_spec d 0); [lia|]. destruct (Z.ltb_spec x 0); [lia|].
    destruct (GetPermForReLayout_entry a b d Ha Hb Hrank Hdr)
      as (r' & y & Hr' & Hy & Hnth & _).
    rewrite (dim_of_role_of b d r Hb Hd) in Hr'. injection Hr' as <-.
    rewrite Hx in Hy. injection Hy as <-.
    rewrite nth_error_map.
    rewrite (nth_error_nth' _ 0) by lia. cbn [option_map].
    rewrite Hnth. symmetry. apply nth_error_nth'. lia.
  - destruct (dim_of a r) as [x|] eqn:Hx; [|reflexivity].
    symmetry in Hrank.
    destruct (dim_of_total b a r x Hrank Hx). congruence.
Qed.

(** C8.  For two layouts [a] and [b] of the same rank (each an assignment of
    the batch, channel and spatial roles to distinct dimensions below the
    rank), [a.GetPermForReLayout(b)] composed with [b.GetPermForReLayout(a)]
    is the identity permutation, in either order, and permuting a shape by
    [a.GetPermForReLayout(b)] gives a shape that has, at the dimension of
    every role in [b], the size the original has at the dimension of that
    role in [a]. *)
Theorem permutation_inverse_law (a b : Layout) (shape : list Z) :
  Layout_valid a -> Layout_valid b -> Layout_Rank a = Layout_Rank b ->
  Z.of_nat (length shape) = Layout_Rank a ->
  Permute (GetPermForReLayout a b) (GetPermForReLayout b a) =
    Defined (iota 0 (Z.to_nat (Layout_Rank a))) /\
  Permute (GetPermForReLayout b a) (GetPermForReLayout a b) =
    Defined (iota 0 (Z.to_nat (Layout_Rank a))) /\
  exists shape',
    PermuteShape a b shape = Defined shape' /\
    length shape' = length shape /\
    forall r, size_of_role b shape' r = size_of_role a shape r.
Proof.
  intros Ha Hb Hrank Hlen. split; [|split].
  - now apply GetPermForReLayout_inverse.
  - rewrite Hrank. now apply GetPermForReLayout_inverse.
  - destruct (permutation_shape_roles a b shape Ha Hb Hrank Hlen)
      as (shape' & Hs & Hroles).
    exists shape'. split; [exact Hs|]. split; [|exact Hroles].
    rewrite PermuteShape_Defined in Hs by assumption. injection Hs as <-.
    pose proof (GetPermForReLayout_length a b). rewrite length_map. lia.
Qed.

Lemma TFLNativePoolingLayout_4_valid : Layout_valid (TFLNativePoolingLayout 4).
Proof.
  split.
  - change (NoDup [0; 3; 1; 2]). repeat constructor; cbn; intuition lia.
  - change (Forall (fun d => 0 <= d < 4) [0; 3; 1; 2]). repeat constructor; lia.
Qed.

(** Channel-first to channel-last and back, on rank 4. *)
Lemma permutation_inverse_law_witness :
  Layout_valid ex_nchw_layout /\
  Permute (GetPermForReLayout ex_nchw_layout (TFLNativePoolingLayout 4))
    (GetPermForReLayout (TFLNativePoolingLayout 4) ex_nchw_layout) =
    Defined [0; 1; 2; 3] /\
  exists shape',
    PermuteShape ex_nchw_layout (TFLNativePoolingLayout 4) [1; 16; 9; 9] =
      Defined shape' /\
    size_of_role (TFLNativePoolingLayout 4) shape' Channel = Some 16.
Proof.
  assert (Ha : Layout_valid ex_nchw_layout).
  { split.
    - change (NoDup [0; 1; 2; 3]). repeat constructor; cbn; intuition lia.
    - change (Forall (fun d => 0 <= d < 4) [0; 1; 2; 3]).
      repeat constructor; lia. }
  destruct (permutation_inverse_law ex_nchw_layout (TFLNativePoolingLayout 4)
              [1; 16; 9; 9] Ha TFLNativePoolingLayout_4_valid eq_refl eq_refl)
    as (Hid & _ & shape' & Hshape & _ & Hroles).
  split; [exact Ha|]. split; [exact Hid|].
  exists shape'. split; [exact Hshape|]. now rewrite Hroles.
Defined.

(** ** The canonicalization pattern *)

Lemma GetPermForReLayout_range (a b : Layout) :
  Layout_valid a -> Layout_valid b -> Layout_Rank a = Layout_Rank b ->
  Forall (fun p => 0 <= p < Layout_Rank a) (GetPermForReLayout a b).
Proof.
  intros Ha Hb Hrank. apply Forall_forall. intros p Hp.
  apply (In_nth _ _ 0) in Hp as (k & Hk & <-).
  pose proof (GetPermForReLayout_length a b) as Lab.
  destruct (GetPermForReLayout_entry a b (Z.of_nat k) Ha Hb Hrank)
    as (_ & x & _ & _ & Hnth & Hx); [lia|].
  rewrite Nat2Z.id in Hnth. now rewrite Hnth.
Qed.

Lemma map_nth_iota {A : Type} (f : Z -> A) (perm : list Z) :
  map (fun i => f (nth (Z.to_nat i) perm 0)) (iota 0 (length perm)) =
    map f perm.
Proof.
  rewrite <- (map_iota_id perm (fun i => nth (Z.to_nat i) perm 0)) at 2
    by reflexivity.
  now rewrite map_map.
Qed.

Lemma Permute_reorder (data perm : list Z) :
  length perm = length data ->
  Forall (fun p => 0 <= p < Z.of_nat (length data)) perm ->
  Permute data perm = Defined (reorder perm data 0).
Proof.
  intros Hlen Hrange. rewrite Permute_Defined.
  - unfold reorder. rewrite <- Hlen.
    now rewrite (map_nth_iota (fun p => nth (Z.to_nat p) data 0)).
  - intros i Hi. split; [lia|]. rewrite Forall_forall in Hrange.
    apply Hrange, nth_In. lia.
Qed.

Lemma permute_paddings_reorder (paddings : list DimPadding) (perm : list Z) :
  length perm = length paddings ->
  Forall (fun p => 0 <= p < Z.of_nat (length paddings)) perm ->
  permute_paddings paddings perm =
    Defined (flat_paddings (reorder perm paddings {| Lo := 0; Hi := 0 |})).
Proof.
  intros Hlen Hrange. unfold permute_paddings.
  set (pair_of := fun p : Z =>
         let dim_pad := nth (Z.to_nat p) paddings {| Lo := 0; Hi := 0 |} in
         [Lo dim_pad; Hi dim_pad]).
  rewrite (mapU_Defined _ (fun i => pair_of (nth (Z.to_nat i) perm 0))).
  - cbn [ubind]. rewrite <- Hlen, (map_nth_iota pair_of).
    unfold flat_paddings, reorder. now rewrite map_map.
  - intros i Hi. apply in_iota in Hi.
    rewrite (elem_at_Defined _ _ 0) by lia. cbn [ubind].
    rewrite Forall_forall in Hrange.
    rewrite (elem_at_Defined _ _ {| Lo := 0; Hi := 0 |})
      by (apply Hrange, nth_In; lia).
    reflexivity.
Qed.

(** The support filter answers, defined, for a node in the canonical layout
    whose descriptor keeps its invariant. *)
Lemma GetViewIfAttrsSupported_canonical {host : Host} (op : ReduceWindowOp) :
  view_invariant (view_of op) ->
  GuessLayout (view_of op) =
    Some (TFLNativePoolingLayout (Rank (view_of op))) ->
  GetViewIfAttrsSupported op = Defined None \/
  GetViewIfAttrsSupported op =
    Defined (Some (view_of op, TFLNativePoolingLayout (Rank (view_of op)))).
Proof.
  intros (_ & _ & _ & _ & Hp) Hg.
  unfold GetViewIfAttrsSupported, IsRankSupported. unfold view_of in *.
  set (view := ReduceWindowView_ctor (getAttrs op)) in *.
  destruct (Z.eqb_spec (Rank view) 4) as [Hr|Hr]; cbn [negb]; [|now left].
  destruct (negb (AreDilationsSupported view)); [now left|].
  rewrite Hg. cbn [TFLNativePoolingLayout SpecialDim1 SpecialDim2].
  rewrite (elem_at_Defined _ _ {| Lo := 0; Hi := 0 |}) by lia. cbn [ubind].
  destruct (negb (Trivial _)); [now left|].
  rewrite (elem_at_Defined _ _ {| Lo := 0; Hi := 0 |}) by lia. cbn [ubind].
  destruct (negb (Trivial _)); [now left|now right].
Qed.

Lemma RelayoutReduceWindow_canonical {host : Host} (op : ReduceWindowOp)
  (rewriter : PatternRewriter) :
  has_operands op ->
  view_invariant (view_of op) ->
  GuessLayout (view_of op) =
    Some (TFLNativePoolingLayout (Rank (view_of op))) ->
  exists reason,
    RelayoutReduceWindow_matchAndRewrite op rewriter =
      Defined (failure reason, rewriter).
Proof.
  intros Hops Hinv Hg. unfold RelayoutReduceWindow_matchAndRewrite.
  destruct (GetViewIfAttrsSupported_canonical op Hinv Hg) as [-> | ->];
    cbn [ubind]; [unfold notifyMatchFailure; eauto|].
  destruct (GetInputAndInitIfValid_Defined op Hops) as [[[input init]|] ->];
    cbn [ubind]; [|unfold notifyMatchFailure; eauto].
  replace (Layout_eqb _ _) with true by (symmetry; now apply Layout_eqb_eq).
  unfold notifyMatchFailure; eauto.
Qed.

(** C6.  For a reduce-window node with at least one input and one init
    value, whose descriptor keeps its invariant and whose guessed layout is
    the canonical layout of its rank (batch 0, channel rank-1, spatial
    1 .. rank-2 in order), the canonicalization pattern reports a match
    failure and returns the rewriter unchanged; so any number of successive
    attempts leaves the rewriter as it was. *)
Theorem relayout_canonical_is_noop {host : Host} (op : ReduceWindowOp)
  (rewriter : PatternRewriter) :
  has_operands op ->
  view_invariant (view_of op) ->
  GuessLayout (view_of op) =
    Some {| SpecialDim1 := 0;
            SpecialDim2 := Rank (view_of op) - 1;
            Spatials := iota 1 (Z.to_nat (Rank (view_of op) - 2)) |} ->
  (exists reason,
     RelayoutReduceWindow_matchAndRewrite op rewriter =
       Defined (failure reason, rewriter)) /\
  (forall n, RelayoutReduceWindow_attempts n op rewriter = Defined rewriter).
Proof.
  intros Hops Hinv Hg.
  split; [now apply RelayoutReduceWindow_canonical|].
  induction n as [|n IH]; [reflexivity|]. cbn [RelayoutReduceWindow_attempts].
  destruct (RelayoutReduceWindow_canonical op rewriter Hops Hinv Hg)
    as [reason ->].
  exact IH.
Qed.

(** The channel-last window is left alone. *)
Lemma relayout_canonical_is_noop_witness :
  RelayoutReduceWindow_matchAndRewrite (host := example_host) ex_rw [] =
    Defined (failure "Reduce window does not need layout change", []) /\
  RelayoutReduceWindow_attempts (host := example_host) 3 ex_rw [] = Defined [].
Proof.
  assert (Hops : has_operands (host := example_host) ex_rw)
    by (split; discriminate).
  assert (Hinv : view_invariant (view_of (host := example_host) ex_rw))
    by (repeat split).
  destruct (relayout_canonical_is_noop (host := example_host) ex_rw []
              Hops Hinv eq_refl) as [_ Hn].
  split; [reflexivity|apply Hn].
Defined.

(** C7.  Let a reduce-window node pass the support filter with descriptor
    [v] and layout [l], a layout of the descriptor's rank other than the
    canonical one, and have one result, of the descriptor's rank, one input
    and one single-element init value.  With
    [perm_in = l.GetPermForReLayout(target)] and
    [perm_out = target.GetPermForReLayout(l)], the pattern succeeds and adds
    to the rewriter, in order: the transpose of the input by [perm_in]; a
    reduce-window over it whose window dimensions, strides and paddings are
    the original entries reordered by [perm_in] (each (lo, hi) pair as a
    unit), whose dilations, init value and body are those of the original,
    and whose result shape is the original one reordered by [perm_in]; the
    transpose of its result by [perm_out]; and the replacement of the
    original node by that transpose.  [perm_out] undoes [perm_in], and the
    new result shape has at every role's dimension in the target layout the
    size the original has at that role's dimension in [l]. *)
Theorem relayout_rewrites_by_permutation {host : Host} (op : ReduceWindowOp)
  (rewriter : PatternRewriter) (v : ReduceWindowView) (l : Layout)
  (input init : Value) (out_type : ShapedType) :
  GetViewIfAttrsSupported op = Defined (Some (v, l)) ->
  view_invariant v ->
  layout_fits l v ->
  GetInputAndInitIfValid op = Defined (Some (input, init)) ->
  getResultTypes op = [out_type] ->
  Z.of_nat (length (getShape out_type)) = Rank v ->
  l <> TFLNativePoolingLayout (Rank v) ->
  let target := TFLNativePoolingLayout (Rank v) in
  let perm_in := GetPermForReLayout l target in
  let perm_out := GetPermForReLayout target l in
  let new_rw := relayouted op v input init out_type perm_in in
  let new_type := ShapedType_clone out_type (reorder perm_in (getShape out_type) 0) in
  let new_result := OpResult new_type (mhlo_reduce_window new_rw) 0 in
  RelayoutReduceWindow_matchAndRewrite op rewriter =
    Defined (success,
             rewriter ++
             [Created (mhlo_transpose (transpose_by input perm_in));
              Created (mhlo_reduce_window new_rw);
              Created (mhlo_transpose (transpose_by new_result perm_out));
              Replaced (mhlo_reduce_window op)
                (transpose_result new_result perm_out)]) /\
  Permute perm_in perm_out = Defined (iota 0 (Z.to_nat (Rank v))) /\
  (forall r, size_of_role target (getShape new_type) r =
             size_of_role l (getShape out_type) r).
Proof.
  intros Hview (Hd & Hs & _ & _ & Hp) [Hl Hrank] Hin Hres Hshape Hne.
  intros target perm_in perm_out new_rw new_type new_result.
  pose proof Hview as Hsup.
  apply GetViewIfAttrsSupported_Some in Hsup as (_ & Hr4 & _).
  assert (Hv4 : Rank v = 4).
  { apply GetViewIfAttrsSupported_Some in Hview as (-> & _). exact Hr4. }
  assert (Ht : Layout_valid target)
    by (unfold target; rewrite Hv4; exact TFLNativePoolingLayout_4_valid).
  assert (Htrank : Layout_Rank l = Layout_Rank target)
    by (unfold target; rewrite Hrank, Hv4; reflexivity).
  pose proof (GetPermForReLayout_range l target Hl Ht Htrank) as Hrange.
  pose proof (GetPermForReLayout_length l target) as Hlen.
  fold perm_in in Hrange, Hlen. rewrite <- Htrank, Hrank in Hlen.
  rewrite Hrank in Hrange.
  assert (Hshape_eq :
            PermuteShape l target (getShape out_type) =
              Defined (reorder perm_in (getShape out_type) 0)).
  { apply PermuteShape_Defined; auto. lia. }
  split; [|split].
  - unfold RelayoutReduceWindow_matchAndRewrite.
    rewrite Hview. cbn [ubind]. rewrite Hin. cbn [ubind]. fold target.
    destruct (Layout_eqb l target) eqn:E;
      [apply Layout_eqb_eq in E; contradiction|].
    fold perm_in perm_out.
    rewrite permute_paddings_reorder; [|lia|now rewrite Hp].
    cbn [ubind].
    rewrite (Permute_reorder (WindowDims v)); [|lia|now rewrite Hd].
    cbn [ubind].
    rewrite (Permute_reorder (WindowStrides v)); [|lia|now rewrite Hs].
    cbn [ubind].
    unfold getResultType. rewrite Hres. cbn [elem_at Z.ltb Z.compare Z.to_nat
      nth_error ubind].
    rewrite Hshape_eq. cbn [ubind].
    unfold TransposeTensor, getResult, getResultType, create, replaceOp.
    cbn [getResultTypes elem_at Z.ltb Z.compare Z.to_nat nth_error ubind].
    rewrite <- !app_assoc. reflexivity.
  - rewrite <- Hrank. now apply GetPermForReLayout_inverse.
  - intros r. unfold new_type. cbn [ShapedType_clone getShape].
    destruct (permutation_shape_roles l target (getShape out_type) Hl Ht Htrank)
      as (shape' & Hs' & Hroles); [lia|].
    fold perm_in in Hs'. rewrite Hshape_eq in Hs'. injection Hs' as <-.
    apply Hroles.
Qed.

(** The channel-first window is rewritten by [0; 2; 3; 1] and transposed
    back by [0; 3; 1; 2]. *)
Lemma relayout_rewrites_by_permutation_witness :
  GetPermForReLayout ex_nchw_layout (TFLNativePoolingLayout 4) = [0; 2; 3; 1] /\
  GetPermForReLayout (TFLNativePoolingLayout 4) ex_nchw_layout = [0; 3; 1; 2] /\
  exists new_rw new_result,
    RelayoutReduceWindow_matchAndRewrite (host := example_host) ex_rw_nchw [] =
      Defined (success,
               [Created (mhlo_transpose
                           (transpose_by (host := example_host) ex_nchw_input
                              [0; 2; 3; 1]));
                Created (mhlo_reduce_window new_rw);
                Created (mhlo_transpose
                           (transpose_by (host := example_host) new_result
                              [0; 3; 1; 2]));
                Replaced (mhlo_reduce_window ex_rw_nchw)
                  (transpose_result (host := example_host) new_result
                     [0; 3; 1; 2])]) /\
    getAttrs new_rw =
      {| window_dimensions := BuildDenseI64 [1; 3; 3; 1];
         window_strides := Some (BuildDenseI64 [1; 2; 2; 1]);
         base_dilations := Some (BuildDenseI64 [1; 1; 1; 1]);
         window_dilations := Some (BuildDenseI64 [1; 1; 1; 1]);
         padding :=
           Some (BuildDenseI64_shaped [4; 2] [0; 0; 1; 2; 3; 4; 0; 0]) |} /\
    getResultTypes new_rw = [f32 [1; 5; 7; 16]].
Proof.
  assert (Hinv : view_invariant (view_of (host := example_host) ex_rw_nchw))
    by (repeat split).
  assert (Hfit : layout_fits ex_nchw_layout
                   (view_of (host := example_host) ex_rw_nchw)).
  { split; [split|reflexivity].
    - change (NoDup [0; 1; 2; 3]). repeat constructor; cbn; intuition lia.
    - change (Forall (fun d => 0 <= d < 4) [0; 1; 2; 3]).
      repeat constructor; lia. }
  assert (Hne : ex_nchw_layout <>
                TFLNativePoolingLayout
                  (Rank (view_of (host := example_host) ex_rw_nchw)))
    by discriminate.
  destruct (relayout_rewrites_by_permutation (host := example_host) ex_rw_nchw
              [] (view_of (host := example_host) ex_rw_nchw) ex_nchw_layout
              ex_nchw_input (splat_f32 [] 0) (f32 [1; 16; 5; 7])
              eq_refl Hinv Hfit eq_refl eq_refl eq_refl Hne) as (Hrun & _ & _).
  split; [reflexivity|]. split; [reflexivity|].
  eexists. eexists. split; [exact Hrun|]. split; reflexivity.
Defined.

(** ** The average-pool fusion pattern *)

Lemma ReplaceWithAvgPool_Defined {host : Host} (op : DivOp) (input : Value)
  (v : ReduceWindowView) (mode : string) (rewriter : PatternRewriter)
  (tpose : option TransposeOp) :
  view_invariant v -> Rank v = 4 ->
  ReplaceWithAvgPool op input v mode rewriter tpose =
    Defined (rewriter ++ fusion_actions_with tpose op input v mode).
Proof.
  intros (Hd & Hs & _) Hr. unfold ReplaceWithAvgPool.
  rewrite !(elem_at_Defined (WindowDims v) _ 0) by lia.
  rewrite !(elem_at_Defined (WindowStrides v) _ 0) by lia.
  cbn [ubind]. unfold fusion_actions_with, fused_pool, create, replaceOp.
  change (Z.to_nat 1) with 1%nat. change (Z.to_nat 2) with 2%nat.
  destruct tpose as [t|]; cbn [getType]; now rewrite <- !app_assoc.
Qed.

(** The validation of the left operand succeeds on a numerator of the
    described shape whose spatial paddings are trivial or same-paddings. *)
Lemma LegalizeAvgPool_lhs_matches {host : Host} (div_op : DivOp)
  (rw : ReduceWindowOp) (v : ReduceWindowView) (input init : Value)
  (out_type : ShapedType) :
  sum_window_numerator div_op rw v init out_type ->
  well_formed_window rw v input out_type ->
  (forall i, In i [1; 2] -> padded_dim v i = true ->
     same_padding_dim v (getShape (getType input)) (getShape out_type) i =
       true) ->
  Rank v = 4 /\
  LegalizeAvgPool_lhs div_op =
    Defined (inr {| opt_final_tpose :=
                      dyn_cast_TransposeOp (getDefiningOp (getLhs div_op));
                    rw_lhs := rw;
                    rw_lhs_view := v;
                    rw_lhs_input := input;
                    tfl_padding := padding_mode v |}).
Proof.
  intros ((ty & n & Hwalk) & Hview & Hres & _ & Hinit & Hone & Hadd & Hfloat
          & Hzero) (Hinput & Hinv & Hin & Hout) Hpad.
  assert (Hr : Rank v = 4).
  { pose proof Hview as H. apply GetViewIfAttrsSupported_Some in H as (-> & H).
    apply H. }
  split; [exact Hr|].
  unfold LegalizeAvgPool_lhs. rewrite Hwalk.
  cbn [getDefiningOp dyn_cast_ReduceWindowOp]. rewrite Hview. cbn [ubind].
  rewrite Hr. cbn [Z.eqb Pos.eqb negb].
  replace (Layout_eqb _ _) with true by (symmetry; now apply Layout_eqb_eq).
  cbn [negb].
  assert (Hii : GetInputAndInitIfValid rw = Defined (Some (input, init))).
  { apply GetInputAndInitIfValid_Some. unfold getNumResults.
    rewrite Hres. auto. }
  rewrite Hii. cbn [ubind]. rewrite Hadd. cbn [negb].
  unfold getResultType. rewrite Hres.
  cbn [elem_at Z.ltb Z.compare Z.to_nat nth_error ubind].
  rewrite Hfloat, Hzero. cbn [negb].
  pose proof (spatial_indices_in_range v _ _ Hinv Hin Hout) as Hrange.
  rewrite Hr in Hrange.
  rewrite (classify_padding_succeeds v _ _ _ "VALID" Hrange).
  - cbn [ubind]. unfold padding_mode.
    change (spatial_indices 4) with [1; 2]. cbn [existsb].
    now rewrite orb_false_r.
  - intros i Hi [Hp Hs]. rewrite (Hpad i Hi Hp) in Hs. discriminate.
Qed.

(** A value that walks up, reshapes skipped, to a reduce-window result does
    not walk up to a constant when reshapes stop the walk. *)
Lemma walk_up_reduce_window_not_constant {host : Host} :
  forall (x : Value) (rw : ReduceWindowOp),
    dyn_cast_ReduceWindowOp
      (getDefiningOp
         (RecursivelyWalkUp [K_BroadcastInDimOp; K_ReshapeOp; K_TransposeOp]
            x)) = Some rw ->
    m_Constant_FP
      (RecursivelyWalkUp [K_BroadcastInDimOp; K_TransposeOp] x) = None.
Proof.
  fix IH 1. intros [ty k|ty op k] rw.
  - discriminate.
  - destruct op as [a|[operand perm ty']|operand dims ty'|operand ty'|r|d| |];
      cbn; try discriminate; try reflexivity.
    + apply IH.
    + apply IH.
Qed.

(** C1, as the code has it.  For a division whose numerator is a
    canonical-layout sum-reduce-window as described (well-formed, with trivial
    padding on both spatial dimensions) and whose right operand is the
    constant-divisor shape, the pattern succeeds.  It creates one
    average-pool node over the reduce-window's input, with filter height and
    width the window dimensions 1 and 2 and stride height and width the
    window strides 1 and 2, each converted to 32 bits, and padding "VALID".
    The division is replaced by that node when its left operand is not
    directly a transpose; otherwise by a new transpose of that node with the
    permutation of the transpose on the left operand. *)
Theorem constant_divisor_fusion {host : Host} (div_op : DivOp)
  (rewriter : PatternRewriter) (rw : ReduceWindowOp) (v : ReduceWindowView)
  (input init : Value) (out_type : ShapedType)
  (divisor : DenseFPElementsAttr) :
  sum_window_numerator div_op rw v init out_type ->
  well_formed_window rw v input out_type ->
  padded_dim v 1 = false ->
  padded_dim v 2 = false ->
  constant_divisor div_op v divisor ->
  LegalizeAvgPool_matchAndRewrite div_op rewriter =
    Defined (success, rewriter ++ fusion_actions div_op input v "VALID").
Proof.
  intros Hnum Hwf Hp1 Hp2 (Hcst & Hsplat & Hexact).
  destruct (LegalizeAvgPool_lhs_matches div_op rw v input init out_type
              Hnum Hwf) as [Hr Hlhs].
  { intros i [<-|[<-|[]]] Hp; congruence. }
  unfold LegalizeAvgPool_matchAndRewrite. rewrite Hlhs. cbn [ubind].
  unfold LegalizeAvgPool_case1. rewrite Hcst.
  cbn [rw_lhs_view tfl_padding rw_lhs_input opt_final_tpose].
  rewrite Hsplat, Hexact. cbn [negb].
  unfold padding_mode. rewrite Hp1, Hp2. cbn [orb String.eqb Ascii.eqb
    Bool.eqb negb].
  rewrite ReplaceWithAvgPool_Defined by (try exact Hr; apply Hwf).
  reflexivity.
Qed.

(** The 3x3, stride-2 sum window divided by 9.0 fuses to an average pool
    with filter (3, 3), stride (2, 2) and padding "VALID". *)
Lemma constant_divisor_fusion_witness :
  LegalizeAvgPool_matchAndRewrite (host := example_host) ex_div_const [] =
    Defined (success,
             [Created (tfl_average_pool_2d (f32 [1; 4; 4; 1]) ex_input 3 3
                         "VALID" 2 2 "NONE");
              Replaced (mhlo_divide ex_div_const)
                (OpResult (f32 [1; 4; 4; 1])
                   (tfl_average_pool_2d (f32 [1; 4; 4; 1]) ex_input 3 3
                      "VALID" 2 2 "NONE") 0)]).
Proof.
  apply (constant_divisor_fusion (host := example_host) ex_div_const [] ex_rw
           (view_of (host := example_host) ex_rw) ex_input (splat_f32 [] 0)
           (f32 [1; 4; 4; 1]) (splat_attr [1; 4; 4; 1] 9)).
  - split; [do 2 eexists; reflexivity|].
    repeat split; try reflexivity; cbn; lia.
  - repeat split.
  - reflexivity.
  - reflexivity.
  - repeat split.
Defined.

(** C1 as stated fails on [ex_div_tposed]: the numerator has the described
    shape, well-formed and with trivial spatial padding, and the divisor is
    the splat constant of the window size, (2^32 + 3) * 3.  The pattern
    succeeds, but the filter height of the pool is 3 while window dimension 1
    is 2^32 + 3, and the division is replaced by a transpose of the pool, not
    by the pool. *)
Lemma constant_divisor_fusion_counterexample :
  sum_window_numerator (host := example_host) ex_div_tposed ex_rw_big
    (view_of (host := example_host) ex_rw_big) (splat_f64 [] 0)
    (f64 [1; 1; 4; 1]) /\
  well_formed_window (host := example_host) ex_rw_big
    (view_of (host := example_host) ex_rw_big) ex_big_input
    (f64 [1; 1; 4; 1]) /\
  padded_dim (view_of (host := example_host) ex_rw_big) 1 = false /\
  padded_dim (view_of (host := example_host) ex_rw_big) 2 = false /\
  constant_divisor (host := example_host) ex_div_tposed
    (view_of (host := example_host) ex_rw_big)
    (splat_attr_f64 [1; 1; 1; 4] ((2 ^ 32 + 3) * 3)) /\
  nth 1 (WindowDims (view_of (host := example_host) ex_rw_big)) 0 =
    2 ^ 32 + 3 /\
  exists pool new_tpose,
    pool =
      tfl_average_pool_2d (f64 [1; 1; 4; 1]) ex_big_input 3 3 "VALID" 2 2
        "NONE" /\
    new_tpose =
      mhlo_transpose
        (MkTransposeOp (OpResult (f64 [1; 1; 4; 1]) pool 0)
           (BuildDenseI64 [0; 3; 1; 2]) (f64 [1; 1; 1; 4])) /\
    LegalizeAvgPool_matchAndRewrite (host := example_host) ex_div_tposed [] =
      Defined (success,
               [Created pool; Created new_tpose;
                Replaced (mhlo_divide ex_div_tposed)
                  (OpResult (f64 [1; 1; 1; 4]) new_tpose 0)]).
Proof.
  split.
  { split; [do 2 eexists; reflexivity|].
    repeat split; try reflexivity; cbn; lia. }
  split; [repeat split|].
  split; [reflexivity|]. split; [reflexivity|].
  split; [repeat split|]. split; [reflexivity|].
  do 2 eexists. repeat split; reflexivity.
Qed.








(** A right operand that walks up to a constant is no reduce-window result,
    reshapes skipped or not. *)
Lemma walk_up_constant_not_reduce_window {host : Host} (x : Value)
  (a : DenseFPElementsAttr) :
  m_Constant_FP (RecursivelyWalkUp [K_BroadcastInDimOp; K_TransposeOp] x) =
    Some a ->
  dyn_cast_ReduceWindowOp
    (getDefiningOp
       (RecursivelyWalkUp [K_BroadcastInDimOp; K_ReshapeOp; K_TransposeOp] x)) =
    None.
Proof.
  intros Hc.
  destruct (dyn_cast_ReduceWindowOp _) as [rw|] eqn:E; [|reflexivity].
  apply walk_up_reduce_window_not_constant in E. congruence.
Qed.

(** The reasons of the constant-divisor checks are not the reason the
    ones-window case gives for a right operand that is no reduce-window. *)
Lemma constant_divisor_failure_own {host : Host}
  (divisor : DenseFPElementsAttr) (v : ReduceWindowView) :
  constant_divisor_failure divisor v <>
    "Rhs of div op is not a reduce window.".
Proof.
  unfold constant_divisor_failure.
  destruct (negb (isSplat divisor)); [discriminate|].
  destruct (negb (isExactlyValue _ _)); discriminate.
Qed.

(** A floating-point constant that fails a constant-divisor check ends the
    pattern with that check's failure. *)
Lemma LegalizeAvgPool_case1_rejects {host : Host} (div_op : DivOp)
  (rewriter : PatternRewriter) (m : LhsMatch)
  (divisor : DenseFPElementsAttr) :
  m_Constant_FP
    (RecursivelyWalkUp [K_BroadcastInDimOp; K_TransposeOp] (getRhs div_op)) =
    Some divisor ->
  isSplat divisor = false \/
  isExactlyValue (getSplatValue divisor) (WindowSize (rw_lhs_view m)) =
    false \/
  tfl_padding m <> "VALID" ->
  LegalizeAvgPool_case1 div_op m rewriter =
    Some (Defined (failure (constant_divisor_failure divisor (rw_lhs_view m)),
                   rewriter)) /\
  LegalizeAvgPool_case2 div_op m rewriter =
    Defined (failure "Rhs of div op is not a reduce window.", rewriter).
Proof.
  intros Hcst Hbad. split.
  - unfold LegalizeAvgPool_case1, constant_divisor_failure, notifyMatchFailure.
    rewrite Hcst. f_equal.
    destruct (isSplat divisor); cbn [negb]; [|reflexivity].
    destruct (isExactlyValue _ _); cbn [negb]; [|reflexivity].
    destruct (String.eqb_spec (tfl_padding m) "VALID") as [Hv|Hv];
      cbn [negb]; [|reflexivity].
    destruct Hbad as [?|[?|?]]; [discriminate|discriminate|contradiction].
  - unfold LegalizeAvgPool_case2.
    now rewrite (walk_up_constant_not_reduce_window _ _ Hcst).
Qed.

(** C3, as the code has it.  Once the left operand is validated, the right
    operand is walked up through broadcasts and transposes.  When that does
    not end at a floating-point constant, the ones-window case is attempted
    and its outcome is the outcome of the pattern.  When it ends at a
    floating-point constant, the ones-window case is not attempted: a
    constant that is not a splat, or not exactly the window size, or a
    padding mode other than "VALID" ends the pattern at once with the match
    failure of that check and the rewriter unchanged.  No match is lost by
    this: on such an operand the ones-window case reports "Rhs of div op is
    not a reduce window.", another failure; and whenever the ones-window
    case succeeds, so does the pattern, with the same rewriter. *)
Theorem divisor_cases_in_order {host : Host} (div_op : DivOp)
  (rewriter : PatternRewriter) (m : LhsMatch) :
  LegalizeAvgPool_lhs div_op = Defined (inr m) ->
  let div_rhs :=
    RecursivelyWalkUp [K_BroadcastInDimOp; K_TransposeOp] (getRhs div_op) in
  (m_Constant_FP div_rhs = None ->
   LegalizeAvgPool_matchAndRewrite div_op rewriter =
     LegalizeAvgPool_case2 div_op m rewriter) /\
  (forall divisor,
     m_Constant_FP div_rhs = Some divisor ->
     isSplat divisor = false \/
     isExactlyValue (getSplatValue divisor) (WindowSize (rw_lhs_view m)) =
       false \/
     tfl_padding m <> "VALID" ->
     LegalizeAvgPool_matchAndRewrite div_op rewriter =
       Defined (failure (constant_divisor_failure divisor (rw_lhs_view m)),
                rewriter) /\
     LegalizeAvgPool_case2 div_op m rewriter =
       Defined (failure "Rhs of div op is not a reduce window.", rewriter) /\
     constant_divisor_failure divisor (rw_lhs_view m) <>
       "Rhs of div op is not a reduce window.") /\
  (forall rewriter',
     LegalizeAvgPool_case2 div_op m rewriter = Defined (success, rewriter') ->
     LegalizeAvgPool_matchAndRewrite div_op rewriter =
       Defined (success, rewriter')).
Proof.
  intros Hlhs div_rhs. unfold LegalizeAvgPool_matchAndRewrite. rewrite Hlhs.
  cbn [ubind]. split; [|split].
  - intros Hcst. unfold LegalizeAvgPool_case1. fold div_rhs. now rewrite Hcst.
  - intros divisor Hcst Hbad.
    destruct (LegalizeAvgPool_case1_rejects div_op rewriter m divisor Hcst
                Hbad) as [-> Hc2].
    split; [reflexivity|]. split; [exact Hc2|].
    apply constant_divisor_failure_own.
  - intros rewriter' Hc2.
    destruct (LegalizeAvgPool_case1 div_op m rewriter) as [r|] eqn:Hc1;
      [|exact Hc2].
    exfalso. unfold LegalizeAvgPool_case1 in Hc1.
    destruct (m_Constant_FP _) as [divisor|] eqn:Hcst; [|discriminate].
    unfold LegalizeAvgPool_case2 in Hc2.
    rewrite (walk_up_constant_not_reduce_window _ _ Hcst) in Hc2.
    discriminate.
Qed.

(** On the ones-window division the right operand is no constant, and the
    outcome is that of the second case. *)
Lemma divisor_cases_in_order_witness :
  exists m,
    LegalizeAvgPool_lhs (host := example_host) ex_div_ones = Defined (inr m) /\
    LegalizeAvgPool_matchAndRewrite (host := example_host) ex_div_ones [] =
      LegalizeAvgPool_case2 (host := example_host) ex_div_ones m [].
Proof.
  eexists. split; [reflexivity|].
  eapply (divisor_cases_in_order (host := example_host) ex_div_ones []);
    reflexivity.
Defined.

(** C3 as stated fails on [ex_div_wrong_const]: the numerator is validated
    and the right operand, the splat constant 8.0, does not match the
    constant-divisor case, the window size being 9.  The ones-window case is
    not attempted: the pattern returns the failure of the constant-divisor
    check, not the outcome of the ones-window case on this operand. *)
Lemma divisor_cases_in_order_counterexample :
  exists m,
    LegalizeAvgPool_lhs (host := example_host) ex_div_wrong_const =
      Defined (inr m) /\
    WindowSize (rw_lhs_view m) = 9 /\
    m_Constant_FP (host := example_host)
      (RecursivelyWalkUp [K_BroadcastInDimOp; K_TransposeOp]
         (getRhs ex_div_wrong_const)) = Some (splat_attr [1; 4; 4; 1] 8) /\
    LegalizeAvgPool_case1 (host := example_host) ex_div_wrong_const m [] =
      Some (Defined
              (failure "Rhs splat const is not equal to window size.", [])) /\
    LegalizeAvgPool_matchAndRewrite (host := example_host) ex_div_wrong_const
      [] =
      Defined (failure "Rhs splat const is not equal to window size.", []) /\
    LegalizeAvgPool_case2 (host := example_host) ex_div_wrong_const m [] =
      Defined (failure "Rhs of div op is not a reduce window.", []) /\
    LegalizeAvgPool_matchAndRewrite (host := example_host) ex_div_wrong_const
      [] <>
      LegalizeAvgPool_case2 (host := example_host) ex_div_wrong_const m [].
Proof.
  eexists. split; [reflexivity|]. do 5 (split; [reflexivity|]).
  discriminate.
Qed.

(** * Further properties of the code *)

(** ** The walk-up traversal *)

(** X1.  [RecursivelyWalkUp<Tys...>] returns the first value on the chain of
    operands 0 whose producer is not of a kind in [Tys]: the value it returns
    has no producer of a kind in [Tys], a value whose producer is not of such
    a kind is returned as it is, and walking up again changes nothing. *)
Theorem walk_up_stops_at_first_other_producer {host : Host}
  (Tys : list OpKind) (x : Value) :
  (producer_kind (RecursivelyWalkUp Tys x) = None \/
   exists k, producer_kind (RecursivelyWalkUp Tys x) = Some k /\
             isa Tys k = false) /\
  (producer_kind x = None \/
   (exists k, producer_kind x = Some k /\ isa Tys k = false) <->
   RecursivelyWalkUp Tys x = x) /\
  RecursivelyWalkUp Tys (RecursivelyWalkUp Tys x) = RecursivelyWalkUp Tys x.
Proof.
  assert (Hstop : forall y,
            producer_kind (RecursivelyWalkUp Tys y) = None \/
            exists k, producer_kind (RecursivelyWalkUp Tys y) = Some k /\
                      isa Tys k = false).
  { fix IH 1. intros [ty n|ty op n]; [now left|].
    destruct op as [a|[operand perm ty']|operand dims ty'|operand ty'|r|d| |];
      cbn [RecursivelyWalkUp]; try (now left).
    - destruct (isa Tys K_TransposeOp) eqn:E; [apply IH|].
      right. exists K_TransposeOp. now split.
    - destruct (isa Tys K_BroadcastInDimOp) eqn:E; [apply IH|].
      right. exists K_BroadcastInDimOp. now split.
    - destruct (isa Tys K_ReshapeOp) eqn:E; [apply IH|].
      right. exists K_ReshapeOp. now split. }
  assert (Hfix : forall y,
            producer_kind y = None \/
            (exists k, producer_kind y = Some k /\ isa Tys k = false) ->
            RecursivelyWalkUp Tys y = y).
  { intros [ty n|ty op n] H; [reflexivity|].
    destruct op as [a|[operand perm ty']|operand dims ty'|operand ty'|r|d| |];
      cbn [RecursivelyWalkUp]; try reflexivity;
      (destruct H as [H|(k & H & Hk)]; [discriminate|]);
      injection H as <-; now rewrite Hk. }
  split; [apply Hstop|]. split.
  - split; [apply Hfix|]. intros E. rewrite <- E. apply Hstop.
  - apply Hfix, Hstop.
Qed.

Lemma walk_up_absorbs {host : Host} (Tys Tys' : list OpKind) :
  (forall k, isa Tys k = true -> isa Tys' k = true) ->
  forall x,
    RecursivelyWalkUp Tys' (RecursivelyWalkUp Tys x) = RecursivelyWalkUp Tys' x.
Proof.
  intros Hsub. fix IH 1. intros [ty n|ty op n]; [reflexivity|].
  destruct op as [a|[operand perm ty']|operand dims ty'|operand ty'|r|d| |];
    cbn [RecursivelyWalkUp]; try reflexivity.
  - destruct (isa Tys K_TransposeOp) eqn:E.
    + rewrite (Hsub _ E). apply IH.
    + reflexivity.
  - destruct (isa Tys K_BroadcastInDimOp) eqn:E.
    + rewrite (Hsub _ E). apply IH.
    + reflexivity.
  - destruct (isa Tys K_ReshapeOp) eqn:E.
    + rewrite (Hsub _ E). apply IH.
    + reflexivity.
Qed.

(** X2.  Walks compose: when every kind of [Tys] is a kind of [Tys'], walking
    up by [Tys'] from where the walk by [Tys] stopped ends where the walk by
    [Tys'] ends; and a wrapper of a kind in [Tys] around a value is not seen
    by the walk. *)
Theorem walk_up_composes {host : Host} (Tys Tys' : list OpKind) (x : Value)
  (k : OpKind) (attr : DenseIntElementsAttr) (ty : ShapedType) (n : nat) :
  (forall k', isa Tys k' = true -> isa Tys' k' = true) ->
  isa Tys k = true ->
  RecursivelyWalkUp Tys' (RecursivelyWalkUp Tys x) = RecursivelyWalkUp Tys' x /\
  RecursivelyWalkUp Tys (wrap k x attr ty n) = RecursivelyWalkUp Tys x.
Proof.
  intros Hsub Hk. split; [now apply walk_up_absorbs|].
  destruct k; cbn [wrap RecursivelyWalkUp]; now rewrite Hk.
Qed.

(** The divisor behind a broadcast and a transpose is reached by both walks
    of the fusion pattern. *)
Lemma walk_up_composes_witness :
  RecursivelyWalkUp (host := example_host)
    [K_BroadcastInDimOp; K_ReshapeOp; K_TransposeOp]
    (RecursivelyWalkUp (host := example_host)
       [K_BroadcastInDimOp; K_TransposeOp] ex_wrapped_const) =
    splat_f32 [] 9 /\
  RecursivelyWalkUp (host := example_host) [K_BroadcastInDimOp; K_TransposeOp]
    ex_wrapped_const =
  RecursivelyWalkUp (host := example_host) [K_BroadcastInDimOp; K_TransposeOp]
    (wrap (host := example_host) K_BroadcastInDimOp (splat_f32 [] 9)
       (BuildDenseI64 []) (f32 [1; 4; 4; 1]) 0).
Proof.
  assert (Hsub : forall k',
            isa [K_BroadcastInDimOp; K_TransposeOp] k' = true ->
            isa [K_BroadcastInDimOp; K_ReshapeOp; K_TransposeOp] k' = true)
    by (intros []; cbn; congruence).
  split.
  - destruct (walk_up_composes (host := example_host)
                [K_BroadcastInDimOp; K_TransposeOp]
                [K_BroadcastInDimOp; K_ReshapeOp; K_TransposeOp]
                ex_wrapped_const K_TransposeOp (BuildDenseI64 []) (f32 []) 0
                Hsub eq_refl) as [-> _].
    reflexivity.
  - apply (walk_up_composes (host := example_host)
             [K_BroadcastInDimOp; K_TransposeOp]
             [K_BroadcastInDimOp; K_ReshapeOp; K_TransposeOp]
             (wrap (host := example_host) K_BroadcastInDimOp (splat_f32 [] 9)
                (BuildDenseI64 []) (f32 [1; 4; 4; 1]) 0)
             K_TransposeOp (BuildDenseI64 [0; 1; 2; 3]) (f32 [1; 4; 4; 1]) 0
             Hsub eq_refl).
Defined.

(** ** [Permute] *)

Lemma elem_at_Defined_inv {A : Type} (l : list A) (i : Z) (a d : A) :
  elem_at l i = Defined a ->
  0 <= i < Z.of_nat (length l) /\ nth (Z.to_nat i) l d = a.
Proof.
  unfold elem_at. destruct (Z.ltb_spec i 0) as [?|Hi]; [discriminate|].
  destruct (nth_error l (Z.to_nat i)) as [b|] eqn:E; [|discriminate].
  intros [= ->]. split; [|now apply nth_error_nth].
  assert (Z.to_nat i < length l)%nat by (apply nth_error_Some; congruence).
  lia.
Qed.

Lemma mapU_In {A B : Type} (f : A -> Undef B) (l : list A) (bs : list B) :
  mapU f l = Defined bs -> forall a, In a l -> exists b, f a = Defined b.
Proof.
  revert bs. induction l as [|x l IH]; intros bs H a Ha; [destruct Ha|].
  cbn [mapU] in H. destruct (f x) as [b|] eqn:Ex; [|discriminate].
  cbn [ubind] in H. destruct (mapU f l) as [bs'|]; [|discriminate].
  destruct Ha as [<-|Ha]; [eauto|]. now apply (IH bs').
Qed.

Lemma mapU_ext_in {A B : Type} (f g : A -> Undef B) (l : list A) :
  (forall a, In a l -> f a = g a) -> mapU f l = mapU g l.
Proof.
  induction l as [|x l IH]; intros H; [reflexivity|].
  cbn [mapU]. rewrite (H x) by now left.
  now rewrite IH by (intros; apply H; now right).
Qed.

Lemma nth_map_iota {A : Type} (f : Z -> A) (n k : nat) (d : A) :
  (k < n)%nat -> nth k (map f (iota 0 n)) d = f (Z.of_nat k).
Proof.
  intros Hk. rewrite nth_indep with (d' := f 0)
    by now rewrite length_map, iota_length.
  now rewrite map_nth, nth_iota.
Qed.

(** What a defined [Permute] says of its arguments and its result. *)
Lemma Permute_inv (data perm res : list Z) :
  Permute data perm = Defined res ->
  (forall i, 0 <= i < Z.of_nat (length data) ->
     0 <= i < Z.of_nat (length perm) /\
     0 <= nth (Z.to_nat i) perm 0 < Z.of_nat (length data)) /\
  res = map (fun i => nth (Z.to_nat (nth (Z.to_nat i) perm 0)) data 0)
            (iota 0 (length data)).
Proof.
  intros H.
  assert (Hrange : forall i, 0 <= i < Z.of_nat (length data) ->
            0 <= i < Z.of_nat (length perm) /\
            0 <= nth (Z.to_nat i) perm 0 < Z.of_nat (length data)).
  { intros i Hi. unfold Permute in H.
    destruct (mapU_In _ _ _ H i) as [b Hb]; [apply in_iota; lia|].
    destruct (elem_at perm i) as [p|] eqn:Ep; [|discriminate].
    cbn [ubind] in Hb.
    apply (elem_at_Defined_inv _ _ _ 0) in Ep as [Hp <-].
    apply (elem_at_Defined_inv _ _ _ 0) in Hb as [Hd _]. auto. }
  split; [exact Hrange|].
  rewrite (Permute_Defined _ _ Hrange) in H. congruence.
Qed.

(** X3.  [Permute(data, perm)] is defined exactly when, for every position
    [i] of [data], [perm] has an entry [i] and that entry is a position of
    [data]; the result then has the length of [data] and holds at [i] the
    entry [perm[i]] of [data].  Entries of [perm] past the length of [data]
    are not read, and the permutation of no data is no data. *)
Theorem Permute_defined_iff (data perm : list Z) :
  ((exists res, Permute data perm = Defined res) <->
   forall i, 0 <= i < Z.of_nat (length data) ->
     0 <= i < Z.of_nat (length perm) /\
     0 <= nth (Z.to_nat i) perm 0 < Z.of_nat (length data)) /\
  (forall res, Permute data perm = Defined res ->
     length res = length data /\
     forall i, 0 <= i < Z.of_nat (length data) ->
       nth (Z.to_nat i) res 0 =
         nth (Z.to_nat (nth (Z.to_nat i) perm 0)) data 0) /\
  ((length data <= length perm)%nat ->
   forall extra, Permute data (perm ++ extra) = Permute data perm) /\
  Permute [] perm = Defined [].
Proof.
  split; [split|split; [|split]].
  - intros [res H]. now apply Permute_inv in H.
  - intros H. eexists. now apply Permute_Defined.
  - intros res H. apply Permute_inv in H as [_ ->].
    split; [now rewrite length_map, iota_length|].
    intros i Hi.
    rewrite (nth_map_iota
               (fun i => nth (Z.to_nat (nth (Z.to_nat i) perm 0)) data 0))
      by lia.
    now rewrite Z2Nat.id by lia.
  - intros Hlen extra. unfold Permute. apply mapU_ext_in.
    intros i Hi. apply in_iota in Hi. unfold elem_at at 1 3.
    now rewrite nth_error_app1 by lia.
  - reflexivity.
Qed.

(** An inverse pair of index lists: the entries of [perm] are positions. *)
Lemma Permute_inverse_range (perm inv : list Z) :
  length inv = length perm ->
  Permute perm inv = Defined (iota 0 (length perm)) ->
  Forall (fun p => 0 <= p < Z.of_nat (length perm)) perm.
Proof.
  intros Hlen H. apply Permute_inv in H as [Hrange Hid].
  assert (Hinv : forall i, 0 <= i < Z.of_nat (length perm) ->
            nth (Z.to_nat (nth (Z.to_nat i) inv 0)) perm 0 = i).
  { intros i Hi.
    assert (E : nth (Z.to_nat i) (iota 0 (length perm)) 0 = i)
      by (rewrite nth_iota by lia; lia).
    rewrite Hid in E at 1.
    rewrite (nth_map_iota
               (fun i => nth (Z.to_nat (nth (Z.to_nat i) inv 0)) perm 0))
      in E by lia.
    now rewrite Z2Nat.id in E by lia. }
  assert (Hnd : NoDup inv).
  { apply (NoDup_nth inv 0). intros i j Hi Hj E.
    assert (Ei : Z.of_nat i = Z.of_nat j).
    { rewrite <- (Hinv (Z.of_nat i)), <- (Hinv (Z.of_nat j)) by lia.
      now rewrite !Nat2Z.id, E. }
    lia. }
  assert (Hsurj : incl (iota 0 (length perm)) inv).
  { apply NoDup_length_incl; [exact Hnd|rewrite iota_length; lia|].
    intros p Hp. apply (In_nth _ _ 0) in Hp as (k & Hk & <-).
    apply in_iota. destruct (Hrange (Z.of_nat k)) as [_ Hr]; [lia|].
    rewrite Nat2Z.id in Hr. lia. }
  apply Forall_forall. intros p Hp.
  apply (In_nth _ _ 0) in Hp as (j & Hj & <-).
  assert (Hin : In (Z.of_nat j) inv) by (apply Hsurj, in_iota; lia).
  apply (In_nth _ _ 0) in Hin as (i & Hi & Ei).
  specialize (Hinv (Z.of_nat i)). rewrite Nat2Z.id, Ei, Nat2Z.id in Hinv.
  rewrite Hinv by lia. lia.
Qed.

Lemma nth_reorder {A : Type} (perm : list Z) (xs : list A) (d : A) (k : nat) :
  (k < length perm)%nat ->
  nth k (reorder perm xs d) d = nth (Z.to_nat (nth k perm 0)) xs d.
Proof.
  intros Hk. unfold reorder.
  set (g := fun p => nth (Z.to_nat p) xs d).
  rewrite nth_indep with (d' := g 0) by now rewrite length_map.
  now rewrite map_nth.
Qed.

(** X4.  Permuting back: when [inv] undoes [perm], that is
    [Permute(perm, inv)] is the identity [0, 1, ..., n-1], permuting any data
    of length [n] by [perm] and the result by [inv] gives the data back. *)
Theorem Permute_round_trip (data perm inv : list Z) :
  length perm = length data ->
  length inv = length data ->
  Permute perm inv = Defined (iota 0 (length data)) ->
  exists res,
    Permute data perm = Defined res /\ Permute res inv = Defined data.
Proof.
  intros Hp Hi H. rewrite <- Hp in H.
  pose proof (Permute_inverse_range perm inv ltac:(congruence) H) as Hrange.
  rewrite Hp in Hrange.
  exists (reorder perm data 0). split; [now apply Permute_reorder|].
  apply Permute_inv in H as [Hinv Hid].
  assert (Hlen : length (reorder perm data 0) = length data)
    by (unfold reorder; now rewrite length_map).
  rewrite Permute_Defined.
  - f_equal. rewrite Hlen. apply map_iota_id. intros i Hr.
    destruct (Hinv i) as [_ Hq]; [lia|].
    rewrite nth_reorder by lia. f_equal. f_equal.
    assert (E : nth (Z.to_nat i) (iota 0 (length perm)) 0 = i)
      by (rewrite nth_iota by lia; lia).
    rewrite Hid in E at 1.
    rewrite (nth_map_iota
               (fun i => nth (Z.to_nat (nth (Z.to_nat i) inv 0)) perm 0))
      in E by lia.
    now rewrite Z2Nat.id in E by lia.
  - intros i Hr. rewrite Hlen in *. destruct (Hinv i) as [? ?]; lia.
Qed.

(** A channel-first shape taken to channel-last and back. *)
Lemma Permute_round_trip_witness :
  Permute [1; 16; 9; 9] [0; 2; 3; 1] = Defined [1; 9; 9; 16] /\
  Permute [1; 9; 9; 16] [0; 3; 1; 2] = Defined [1; 16; 9; 9].
Proof.
  destruct (Permute_round_trip [1; 16; 9; 9] [0; 2; 3; 1] [0; 3; 1; 2]
              eq_refl eq_refl eq_refl) as (res & H1 & H2).
  assert (E : res = [1; 9; 9; 16]).
  { change (Permute [1; 16; 9; 9] [0; 2; 3; 1]) with
      (Defined (A := list Z) [1; 9; 9; 16]) in H1.
    now injection H1. }
  subst res. split; [reflexivity|exact H2].
Defined.

(** ** Outcomes of the patterns *)

(** One step through the head of a pattern's body kept in hypothesis [H]. *)
Ltac peel H :=
  match type of H with
  | ubind ?m _ = _ =>
      let E := fresh "E" in
      destruct m eqn:E; cbn [ubind] in H; [|discriminate H]
  | (if ?b then _ else _) = _ =>
      let E := fresh "E" in destruct b eqn:E
  | (let '(_, _) := ?p in _) = _ =>
      let E := fresh "E" in destruct p eqn:E
  | match ?x with _ => _ end = _ =>
      let E := fresh "E" in destruct x eqn:E
  | notifyMatchFailure _ _ = _ => unfold notifyMatchFailure in H
  end.

Lemma getResultType_single {host : Host} (op : ReduceWindowOp)
  (ty : ShapedType) :
  getNumResults op = 1 -> getResultType op 0 = Defined ty ->
  getResultTypes op = [ty].
Proof.
  unfold getNumResults, getResultType.
  destruct (getResultTypes op) as [|t [|t' tys]]; cbn; try lia.
  now intros _ [= ->].
Qed.

(** X5.  When the canonicalization pattern succeeds, the node passed the
    support filter with a layout other than the canonical one of its rank and
    had one result, one input and one single-element init value.  The pattern
    then added to the rewriter exactly: a transpose of the input by
    [perm_in = layout.GetPermForReLayout(target)], one reduce-window over it
    with the same init value, body and result element type whose window
    dimensions, strides and result shape are [Permute] of the original ones
    by [perm_in], a transpose of its result by
    [target.GetPermForReLayout(layout)], and the replacement of the node by
    that transpose. *)
Theorem relayout_success_shape {host : Host} (op : ReduceWindowOp)
  (rewriter rewriter' : PatternRewriter) :
  RelayoutReduceWindow_matchAndRewrite op rewriter =
    Defined (success, rewriter') ->
  exists v l input init out_type new_rw new_type,
    GetViewIfAttrsSupported op = Defined (Some (v, l)) /\
    l <> TFLNativePoolingLayout (Rank v) /\
    getResultTypes op = [out_type] /\
    getInputs op = [input] /\
    getInitValues op = [init] /\
    getNumElements (getType init) = 1 /\
    let perm_in := GetPermForReLayout l (TFLNativePoolingLayout (Rank v)) in
    let perm_out := GetPermForReLayout (TFLNativePoolingLayout (Rank v)) l in
    let new_result := OpResult new_type (mhlo_reduce_window new_rw) 0 in
    rewriter' =
      rewriter ++
      [Created (mhlo_transpose (transpose_by input perm_in));
       Created (mhlo_reduce_window new_rw);
       Created (mhlo_transpose (transpose_by new_result perm_out));
       Replaced (mhlo_reduce_window op)
         (transpose_result new_result perm_out)] /\
    getInputs new_rw = [transpose_result input perm_in] /\
    getInitValues new_rw = [init] /\
    getBody new_rw = getBody op /\
    getResultTypes new_rw = [new_type] /\
    getElementType new_type = getElementType out_type /\
    Permute (WindowDims v) perm_in =
      Defined (int_values (getWindowDimensions new_rw)) /\
    (exists strides,
       getWindowStrides new_rw = Some strides /\
       Permute (WindowStrides v) perm_in = Defined (int_values strides)) /\
    Permute (getShape out_type) perm_in = Defined (getShape new_type).
Proof.
  unfold RelayoutReduceWindow_matchAndRewrite. intros H.
  peel H. destruct a as [[v l]|]; [|discriminate H].
  peel H. destruct a as [[input init]|]; [|discriminate H].
  peel H; [discriminate H|].
  peel H. peel H. peel H. peel H. peel H.
  unfold TransposeTensor, getResult, getResultType, create, replaceOp in H.
  cbn [getResultTypes elem_at Z.ltb Z.compare Z.to_nat nth_error ubind] in H.
  injection H as <-.
  apply GetInputAndInitIfValid_Some in E0 as (Hres & Hin & Hinit & Hone).
  exists v, l, input, init, a2.
  eexists. eexists.
  split; [reflexivity|].
  split; [intros ->; now rewrite (proj2 (Layout_eqb_eq _ _) eq_refl) in E1|].
  split; [now apply getResultType_single|].
  split; [exact Hin|]. split; [exact Hinit|]. split; [exact Hone|].
  cbv zeta. split; [rewrite <- !app_assoc; reflexivity|].
  cbn [getInputs getInitValues getBody getResultTypes getWindowDimensions
         getWindowStrides getAttrs window_dimensions window_strides
         ShapedType_clone getElementType getShape BuildDenseI64
         BuildDenseI64_shaped int_values].
  repeat (split; [reflexivity|]).
  split; [exact E3|]. split; [eexists; split; [reflexivity|exact E4]|].
  exact E6.
Qed.

(** The rewrite of the channel-first window. *)
Lemma relayout_success_shape_witness :
  exists new_rw,
    getInitValues new_rw = [splat_f32 [] 0] /\
    getBody (host := example_host) new_rw = AddBody /\
    Defined [1; 3; 3; 1] = Defined (int_values (getWindowDimensions new_rw)).
Proof.
  destruct (relayout_success_shape (host := example_host) ex_rw_nchw [] _
              eq_refl)
    as (v & l & input & init & out_type & new_rw & new_type & Hview & _ & _
        & _ & Hinit & _ & _ & _ & Hinit' & Hbody & _ & _ & Hdims & _).
  exists new_rw.
  assert (Ev : Defined (Some (view_of (host := example_host) ex_rw_nchw,
                              ex_nchw_layout)) = Defined (Some (v, l)))
    by exact Hview.
  assert (Ei : [splat_f32 [] 0] = [init]) by exact Hinit.
  injection Ev as <- <-. injection Ei as <-.
  split; [exact Hinit'|]. split; [exact Hbody|]. exact Hdims.
Defined.

Lemma RelayoutReduceWindow_fails_unchanged {host : Host} (op : ReduceWindowOp)
  (rewriter rewriter' : PatternRewriter) (reason : string) :
  RelayoutReduceWindow_matchAndRewrite op rewriter =
    Defined (failure reason, rewriter') ->
  rewriter' = rewriter.
Proof.
  unfold RelayoutReduceWindow_matchAndRewrite, notifyMatchFailure. intros H.
  peel H. destruct a as [[v l]|]; [|now injection H].
  peel H. destruct a as [[input init]|]; [|now injection H].
  peel H; [now injection H|].
  peel H. peel H. peel H. peel H. peel H.
  unfold TransposeTensor, getResult, getResultType in H.
  cbn [getResultTypes elem_at Z.ltb Z.compare Z.to_nat nth_error ubind] in H.
  discriminate H.
Qed.

Lemma LegalizeAvgPool_fails_unchanged {host : Host} (div_op : DivOp)
  (rewriter rewriter' : PatternRewriter) (reason : string) :
  LegalizeAvgPool_matchAndRewrite div_op rewriter =
    Defined (failure reason, rewriter') ->
  rewriter' = rewriter.
Proof.
  unfold LegalizeAvgPool_matchAndRewrite, notifyMatchFailure. intros H.
  peel H. destruct a as [r|m]; [now injection H|].
  destruct (LegalizeAvgPool_case1 div_op m rewriter) as [res|] eqn:E1.
  - unfold LegalizeAvgPool_case1, notifyMatchFailure in E1.
    destruct (m_Constant_FP _); [|discriminate E1].
    injection E1 as <-.
    repeat (peel H; [now injection H|]).
    peel H. discriminate H.
  - unfold LegalizeAvgPool_case2, notifyMatchFailure in H.
    peel H; [|now injection H].
    peel H. destruct a as [[v l]|]; [|now injection H].
    repeat (peel H; [now injection H|]).
    peel H. destruct a as [[input init]|]; [|now injection H].
    repeat (peel H; [now injection H|]).
    peel H. discriminate H.
Qed.

(** X6.  A pattern that reports a match failure has not touched the graph:
    whenever the canonicalization pattern, the fusion pattern or the max-pool
    stub returns a failure, the rewriter it returns is the one it was given. *)
Theorem patterns_fail_without_effect {host : Host}
  (rewriter rewriter' : PatternRewriter) (reason : string) :
  (forall op : ReduceWindowOp,
     RelayoutReduceWindow_matchAndRewrite op rewriter =
       Defined (failure reason, rewriter') -> rewriter' = rewriter) /\
  (forall div_op : DivOp,
     LegalizeAvgPool_matchAndRewrite div_op rewriter =
       Defined (failure reason, rewriter') -> rewriter' = rewriter) /\
  (forall op : ReduceWindowOp,
     LegalizeReduceWindowMax_matchAndRewrite op rewriter =
       Defined (failure reason, rewriter') -> rewriter' = rewriter).
Proof.
  split; [|split].
  - intros op. apply RelayoutReduceWindow_fails_unchanged.
  - intros div_op. apply LegalizeAvgPool_fails_unchanged.
  - intros op [= _ <-]. reflexivity.
Qed.

(** The rank-3 window is rejected by the canonicalization pattern, whatever
    the rewriter holds. *)
Lemma patterns_fail_without_effect_witness :
  RelayoutReduceWindow_matchAndRewrite (host := example_host) ex_rw_rank3
    [Created (mhlo_reduce_window ex_rw)] =
    Defined (failure "Reduce window attributes not supported.",
             [Created (mhlo_reduce_window ex_rw)]).
Proof.
  destruct (patterns_fail_without_effect (host := example_host)
              [Created (mhlo_reduce_window ex_rw)]
              [Created (mhlo_reduce_window ex_rw)]
              "Reduce window attributes not supported.") as [H _].
  specialize (H ex_rw_rank3 eq_refl). reflexivity.
Defined.

Lemma getResultTypes_single {host : Host} (op : ReduceWindowOp) :
  getNumResults op = 1 -> exists ty, getResultTypes op = [ty].
Proof.
  unfold getNumResults.
  destruct (getResultTypes op) as [|t [|t' tys]]; cbn; try lia. eauto.
Qed.

(** The rewrite goes through on a supported node in a non-canonical layout
    of its rank. *)
Lemma RelayoutReduceWindow_succeeds {host : Host} (op : ReduceWindowOp)
  (rewriter : PatternRewriter) (v : ReduceWindowView) (l : Layout)
  (input init : Value) (out_type : ShapedType) :
  GetViewIfAttrsSupported op = Defined (Some (v, l)) ->
  view_invariant v -> layout_fits l v ->
  GetInputAndInitIfValid op = Defined (Some (input, init)) ->
  getResultTypes op = [out_type] ->
  Z.of_nat (length (getShape out_type)) = Rank v ->
  l <> TFLNativePoolingLayout (Rank v) ->
  exists rewriter',
    RelayoutReduceWindow_matchAndRewrite op rewriter =
      Defined (success, rewriter').
Proof.
  intros Hview (Hd & Hs & _ & _ & Hp) [Hl Hrank] Hin Hres Hshape Hne.
  assert (Hv4 : Rank v = 4).
  { pose proof Hview as H. apply GetViewIfAttrsSupported_Some in H as (-> & H).
    apply H. }
  set (target := TFLNativePoolingLayout (Rank v)) in *.
  assert (Ht : Layout_valid target)
    by (unfold target; rewrite Hv4; exact TFLNativePoolingLayout_4_valid).
  assert (Htrank : Layout_Rank l = Layout_Rank target)
    by (unfold target; rewrite Hrank, Hv4; reflexivity).
  pose proof (GetPermForReLayout_range l target Hl Ht Htrank) as Hrange.
  pose proof (GetPermForReLayout_length l target) as Hlen.
  rewrite <- Htrank, Hrank in Hlen. rewrite Hrank in Hrange.
  unfold RelayoutReduceWindow_matchAndRewrite.
  rewrite Hview. cbn [ubind]. rewrite Hin. cbn [ubind]. fold target.
  destruct (Layout_eqb l target) eqn:E;
    [apply Layout_eqb_eq in E; contradiction|].
  rewrite permute_paddings_reorder; [|lia|now rewrite Hp]. cbn [ubind].
  rewrite (Permute_reorder (WindowDims v)); [|lia|now rewrite Hd].
  cbn [ubind].
  rewrite (Permute_reorder (WindowStrides v)); [|lia|now rewrite Hs].
  cbn [ubind].
  unfold getResultType. rewrite Hres.
  cbn [elem_at Z.ltb Z.compare Z.to_nat nth_error ubind].
  rewrite (PermuteShape_Defined l target) by (auto; lia). cbn [ubind].
  unfold TransposeTensor, getResult, getResultType.
  cbn [getResultTypes elem_at Z.ltb Z.compare Z.to_nat nth_error ubind].
  eauto.
Qed.

(** X7.  On a well-formed node the canonicalization pattern makes no
    undefined access: it always returns.  It succeeds exactly when the node
    passes the support filter with a layout other than the canonical one of
    its rank and [GetInputAndInitIfValid] accepts it. *)
Theorem relayout_defined_on_well_formed {host : Host} (op : ReduceWindowOp)
  (rewriter : PatternRewriter) :
  well_formed_node op ->
  (exists r, RelayoutReduceWindow_matchAndRewrite op rewriter = Defined r) /\
  ((exists rewriter',
      RelayoutReduceWindow_matchAndRewrite op rewriter =
        Defined (success, rewriter')) <->
   exists v l input init,
     GetViewIfAttrsSupported op = Defined (Some (v, l)) /\
     l <> TFLNativePoolingLayout (Rank v) /\
     GetInputAndInitIfValid op = Defined (Some (input, init))).
Proof.
  intros (Hops & Hinv & Hfit & _ & Hres).
  assert (Hrun : forall v l input init,
            GetViewIfAttrsSupported op = Defined (Some (v, l)) ->
            l <> TFLNativePoolingLayout (Rank v) ->
            GetInputAndInitIfValid op = Defined (Some (input, init)) ->
            exists rewriter',
              RelayoutReduceWindow_matchAndRewrite op rewriter =
                Defined (success, rewriter')).
  { intros v l input init Hview Hne Hin.
    pose proof Hview as Hsup.
    apply GetViewIfAttrsSupported_Some in Hsup as (-> & _ & _ & _ & Hg & _).
    unfold guess_fits in Hfit. rewrite Hg in Hfit.
    pose proof Hin as Hin'.
    apply GetInputAndInitIfValid_Some in Hin' as (Hn & _).
    destruct (getResultTypes_single op Hn) as [out_type Hout].
    rewrite Hout in Hres. apply Forall_cons_iff in Hres as [Hshape _].
    now apply (RelayoutReduceWindow_succeeds op rewriter (view_of op) l input
                 init out_type). }
  split.
  - destruct (GetViewIfAttrsSupported_Defined op Hinv Hfit) as [[[v l]|] Hview].
    + destruct (GetInputAndInitIfValid_Defined op Hops)
        as [[[input init]|] Hin].
      * destruct (Layout_eqb l (TFLNativePoolingLayout (Rank v))) eqn:E.
        -- unfold RelayoutReduceWindow_matchAndRewrite, notifyMatchFailure.
           rewrite Hview. cbn [ubind]. rewrite Hin. cbn [ubind].
           rewrite E. eauto.
        -- destruct (Hrun v l input init Hview) as [rewriter' ->]; eauto.
           intros ->. now rewrite (proj2 (Layout_eqb_eq _ _) eq_refl) in E.
      * unfold RelayoutReduceWindow_matchAndRewrite, notifyMatchFailure.
        rewrite Hview. cbn [ubind]. rewrite Hin. cbn [ubind]. eauto.
    + unfold RelayoutReduceWindow_matchAndRewrite, notifyMatchFailure.
      rewrite Hview. cbn [ubind]. eauto.
  - split.
    + intros [rewriter' H].
      unfold RelayoutReduceWindow_matchAndRewrite, notifyMatchFailure in H.
      peel H. destruct a as [[v l]|]; [|discriminate H].
      peel H. destruct a as [[input init]|]; [|discriminate H].
      peel H; [discriminate H|].
      exists v, l, input, init. split; [reflexivity|].
      split; [|reflexivity].
      intros ->. now rewrite (proj2 (Layout_eqb_eq _ _) eq_refl) in E1.
    + intros (v & l & input & init & Hview & Hne & Hin). eauto.
Qed.

(** The channel-first window is well-formed and rewritten; the channel-last
    one is well-formed and left alone. *)
Lemma relayout_defined_on_well_formed_witness :
  well_formed_node (host := example_host) ex_rw_nchw /\
  exists rewriter',
    RelayoutReduceWindow_matchAndRewrite (host := example_host) ex_rw_nchw [] =
      Defined (success, rewriter').
Proof.
  assert (Hwf : well_formed_node (host := example_host) ex_rw_nchw).
  { split; [split; discriminate|]. split; [repeat split|].
    split; [|split; repeat constructor].
    split; [split|reflexivity].
    - change (NoDup [0; 1; 2; 3]). repeat constructor; cbn; intuition lia.
    - change (Forall (fun d => 0 <= d < 4) [0; 1; 2; 3]).
      repeat constructor; lia. }
  split; [exact Hwf|].
  apply (relayout_defined_on_well_formed (host := example_host) ex_rw_nchw []
           Hwf).
  exists (view_of (host := example_host) ex_rw_nchw), ex_nchw_layout,
    ex_nchw_input, (splat_f32 [] 0).
  split; [reflexivity|]. split; [discriminate|reflexivity].
Defined.

(** ** Outcomes of the fusion pattern *)

Lemma classify_padding_modes {host : Host} (v : ReduceWindowView)
  (in_shape out_shape dims : list Z) (acc mode : string) :
  classify_padding v in_shape out_shape dims acc = Defined (Some mode) ->
  mode = acc \/ mode = "SAME".
Proof.
  revert acc. induction dims as [|i dims IH]; intros acc H.
  - left. cbn in H. congruence.
  - cbn [classify_padding] in H.
    peel H. peel H. peel H. peel H. peel H; [now apply IH|].
    peel H; [discriminate H|].
    right. destruct (IH _ H); assumption.
Qed.

Lemma ReplaceWithAvgPool_inv {host : Host} (op : DivOp) (input : Value)
  (v : ReduceWindowView) (mode : string) (rewriter r : PatternRewriter)
  (tpose : option TransposeOp) :
  ReplaceWithAvgPool op input v mode rewriter tpose = Defined r ->
  r = rewriter ++ fusion_actions_with tpose op input v mode.
Proof.
  unfold ReplaceWithAvgPool. intros H.
  peel H. peel H. peel H. peel H.
  apply (elem_at_Defined_inv _ _ _ 0) in E as [_ <-].
  apply (elem_at_Defined_inv _ _ _ 0) in E0 as [_ <-].
  apply (elem_at_Defined_inv _ _ _ 0) in E1 as [_ <-].
  apply (elem_at_Defined_inv _ _ _ 0) in E2 as [_ <-].
  change (Z.to_nat 1) with 1%nat in H. change (Z.to_nat 2) with 2%nat in H.
  unfold fusion_actions_with, fused_pool, create, replaceOp in *.
  destruct tpose as [t|]; cbn [getType] in H; injection H as <-;
    now rewrite <- !app_assoc.
Qed.

(** What a validated left operand has passed. *)
Lemma LegalizeAvgPool_lhs_inv {host : Host} (div_op : DivOp) (m : LhsMatch) :
  LegalizeAvgPool_lhs div_op = Defined (inr m) ->
  exists l init out_type ty n,
    opt_final_tpose m =
      dyn_cast_TransposeOp (getDefiningOp (getLhs div_op)) /\
    RecursivelyWalkUp [K_TransposeOp] (getLhs div_op) =
      OpResult ty (mhlo_reduce_window (rw_lhs m)) n /\
    GetViewIfAttrsSupported (rw_lhs m) = Defined (Some (rw_lhs_view m, l)) /\
    l = TFLNativePoolingLayout (Layout_Rank l) /\
    GetInputAndInitIfValid (rw_lhs m) =
      Defined (Some (rw_lhs_input m, init)) /\
    getResultTypes (rw_lhs m) = [out_type] /\
    MatchBinaryReduceFunction_AddOp (getBody (rw_lhs m)) = true /\
    isa_FloatType (getElementType out_type) = true /\
    IsCstFloatZero init = true /\
    classify_padding (rw_lhs_view m) (getShape (getType (rw_lhs_input m)))
      (getShape out_type) (spatial_indices (Rank (rw_lhs_view m))) "VALID" =
      Defined (Some (tfl_padding m)).
Proof.
  unfold LegalizeAvgPool_lhs. intros H.
  destruct (RecursivelyWalkUp [K_TransposeOp] (getLhs div_op))
    as [ty n|ty op n] eqn:Ew; [discriminate H|].
  cbn [getDefiningOp dyn_cast_ReduceWindowOp] in H.
  destruct op as [a| | | |rw|d| |]; try discriminate H.
  peel H. destruct a as [[v l]|]; [|discriminate H].
  peel H; [discriminate H|]. peel H; [discriminate H|].
  peel H. destruct a as [[input init]|]; [|discriminate H].
  peel H; [discriminate H|].
  peel H. peel H; [discriminate H|]. peel H; [discriminate H|].
  peel H. destruct a0 as [mode|]; [|discriminate H].
  injection H as <-. cbn [opt_final_tpose rw_lhs rw_lhs_view rw_lhs_input
                            tfl_padding].
  apply negb_false_iff in E1, E3, E5, E6.
  apply Layout_eqb_eq in E1.
  pose proof E2 as Hii.
  apply GetInputAndInitIfValid_Some in Hii as (Hn & _).
  exists l, init, a, ty, n. repeat split; auto.
  now apply getResultType_single.
Qed.

(** X8.  The fusion pattern fires only on an average pool.  Whenever it
    succeeds, the division's left operand walks up through transposes to a
    result of a reduce-window that passed the support filter in the canonical
    layout, was accepted by [GetInputAndInitIfValid], has an addition body, a
    floating-point result and an exactly-zero constant init value, and whose
    spatial paddings were classified as "VALID" or "SAME"; the right operand
    is either the constant-divisor shape, and then the mode is "VALID", or
    the ones-window shape with the window configuration of the numerator; and
    the rewriter has grown by exactly the fusion's actions: one average-pool
    node (re-transposed when the left operand is a transpose) and the
    replacement of the division. *)
Theorem fusion_success_sound {host : Host} (div_op : DivOp)
  (rewriter rewriter' : PatternRewriter) :
  LegalizeAvgPool_matchAndRewrite div_op rewriter =
    Defined (success, rewriter') ->
  exists rw v l input init out_type mode,
    (exists ty n, RecursivelyWalkUp [K_TransposeOp] (getLhs div_op) =
                    OpResult ty (mhlo_reduce_window rw) n) /\
    GetViewIfAttrsSupported rw = Defined (Some (v, l)) /\
    l = TFLNativePoolingLayout (Layout_Rank l) /\
    GetInputAndInitIfValid rw = Defined (Some (input, init)) /\
    getResultTypes rw = [out_type] /\
    MatchBinaryReduceFunction_AddOp (getBody rw) = true /\
    isa_FloatType (getElementType out_type) = true /\
    IsCstFloatZero init = true /\
    classify_padding v (getShape (getType input)) (getShape out_type)
      (spatial_indices (Rank v)) "VALID" = Defined (Some mode) /\
    (mode = "VALID" \/ mode = "SAME") /\
    ((exists divisor, constant_divisor div_op v divisor /\ mode = "VALID") \/
     (exists rw_rhs, ones_window_accepted div_op rw rw_rhs)) /\
    rewriter' = rewriter ++ fusion_actions div_op input v mode.
Proof.
  unfold LegalizeAvgPool_matchAndRewrite. intros H.
  peel H. destruct a as [r|m]; [discriminate H|].
  destruct (LegalizeAvgPool_lhs_inv div_op m E)
    as (l & init & out_type & ty & n & Htp & Hwalk & Hview & Hl & Hii & Hres
        & Hadd & Hfloat & Hzero & Hmode).
  exists (rw_lhs m), (rw_lhs_view m), l, (rw_lhs_input m), init, out_type,
    (tfl_padding m).
  split; [eauto|]. repeat (split; [assumption|]).
  split; [exact (classify_padding_modes _ _ _ _ _ _ Hmode)|].
  unfold fusion_actions. rewrite <- Htp.
  destruct (LegalizeAvgPool_case1 div_op m rewriter) as [res|] eqn:E1.
  - unfold LegalizeAvgPool_case1, notifyMatchFailure in E1.
    destruct (m_Constant_FP _) as [divisor|] eqn:Ec; [|discriminate E1].
    injection E1 as <-.
    peel H; [discriminate H|]. peel H; [discriminate H|].
    peel H; [discriminate H|]. peel H. injection H as <-.
    apply negb_false_iff in E0, E1, E2. apply String.eqb_eq in E2.
    split; [|now apply ReplaceWithAvgPool_inv].
    left. exists divisor. repeat split; assumption.
  - unfold LegalizeAvgPool_case2, notifyMatchFailure in H.
    destruct (RecursivelyWalkUp [K_BroadcastInDimOp; K_ReshapeOp;
                                 K_TransposeOp] (getRhs div_op))
      as [ty' n'|ty' op n'] eqn:Ew; [discriminate H|].
    cbn [getDefiningOp dyn_cast_ReduceWindowOp] in H.
    destruct op as [a| | | |rw_rhs|d| |]; try discriminate H.
    peel H. destruct a as [[v_rhs l_rhs]|]; [|discriminate H].
    peel H; [discriminate H|]. peel H; [discriminate H|].
    peel H. destruct a as [[rhs_input rhs_init]|]; [|discriminate H].
    peel H; [discriminate H|].
    destruct (m_Constant_FP _) as [ones|] eqn:Eo; [|discriminate H].
    peel H; [discriminate H|]. peel H; [discriminate H|].
    peel H. injection H as <-.
    apply negb_false_iff in E2, E3, E5.
    apply orb_false_iff in E6 as [Hs He].
    apply orb_false_iff in E7 as [E7 Hp].
    apply orb_false_iff in E7 as [Hd Hst].
    apply negb_false_iff in Hs, He, Hp, Hd, Hst.
    apply Layout_eqb_eq in E2. apply DenseIntElementsAttr_eqb_eq in Hd.
    apply optional_attr_eqb_eq in Hst, Hp.
    split; [|now apply ReplaceWithAvgPool_inv].
    right. exists rw_rhs.
    split; [eauto|]. split; [eauto|]. split; [assumption|].
    split; [|auto]. exists rhs_input, rhs_init, ones. auto.
Qed.

(** The fusion of the ones-window example went through the second case with
    mode "SAME". *)
Lemma fusion_success_sound_witness :
  exists mode,
    classify_padding (host := example_host)
      (view_of (host := example_host) ex_rw_same) [1; 8; 8; 1] [1; 8; 8; 1]
      (spatial_indices 4) "VALID" = Defined (Some mode) /\
    (mode = "VALID" \/ mode = "SAME").
Proof.
  destruct (fusion_success_sound (host := example_host) ex_div_ones [] _
              eq_refl)
    as (rw & v & l & input & init & out_type & mode & (ty & n & Hwalk) & Hview
        & _ & Hii & Hres & _ & _ & _ & Hmode & Hvs & _).
  assert (Er : OpResult (f32 [1; 8; 8; 1]) (mhlo_reduce_window ex_rw_same) 0 =
               OpResult ty (mhlo_reduce_window rw) n) by exact Hwalk.
  injection Er as _ <- _.
  assert (Ev : Defined (Some (view_of (host := example_host) ex_rw_same,
                              TFLNativePoolingLayout 4)) =
               Defined (Some (v, l))) by exact Hview.
  injection Ev as <- <-.
  assert (Ei : Defined (Some (ex_same_input, splat_f32 [] 0)) =
               Defined (Some (input, init))) by exact Hii.
  injection Ei as <- <-.
  assert (Eo : [f32 [1; 8; 8; 1]] = [out_type]) by exact Hres.
  injection Eo as <-.
  exists mode. split; [exact Hmode|exact Hvs].
Defined.

(** X9.  A constant divisor that does not match is a rejection, however good
    the numerator, and the ones-window case is not tried.  For a numerator of
    the described shape (well-formed, each spatial padding trivial or
    accepted by the same-padding check), when the right operand walks up
    through broadcasts and transposes to a floating-point constant that is
    not a splat, or for which [isExactlyValue] of the window size is false,
    or when a spatial padding of the numerator is not trivial, the pattern
    returns the match failure of the first constant-divisor check that
    fails, with the rewriter unchanged.  That is not what the ones-window
    case returns on such an operand, for every validated left operand:
    "Rhs of div op is not a reduce window.". *)
Theorem constant_divisor_rejected {host : Host} (div_op : DivOp)
  (rewriter : PatternRewriter) (rw : ReduceWindowOp) (v : ReduceWindowView)
  (input init : Value) (out_type : ShapedType)
  (divisor : DenseFPElementsAttr) :
  sum_window_numerator div_op rw v init out_type ->
  well_formed_window rw v input out_type ->
  (forall i, In i [1; 2] -> padded_dim v i = true ->
     same_padding_dim v (getShape (getType input)) (getShape out_type) i =
       true) ->
  m_Constant_FP
    (RecursivelyWalkUp [K_BroadcastInDimOp; K_TransposeOp] (getRhs div_op)) =
    Some divisor ->
  isSplat divisor = false \/
  isExactlyValue (getSplatValue divisor) (WindowSize v) = false \/
  padded_dim v 1 = true \/ padded_dim v 2 = true ->
  LegalizeAvgPool_matchAndRewrite div_op rewriter =
    Defined (failure (constant_divisor_failure divisor v), rewriter) /\
  (forall m : LhsMatch,
     LegalizeAvgPool_case2 div_op m rewriter =
       Defined (failure "Rhs of div op is not a reduce window.", rewriter)) /\
  constant_divisor_failure divisor v <>
    "Rhs of div op is not a reduce window.".
Proof.
  intros Hnum Hwf Hpad Hcst Hbad.
  destruct (LegalizeAvgPool_lhs_matches div_op rw v input init out_type
              Hnum Hwf Hpad) as [_ Hlhs].
  split; [|split].
  - unfold LegalizeAvgPool_matchAndRewrite. rewrite Hlhs. cbn [ubind].
    unfold LegalizeAvgPool_case1, constant_divisor_failure,
      notifyMatchFailure.
    rewrite Hcst. cbn [rw_lhs_view tfl_padding].
    destruct (isSplat divisor); cbn [negb]; [|reflexivity].
    destruct (isExactlyValue _ _); cbn [negb]; [|reflexivity].
    unfold padding_mode.
    destruct (padded_dim v 1), (padded_dim v 2); cbn; try reflexivity.
    destruct Hbad as [?|[?|[?|?]]]; discriminate.
  - intros m. unfold LegalizeAvgPool_case2.
    now rewrite (walk_up_constant_not_reduce_window _ _ Hcst).
  - unfold constant_divisor_failure.
    destruct (negb (isSplat divisor)); [discriminate|].
    destruct (negb (isExactlyValue _ _)); discriminate.
Qed.

(** The 3x3 sum window divided by 8.0 does not fuse: the failure is that of
    the window-size check. *)
Lemma constant_divisor_rejected_witness :
  LegalizeAvgPool_matchAndRewrite (host := example_host) ex_div_wrong_const [] =
    Defined (failure "Rhs splat const is not equal to window size.", []).
Proof.
  destruct (constant_divisor_rejected (host := example_host)
              ex_div_wrong_const [] ex_rw
              (view_of (host := example_host) ex_rw) ex_input (splat_f32 [] 0)
              (f32 [1; 4; 4; 1]) (splat_attr [1; 4; 4; 1] 8)) as [H _].
  - split; [do 2 eexists; reflexivity|].
    repeat split; try reflexivity; cbn; lia.
  - repeat split.
  - intros i [<-|[<-|[]]] Hp; discriminate Hp.
  - reflexivity.
  - right. left. reflexivity.
  - exact H.
Defined.

(** ** The 32-bit attributes of the pool *)

Lemma to_int32_narrowed (z : Z) : narrowed z (to_int32 z).
Proof.
  unfold narrowed, to_int32.
  pose proof (Z.mod_pos_bound (z + 2 ^ 31) (2 ^ 32) ltac:(lia)) as Hb.
  split; [lia|]. split.
  - replace ((z + 2 ^ 31) mod 2 ^ 32 - 2 ^ 31 - z)
      with ((z + 2 ^ 31) mod 2 ^ 32 - (z + 2 ^ 31)) by lia.
    rewrite Zminus_mod, Zmod_mod, <- Zminus_mod, Z.sub_diag. reflexivity.
  - intros Hz. rewrite Z.mod_small by lia. lia.
Qed.

(** X10.  [ReplaceWithAvgPool] on a rank-4 descriptor that keeps its
    invariant is defined and first creates the average-pool node over the
    given input, with the given padding string and activation "NONE", whose
    filter height and width and stride height and width are the 32-bit values
    of window dimensions 1 and 2 and window strides 1 and 2: each lies in the
    [int32_t] range, is congruent to the 64-bit entry modulo 2^32, and is the
    entry itself whenever the entry fits in 32 bits. *)
Theorem pool_attributes_are_narrowed {host : Host} (op : DivOp)
  (input : Value) (v : ReduceWindowView) (mode : string)
  (rewriter : PatternRewriter) (tpose : option TransposeOp) :
  view_invariant v -> Rank v = 4 ->
  exists out_type fh fw sh sw rest,
    ReplaceWithAvgPool op input v mode rewriter tpose =
      Defined (rewriter ++
               Created (tfl_average_pool_2d out_type input fh fw mode sh sw
                          "NONE") :: rest) /\
    narrowed (nth 1 (WindowDims v) 0) fh /\
    narrowed (nth 2 (WindowDims v) 0) fw /\
    narrowed (nth 1 (WindowStrides v) 0) sh /\
    narrowed (nth 2 (WindowStrides v) 0) sw.
Proof.
  intros Hinv Hr.
  rewrite (ReplaceWithAvgPool_Defined op input v mode rewriter tpose Hinv Hr).
  unfold fusion_actions_with, fused_pool.
  destruct tpose as [t|]; do 6 eexists;
    (split; [reflexivity|]); repeat split; apply to_int32_narrowed.
Qed.

(** The 3x3, stride-2 window gives filter (3, 3) and stride (2, 2). *)
Lemma pool_attributes_are_narrowed_witness :
  exists out_type fh fw sh sw rest,
    ReplaceWithAvgPool (host := example_host) ex_div_const ex_input
      (view_of (host := example_host) ex_rw) "VALID" [] None =
      Defined ([] ++
               Created (tfl_average_pool_2d out_type ex_input fh fw "VALID" sh
                          sw "NONE") :: rest) /\
    fh = 3 /\ fw = 3 /\ sh = 2 /\ sw = 2.
Proof.
  assert (Hinv : view_invariant (view_of (host := example_host) ex_rw))
    by (repeat split).
  destruct (pool_attributes_are_narrowed (host := example_host) ex_div_const
              ex_input (view_of (host := example_host) ex_rw) "VALID" [] None
              Hinv eq_refl)
    as (out_type & fh & fw & sh & sw & rest & Hrun & (_ & _ & Hfh)
        & (_ & _ & Hfw) & (_ & _ & Hsh) & (_ & _ & Hsw)).
  exists out_type, fh, fw, sh, sw, rest.
  split; [exact Hrun|].
  split; [apply Hfh; cbn; lia|]. split; [apply Hfw; cbn; lia|].
  split; [apply Hsh; cbn; lia|apply Hsw; cbn; lia].
Defined.

(** ** No undefined access on well-formed nodes *)

Lemma classify_padding_Defined {host : Host} (v : ReduceWindowView)
  (in_shape out_shape dims : list Z) (acc : string) :
  Forall (dim_in_range v in_shape out_shape) dims ->
  exists r, classify_padding v in_shape out_shape dims acc = Defined r.
Proof.
  intros Hr. revert acc. induction Hr as [|i dims Hi Hr IH]; intros acc.
  - cbn. eauto.
  - rewrite classify_padding_step by exact Hi.
    destruct (negb (padded_dim v i)); [apply IH|].
    destruct (negb (same_padding_dim v in_shape out_shape i)); [eauto|].
    apply IH.
Qed.

(** On a well-formed numerator the validation of the left operand returns,
    and what it accepts has a rank-4 descriptor that keeps its invariant. *)
Lemma LegalizeAvgPool_lhs_Defined {host : Host} (div_op : DivOp) :
  (forall ty rw n,
     RecursivelyWalkUp [K_TransposeOp] (getLhs div_op) =
       OpResult ty (mhlo_reduce_window rw) n -> well_formed_node rw) ->
  (exists reason, LegalizeAvgPool_lhs div_op = Defined (inl reason)) \/
  (exists m, LegalizeAvgPool_lhs div_op = Defined (inr m) /\
             view_invariant (rw_lhs_view m) /\ Rank (rw_lhs_view m) = 4).
Proof.
  intros Hwf. unfold LegalizeAvgPool_lhs.
  destruct (RecursivelyWalkUp [K_TransposeOp] (getLhs div_op))
    as [ty n|ty op n] eqn:Ew; [left; cbn; eauto|].
  cbn [getDefiningOp dyn_cast_ReduceWindowOp].
  destruct op as [a| | | |rw|d| |]; try (left; eauto; fail).
  destruct (Hwf ty rw n eq_refl) as (Hops & Hinv & Hfit & Hins & Hres).
  destruct (GetViewIfAttrsSupported_Defined rw Hinv Hfit) as [[[v l]|] Hview];
    rewrite Hview; cbn [ubind]; [|left; eauto].
  apply GetViewIfAttrsSupported_Some in Hview as (-> & Hr4 & _).
  rewrite Hr4. cbn [Z.eqb Pos.eqb negb].
  destruct (negb (Layout_eqb _ _)); [left; eauto|].
  destruct (GetInputAndInitIfValid_Defined rw Hops) as [[[input init]|] Hii];
    rewrite Hii; cbn [ubind]; [|left; eauto].
  apply GetInputAndInitIfValid_Some in Hii as (Hn & Hin & _).
  destruct (negb (MatchBinaryReduceFunction_AddOp _)); [left; eauto|].
  destruct (getResultTypes_single rw Hn) as [out_type Hout].
  unfold getResultType. rewrite Hout.
  cbn [elem_at Z.ltb Z.compare Z.to_nat nth_error ubind].
  destruct (negb (isa_FloatType _)); [left; eauto|].
  destruct (negb (IsCstFloatZero _)); [left; eauto|].
  rewrite Hin in Hins. apply Forall_cons_iff in Hins as [Hishape _].
  rewrite Hout in Hres. apply Forall_cons_iff in Hres as [Hoshape _].
  pose proof (spatial_indices_in_range (view_of rw) _ _ Hinv Hishape Hoshape)
    as Hrange.
  rewrite Hr4 in Hrange.
  destruct (classify_padding_Defined (view_of rw) (getShape (getType input))
              (getShape out_type) (spatial_indices 4) "VALID" Hrange)
    as [[mode|] ->]; cbn [ubind]; [|left; eauto].
  right. eexists. split; [reflexivity|]. cbn [rw_lhs_view]. auto.
Qed.

(** X11.  On well-formed nodes the fusion pattern makes no undefined access:
    when every reduce-window the left operand walks up to (through
    transposes) and every reduce-window the right operand walks up to
    (through broadcasts, reshapes and transposes) is well-formed, the pattern
    returns, with a success or a match failure. *)
Theorem fusion_defined_on_well_formed {host : Host} (div_op : DivOp)
  (rewriter : PatternRewriter) :
  (forall ty rw n,
     RecursivelyWalkUp [K_TransposeOp] (getLhs div_op) =
       OpResult ty (mhlo_reduce_window rw) n -> well_formed_node rw) ->
  (forall ty rw n,
     RecursivelyWalkUp [K_BroadcastInDimOp; K_ReshapeOp; K_TransposeOp]
       (getRhs div_op) = OpResult ty (mhlo_reduce_window rw) n ->
     well_formed_node rw) ->
  exists r, LegalizeAvgPool_matchAndRewrite div_op rewriter = Defined r.
Proof.
  intros Hlhs Hrhs. unfold LegalizeAvgPool_matchAndRewrite.
  destruct (LegalizeAvgPool_lhs_Defined div_op Hlhs)
    as [[reason ->]|(m & -> & Hinv & Hr4)]; cbn [ubind];
    [unfold notifyMatchFailure; eauto|].
  assert (Hreplace : exists r',
            ReplaceWithAvgPool div_op (rw_lhs_input m) (rw_lhs_view m)
              (tfl_padding m) rewriter (opt_final_tpose m) = Defined r')
    by (rewrite ReplaceWithAvgPool_Defined by assumption; eauto).
  destruct Hreplace as [r' Hreplace].
  destruct (LegalizeAvgPool_case1 div_op m rewriter) as [res|] eqn:E1.
  - unfold LegalizeAvgPool_case1, notifyMatchFailure in E1.
    destruct (m_Constant_FP _); [|discriminate E1]. injection E1 as <-.
    destruct (negb (isSplat _)); [eauto|].
    destruct (negb (isExactlyValue _ _)); [eauto|].
    destruct (negb (String.eqb _ _)); [eauto|].
    rewrite Hreplace. cbn [ubind]. eauto.
  - unfold LegalizeAvgPool_case2, notifyMatchFailure.
    destruct (RecursivelyWalkUp [K_BroadcastInDimOp; K_ReshapeOp;
                                 K_TransposeOp] (getRhs div_op))
      as [ty n|ty op n] eqn:Ew; [cbn; eauto|].
    cbn [getDefiningOp dyn_cast_ReduceWindowOp].
    destruct op as [a| | | |rw|d| |]; try (eauto; fail).
    destruct (Hrhs ty rw n eq_refl) as (Hops & Hinv' & Hfit & _).
    destruct (GetViewIfAttrsSupported_Defined rw Hinv' Hfit)
      as [[[v l]|] ->]; cbn [ubind]; [|eauto].
    destruct (negb (Layout_eqb _ _)); [eauto|].
    destruct (negb (MatchBinaryReduceFunction_AddOp _)); [eauto|].
    destruct (GetInputAndInitIfValid_Defined rw Hops)
      as [[[input init]|] ->]; cbn [ubind]; [|eauto].
    destruct (negb (IsCstFloatZero _)); [eauto|].
    destruct (match m_Constant_FP _ with Some _ => _ | None => true end);
      [eauto|].
    destruct (_ || _); [eauto|].
    rewrite Hreplace. cbn [ubind]. eauto.
Qed.

(** The ones-window division: both reduce-windows are well-formed. *)
Lemma fusion_defined_on_well_formed_witness :
  well_formed_node (host := example_host) ex_rw_same /\
  well_formed_node (host := example_host) ex_rw_ones /\
  exists r,
    LegalizeAvgPool_matchAndRewrite (host := example_host) ex_div_ones [] =
      Defined r.
Proof.
  assert (Hwf : forall input,
            getType (host := example_host) input = f32 [1; 8; 8; 1] ->
            well_formed_node (host := example_host)
              (MkReduceWindowOp [input] [splat_f32 [] 0] ex_same_attrs AddBody
                 [f32 [1; 8; 8; 1]])).
  { intros input Hty.
    split; [split; discriminate|]. split; [repeat split|].
    split; [|split; repeat constructor; cbn [getInputs]; now rewrite Hty].
    split; [split|reflexivity].
    - change (NoDup [0; 3; 1; 2]). repeat constructor; cbn; intuition lia.
    - change (Forall (fun d => 0 <= d < 4) [0; 3; 1; 2]).
      repeat constructor; lia. }
  split; [apply (Hwf ex_same_input eq_refl)|].
  split; [apply (Hwf ex_ones eq_refl)|].
  apply (fusion_defined_on_well_formed (host := example_host) ex_div_ones []).
  - intros ty rw n [= _ <- _]. apply (Hwf ex_same_input eq_refl).
  - intros ty rw n [= _ <- _]. apply (Hwf ex_ones eq_refl).
Defined.

(** ** The canonical pooling layout *)

Lemma iota_NoDup (first : Z) (n : nat) : NoDup (iota first n).
Proof.
  apply NoDup_nth with (d := 0). rewrite iota_length. intros i j Hi Hj.
  rewrite !nth_iota by assumption. lia.
Qed.

Lemma position_map_seq (first : Z) (n s : nat) (d : Z) :
  first + Z.of_nat s <= d < first + Z.of_nat s + Z.of_nat n ->
  position d (map (fun k => first + Z.of_nat k) (seq s n)) =
    Some (Z.to_nat (d - first - Z.of_nat s)).
Proof.
  revert s. induction n as [|n IH]; intros s Hd; [lia|].
  cbn [seq map position].
  destruct (d =? first + Z.of_nat s) eqn:E.
  - apply Z.eqb_eq in E. f_equal. lia.
  - apply Z.eqb_neq in E. rewrite (IH (S s)) by lia.
    cbn [option_map]. f_equal. lia.
Qed.

Lemma position_iota (first : Z) (n : nat) (d : Z) :
  first <= d < first + Z.of_nat n ->
  position d (iota first n) = Some (Z.to_nat (d - first)).
Proof.
  intros Hd. unfold iota. rewrite position_map_seq by lia. f_equal. lia.
Qed.

(** X12.  [TFLNativePoolingLayout rank] is a well-formed layout exactly for
    ranks from 2 on.  Then it has that rank, its batch dimension is the first
    one, its feature dimension the last one and the spatial dimensions lie in
    between in ascending order; re-laying it out to itself is the identity
    permutation. *)
Theorem TFLNativePoolingLayout_roles (rank : Z) :
  (Layout_valid (TFLNativePoolingLayout rank) <-> 2 <= rank) /\
  (2 <= rank ->
   Layout_Rank (TFLNativePoolingLayout rank) = rank /\
   (forall d, 0 <= d < rank ->
      role_of (TFLNativePoolingLayout rank) d =
        Some (if d =? 0 then Batch
              else if d =? rank - 1 then Channel
              else Spatial (Z.to_nat (d - 1)))) /\
   GetPermForReLayout (TFLNativePoolingLayout rank)
     (TFLNativePoolingLayout rank) = iota 0 (Z.to_nat rank)).
Proof.
  assert (Hrank : 2 <= rank -> Layout_Rank (TFLNativePoolingLayout rank) = rank).
  { intros H. unfold Layout_Rank, TFLNativePoolingLayout. cbn [Spatials].
    rewrite iota_length. lia. }
  assert (Hrole : 2 <= rank -> forall d, 0 <= d < rank ->
            role_of (TFLNativePoolingLayout rank) d =
              Some (if d =? 0 then Batch
                    else if d =? rank - 1 then Channel
                    else Spatial (Z.to_nat (d - 1)))).
  { intros H d Hd. unfold role_of, TFLNativePoolingLayout.
    cbn [SpecialDim1 SpecialDim2 Spatials].
    destruct (d =? 0) eqn:E0; [reflexivity|].
    destruct (d =? rank - 1) eqn:E1; [reflexivity|].
    apply Z.eqb_neq in E0, E1.
    rewrite position_iota by lia. reflexivity. }
  split; [split|].
  - intros [Hnd Hall]. unfold Layout_dims, TFLNativePoolingLayout in Hnd, Hall.
    cbn [SpecialDim1 SpecialDim2 Spatials] in Hnd, Hall.
    apply NoDup_cons_iff in Hnd as [Hnotin _].
    apply Forall_cons_iff in Hall as [_ Hall].
    apply Forall_cons_iff in Hall as [Hlast _].
    destruct (Z.eq_dec rank 1) as [->|Hne]; [|lia].
    exfalso. apply Hnotin. now left.
  - intros H. split.
    + unfold Layout_dims, TFLNativePoolingLayout.
      cbn [SpecialDim1 SpecialDim2 Spatials].
      constructor; [|constructor; [|apply iota_NoDup]].
      * intros [E|Hin]; [lia|apply in_iota in Hin; lia].
      * intros Hin. apply in_iota in Hin. lia.
    + rewrite Hrank by exact H.
      unfold Layout_dims, TFLNativePoolingLayout.
      cbn [SpecialDim1 SpecialDim2 Spatials].
      constructor; [lia|]. constructor; [lia|].
      apply Forall_forall. intros d Hin. apply in_iota in Hin. lia.
  - intros H. split; [exact (Hrank H)|]. split; [exact (Hrole H)|].
    unfold GetPermForReLayout. rewrite (Hrank H).
    rewrite <- (iota_length 0 (Z.to_nat rank)) at 1.
    apply map_iota_id. rewrite iota_length. intros d Hd.
    rewrite (Hrole H) by lia.
    rewrite nth_iota by lia.
    destruct (d =? 0) eqn:E0; [apply Z.eqb_eq in E0; cbn [dim_of]|].
    + unfold TFLNativePoolingLayout. cbn [SpecialDim1]. lia.
    + destruct (d =? rank - 1) eqn:E1; cbn [dim_of].
      * apply Z.eqb_eq in E1. unfold TFLNativePoolingLayout.
        cbn [SpecialDim2]. lia.
      * apply Z.eqb_neq in E0, E1. unfold TFLNativePoolingLayout.
        cbn [Spatials].
        rewrite nth_error_nth' with (d := 0) by (rewrite iota_length; lia).
        rewrite nth_iota by lia. lia.
Qed.

(** ** Types across the canonicalization *)

Lemma reorder_round_trip (data perm inv : list Z) :
  length perm = length data ->
  length inv = length data ->
  Permute perm inv = Defined (iota 0 (length data)) ->
  reorder inv (reorder perm data 0) 0 = data.
Proof.
  intros Hp Hi H. rewrite <- Hp in H.
  apply Permute_inv in H as [Hinv Hid].
  apply nth_ext with (d := 0) (d' := 0).
  - unfold reorder. now rewrite length_map.
  - unfold reorder at 1. rewrite length_map. intros k Hk.
    destruct (Hinv (Z.of_nat k)) as [_ Hq]; [lia|].
    rewrite Nat2Z.id in Hq.
    rewrite nth_reorder by lia. rewrite nth_reorder by lia. f_equal.
    assert (E : nth k (iota 0 (length perm)) 0 = Z.of_nat k)
      by (rewrite nth_iota by lia; lia).
    rewrite Hid in E at 1.
    rewrite (nth_map_iota
               (fun i => nth (Z.to_nat (nth (Z.to_nat i) inv 0)) perm 0))
      in E by lia.
    rewrite Nat2Z.id in E. rewrite E. apply Nat2Z.id.
Qed.

(** X13.  The canonicalization keeps the type of the node it replaces.  With
    transposes typed as [mhlo.transpose] defines, a successful rewrite of a
    well-formed node ends by replacing the node with a value of exactly the
    node's result type, after creating the three new operations. *)
Theorem relayout_preserves_result_type {host : Host} (op : ReduceWindowOp)
  (rewriter rewriter' : PatternRewriter) :
  transpose_typed ->
  well_formed_node op ->
  RelayoutReduceWindow_matchAndRewrite op rewriter =
    Defined (success, rewriter') ->
  exists new_input new_rw new_output out,
    rewriter' =
      rewriter ++
      [Created (mhlo_transpose new_input); Created (mhlo_reduce_window new_rw);
       Created (mhlo_transpose new_output);
       Replaced (mhlo_reduce_window op) out] /\
    getDefiningOp out = Some (mhlo_transpose new_output) /\
    getResultTypes op = [getType out].
Proof.
  intros Htt (Hops & Hinv & Hfit & _ & Hres) H.
  unfold RelayoutReduceWindow_matchAndRewrite in H.
  peel H. destruct a as [[v l]|]; [|discriminate H].
  peel H. destruct a as [[input init]|]; [|discriminate H].
  peel H; [discriminate H|].
  peel H. peel H. peel H. peel H. peel H.
  unfold TransposeTensor, getResult, getResultType, create, replaceOp in H.
  cbn [getResultTypes elem_at Z.ltb Z.compare Z.to_nat nth_error ubind] in H.
  injection H as <-.
  do 4 eexists. split; [rewrite <- !app_assoc; reflexivity|].
  split; [reflexivity|].
  cbn [getType].
  pose proof E as Hsup.
  apply GetViewIfAttrsSupported_Some in Hsup as (-> & Hr4 & _ & _ & Hg & _).
  unfold guess_fits in Hfit. rewrite Hg in Hfit. destruct Hfit as [Hl Hrank].
  apply GetInputAndInitIfValid_Some in E0 as (Hn & _).
  rewrite (getResultType_single op a2 Hn E5) in Hres |- *.
  apply Forall_cons_iff in Hres as [Hshape _].
  set (target := TFLNativePoolingLayout (Rank (view_of op))) in *.
  assert (Ht : Layout_valid target)
    by (unfold target; rewrite Hr4; exact TFLNativePoolingLayout_4_valid).
  assert (Htrank : Layout_Rank l = Layout_Rank target)
    by (unfold target; rewrite Hrank, Hr4; reflexivity).
  pose proof (GetPermForReLayout_length l target) as Lin.
  pose proof (GetPermForReLayout_length target l) as Lout.
  pose proof (GetPermForReLayout_range l target Hl Ht Htrank) as Rin.
  pose proof (GetPermForReLayout_range target l Ht Hl (eq_sym Htrank)) as Rout.
  pose proof (GetPermForReLayout_inverse l target Hl Ht Htrank) as Hinverse.
  set (perm_in := GetPermForReLayout l target) in *.
  set (perm_out := GetPermForReLayout target l) in *.
  unfold PermuteShape in E6. fold perm_in in E6.
  rewrite Permute_reorder in E6;
    [|lia|eapply Forall_impl; [|exact Rin]; cbn beta; intros; lia].
  injection E6 as <-.
  change (BuildDenseI64_shaped [Z.of_nat (length perm_out)] perm_out)
    with (BuildDenseI64 perm_out).
  assert (Hlen : length (reorder perm_in (getShape a2) 0) = length perm_in)
    by (unfold reorder; now rewrite length_map).
  rewrite Htt.
  - cbn [ShapedType_clone getShape getElementType].
    rewrite reorder_round_trip.
    + now destruct a2.
    + lia.
    + lia.
    + replace (length (getShape a2)) with (Z.to_nat (Layout_Rank l)) by lia.
      exact Hinverse.
  - cbn [ShapedType_clone getShape]. lia.
  - eapply Forall_impl; [|exact Rout]. cbn beta. intros; lia.
Qed.

(** The channel-first window: the value that replaces it has its type. *)
Lemma relayout_preserves_result_type_witness :
  transpose_typed (host := example_host) /\
  well_formed_node (host := example_host) ex_rw_nchw /\
  exists new_input new_rw new_output out,
    RelayoutReduceWindow_matchAndRewrite (host := example_host) ex_rw_nchw [] =
      Defined
        (success,
         [Created (mhlo_transpose new_input);
          Created (mhlo_reduce_window new_rw);
          Created (mhlo_transpose new_output);
          Replaced (mhlo_reduce_window ex_rw_nchw) out]) /\
    [f32 [1; 16; 5; 7]] = [getType (host := example_host) out].
Proof.
  assert (Htt : transpose_typed (host := example_host))
    by (intros ty perm _ _; reflexivity).
  assert (Hwf : well_formed_node (host := example_host) ex_rw_nchw).
  { split; [split; discriminate|]. split; [repeat split|].
    split; [|split; repeat constructor].
    split; [split|reflexivity].
    - change (NoDup [0; 1; 2; 3]). repeat constructor; cbn; intuition lia.
    - change (Forall (fun d => 0 <= d < 4) [0; 1; 2; 3]).
      repeat constructor; lia. }
  split; [exact Htt|]. split; [exact Hwf|].
  destruct (relayout_preserves_result_type (host := example_host) ex_rw_nchw
              [] _ Htt Hwf eq_refl)
    as (new_input & new_rw & new_output & out & Hlog & _ & Hty).
  exists new_input, new_rw, new_output, out.
  split; [|exact Hty].
  exact (f_equal (fun r => Defined (success, r)) Hlog).
Defined.

(** ** Undefined accesses of the support filter *)

Lemma elem_at_Undefined {A : Type} (l : list A) (i : Z) :
  elem_at l i = Undefined <-> ~ 0 <= i < Z.of_nat (length l).
Proof.
  unfold elem_at. destruct (Z.ltb_spec i 0) as [Hneg|Hpos].
  - split; [lia|reflexivity].
  - destruct (nth_error l (Z.to_nat i)) as [a|] eqn:E.
    + split; [discriminate|]. intros Hout. exfalso. apply Hout.
      assert (Hlt : (Z.to_nat i < length l)%nat)
        by (apply nth_error_Some; congruence).
      lia.
    + split; [|reflexivity]. intros _. apply nth_error_None in E. lia.
Qed.

(** X14.  The support filter indexes the paddings with the batch and the
    channel dimension of the guessed layout without a bounds check.  It makes
    an undefined access exactly when the rank is 4, every dilation is 1, a
    layout is guessed and either its batch dimension is no index of the
    paddings, or the batch padding is trivial and its channel dimension is no
    index of the paddings.  A non-trivial batch padding rejects the node
    before the channel padding is read; and an undefined access of the filter
    is one of the canonicalization pattern. *)
Theorem support_filter_undefined_iff {host : Host} (op : ReduceWindowOp) :
  (GetViewIfAttrsSupported op = Undefined <->
   Rank (view_of op) = 4 /\
   Forall (fun d => d = 1) (BaseDilations (view_of op)) /\
   Forall (fun d => d = 1) (WindowDilations (view_of op)) /\
   exists l,
     GuessLayout (view_of op) = Some l /\
     (~ 0 <= SpecialDim1 l < Z.of_nat (length (Paddings (view_of op))) \/
      trivial_padding_at (view_of op) (SpecialDim1 l) /\
      ~ 0 <= SpecialDim2 l < Z.of_nat (length (Paddings (view_of op))))) /\
  (forall l p,
     GuessLayout (view_of op) = Some l ->
     elem_at (Paddings (view_of op)) (SpecialDim1 l) = Defined p ->
     Trivial p = false ->
     GetViewIfAttrsSupported op = Defined None) /\
  (forall rewriter,
     GetViewIfAttrsSupported op = Undefined ->
     RelayoutReduceWindow_matchAndRewrite op rewriter = Undefined).
Proof.
  split; [|split].
  - unfold GetViewIfAttrsSupported, IsRankSupported, AreDilationsSupported,
      trivial_padding_at, view_of.
    set (view := ReduceWindowView_ctor (getAttrs op)).
    split.
    + destruct (Z.eqb_spec (Rank view) 4) as [Hr|]; [|discriminate].
      cbn [negb].
      destruct (forallb _ (BaseDilations view)) eqn:Hb; [|discriminate].
      destruct (forallb _ (WindowDilations view)) eqn:Hw; [|discriminate].
      cbn [andb negb].
      destruct (GuessLayout view) as [layout|]; [|discriminate].
      intros H. split; [exact Hr|].
      split; [now apply forallb_is_one|]. split; [now apply forallb_is_one|].
      exists layout. split; [reflexivity|].
      destruct (elem_at (Paddings view) (SpecialDim1 layout)) as [bp|] eqn:Eb.
      * cbn [ubind] in H. destruct (Trivial bp) eqn:Tb; [|discriminate H].
        cbn [negb] in H. right. split; [eauto|].
        destruct (elem_at (Paddings view) (SpecialDim2 layout)) as [cp|] eqn:Ec.
        -- cbn [ubind] in H. destruct (negb (Trivial cp)); discriminate H.
        -- now apply elem_at_Undefined.
      * left. now apply elem_at_Undefined.
    + intros (Hr & Hb & Hw & l & Hg & Hout).
      apply forallb_is_one in Hb, Hw. rewrite Hr, Hb, Hw, Hg. cbn.
      destruct Hout as [Hbatch|[(bp & Eb & Tb) Hchan]].
      * apply elem_at_Undefined in Hbatch. now rewrite Hbatch.
      * apply elem_at_Undefined in Hchan.
        rewrite Eb. cbn. rewrite Tb. cbn. now rewrite Hchan.
  - intros l p Hg Eb Tb.
    unfold GetViewIfAttrsSupported. fold (view_of op).
    destruct (negb (IsRankSupported (view_of op))); [reflexivity|].
    destruct (negb (AreDilationsSupported (view_of op))); [reflexivity|].
    rewrite Hg, Eb. cbn [ubind]. now rewrite Tb.
  - intros rewriter H. unfold RelayoutReduceWindow_matchAndRewrite.
    now rewrite H.
Qed.

(** With a single row of paddings the batch padding is read and trivial, and
    the channel dimension 3 is no index of the paddings. *)
Lemma support_filter_undefined_iff_witness :
  GetViewIfAttrsSupported (host := example_host) ex_rw_short_padding =
    Undefined /\
  RelayoutReduceWindow_matchAndRewrite (host := example_host)
    ex_rw_short_padding [] = Undefined.
Proof.
  destruct (support_filter_undefined_iff (host := example_host)
              ex_rw_short_padding) as (Hiff & _ & Hrun).
  assert (H : GetViewIfAttrsSupported (host := example_host)
                ex_rw_short_padding = Undefined).
  { apply Hiff. split; [reflexivity|].
    split; [repeat constructor|]. split; [repeat constructor|].
    exists (TFLNativePoolingLayout 4). split; [reflexivity|].
    right. split; [eexists; split; reflexivity|].
    cbn. lia. }
  split; [exact H|]. apply Hrun. exact H.
Defined.

(** ** Types across the fusion *)

Lemma LegalizeAvgPool_success_actions {host : Host} (div_op : DivOp)
  (rewriter rewriter' : PatternRewriter) :
  LegalizeAvgPool_matchAndRewrite div_op rewriter =
    Defined (success, rewriter') ->
  exists input v mode,
    rewriter' = rewriter ++ fusion_actions div_op input v mode.
Proof.
  unfold LegalizeAvgPool_matchAndRewrite. intros H.
  peel H. destruct a as [r|m]; [discriminate H|].
  destruct (LegalizeAvgPool_lhs_inv div_op m E)
    as (_ & _ & _ & _ & _ & Htp & _).
  exists (rw_lhs_input m), (rw_lhs_view m), (tfl_padding m).
  unfold fusion_actions. rewrite <- Htp.
  destruct (LegalizeAvgPool_case1 div_op m rewriter) as [res|] eqn:E1.
  - unfold LegalizeAvgPool_case1, notifyMatchFailure in E1.
    destruct (m_Constant_FP _); [|discriminate E1].
    injection E1 as <-.
    peel H; [discriminate H|]. peel H; [discriminate H|].
    peel H; [discriminate H|]. peel H. injection H as <-.
    now apply ReplaceWithAvgPool_inv.
  - unfold LegalizeAvgPool_case2, notifyMatchFailure in H.
    destruct (RecursivelyWalkUp [K_BroadcastInDimOp; K_ReshapeOp;
                                 K_TransposeOp] (getRhs div_op))
      as [ty' n'|ty' op n']; [discriminate H|].
    cbn [getDefiningOp dyn_cast_ReduceWindowOp] in H.
    destruct op as [a| | | |rw_rhs|d| |]; try discriminate H.
    peel H. destruct a as [[v_rhs l_rhs]|]; [|discriminate H].
    peel H; [discriminate H|]. peel H; [discriminate H|].
    peel H. destruct a as [[rhs_input rhs_init]|]; [|discriminate H].
    peel H; [discriminate H|].
    destruct (m_Constant_FP _); [|discriminate H].
    peel H; [discriminate H|]. peel H; [discriminate H|].
    peel H. injection H as <-.
    now apply ReplaceWithAvgPool_inv.
Qed.

(** X15.  What the fusion keeps of the left operand's transposes.  The walk
    to the reduce-window skips every transpose, but only the one that
    produces the left operand is created again: the pool gets the type of
    the value under that transpose (of the left operand itself when no
    transpose produces it), from which the same reduce-window is reached.
    When the division has the type of its left operand and that transpose is
    typed as the builder types it, the value that replaces the division has
    the division's type. *)
Theorem fusion_preserves_division_type {host : Host} (div_op : DivOp)
  (rewriter rewriter' : PatternRewriter) :
  DivOp_getType div_op = getType (getLhs div_op) ->
  (forall t,
     getDefiningOp (getLhs div_op) = Some (mhlo_transpose t) ->
     getType (getLhs div_op) =
       inferTransposeType (getType (getOperand t)) (getPermutation t)) ->
  LegalizeAvgPool_matchAndRewrite div_op rewriter =
    Defined (success, rewriter') ->
  exists input v mode rest out,
    rewriter' =
      rewriter ++
      Created (fused_pool (getType (under_final_transpose (getLhs div_op)))
                 input v mode)
      :: rest ++ [Replaced (mhlo_divide div_op) out] /\
    (length rest <= 1)%nat /\
    RecursivelyWalkUp [K_TransposeOp] (under_final_transpose (getLhs div_op)) =
      RecursivelyWalkUp [K_TransposeOp] (getLhs div_op) /\
    getType out = DivOp_getType div_op.
Proof.
  intros Hdiv Htpose H.
  apply LegalizeAvgPool_success_actions in H as (input & v & mode & ->).
  exists input, v, mode.
  unfold fusion_actions, fusion_actions_with, under_final_transpose.
  destruct (getLhs div_op) as [ty n|ty op n] eqn:El.
  - exists [], (OpResult (DivOp_getType div_op)
                  (fused_pool (DivOp_getType div_op) input v mode) 0).
    cbn [getDefiningOp dyn_cast_TransposeOp app length getType] in *.
    rewrite <- Hdiv. repeat split; lia.
  - destruct op as [a|t|operand dims ty'|operand ty'|r|d| |];
      cbn [getDefiningOp dyn_cast_TransposeOp getType] in *;
      try (exists [], (OpResult (DivOp_getType div_op)
                         (fused_pool (DivOp_getType div_op) input v mode) 0);
           cbn [app length getType]; rewrite <- Hdiv; repeat split; lia).
    eexists [_]. eexists. split; [reflexivity|].
    split; [cbn [length]; lia|].
    split; [now destruct t|].
    cbn [getType]. rewrite Hdiv. symmetry. now apply Htpose.
Qed.

(** The division through a transpose: the pool has the type of the
    reduce-window's result, the replacement the type of the division. *)
Lemma fusion_preserves_division_type_witness :
  exists input v mode rest out,
    LegalizeAvgPool_matchAndRewrite (host := example_host) ex_div_tposed [] =
      Defined
        (success,
         Created (fused_pool (host := example_host) (f64 [1; 1; 4; 1]) input v
                    mode)
         :: rest ++ [Replaced (mhlo_divide ex_div_tposed) out]) /\
    getType (host := example_host) out = f64 [1; 1; 1; 4].
Proof.
  assert (Ht : forall t,
            getDefiningOp (host := example_host) (getLhs ex_div_tposed) =
              Some (mhlo_transpose t) ->
            getType (host := example_host) (getLhs ex_div_tposed) =
              inferTransposeType (Host := example_host)
                (getType (getOperand t)) (getPermutation t))
    by (intros t [= <-]; reflexivity).
  destruct (fusion_preserves_division_type (host := example_host)
              ex_div_tposed [] _ eq_refl Ht eq_refl) as
    (input & v & mode & rest & out & Hlog & _ & _ & Hty).
  exists input, v, mode, rest, out. split; [|exact Hty].
  exact (f_equal (fun r => Defined (success, r)) Hlog).
Defined.
